(** * Ball path simulator: a shallow embedding of [BallPathSimulator]

    The component's physics core (path sampling, contact resolution, the
    per-frame integrator [animate], the energy tracker and the prediction
    scorer) is transcribed function by function.

    Numbers.  The source computes with IEEE doubles.  Here every finite
    number is an exact rational ([Q]); rounding, overflow of the arithmetic
    and signed zeros are outside the model.  All equations between numbers
    are therefore stated with [==] (equality of rationals): they hold of
    the source up to the rounding of its doubles, and a comparison of the
    source can come out the other way when its two sides are within
    rounding of each other.  The scorer, which can be handed [NaN] by
    [parseFloat] and can divide by zero, works on [number], the rationals
    extended with the three IEEE special values. *)

From Stdlib Require Import QArith Qabs Qround Qminmax Qpower ZArith List String Ascii Bool
  Lia Lqa.
Import ListNotations.
Local Open Scope Q_scope.

(** ** Comparisons on finite numbers, as booleans *)

Definition Qltb (x y : Q) : bool := negb (Qle_bool y x).
Definition Qgeb (x y : Q) : bool := Qle_bool y x.
Definition Qgtb (x y : Q) : bool := negb (Qle_bool x y).

(** [isFinite]: every rational denotes a finite double. *)
Definition isFinite (_ : Q) : bool := true.

(** ** Types of the component *)

Record Point := { px : Q; py : Q }.

Inductive SegType := line | curve.

Record PathSegment := { seg_type : SegType; seg_points : list Point }.

Record EnergyData := {
  kineticEnergy : Q;
  potentialEnergy : Q;
  totalEnergy : Q;
  energyLoss : Q
}.

Record PredictionData := {
  p_initialTotalEnergy : string;
  p_finalTotalEnergy : string;
  p_energyLoss : string;
  p_efficiency : string
}.

Record Bucket := {
  bx : Q;
  by_ : Q;
  bwidth : Q;
  bheight : Q;
  isHit : bool
}.

(** ** Constants *)

Definition BALL_RADIUS : Q := 15.
Definition BALL_MASS : Q := 1.
Definition GRAVITY : Q := 3 # 10.
Definition GROUND_Y : Q := 650.
Definition TOLERANCE_PERCENTAGE : Q := 10.
Definition BUCKET_WIDTH : Q := 80.
Definition BUCKET_HEIGHT : Q := 60.

(** ** Bucket containment *)

Definition checkBucketHit (bucket : option Bucket) (ballX ballY : Q) : bool :=
  match bucket with
  | None => false
  | Some b =>
      let ballBottom := ballY + BALL_RADIUS in
      let bucketLeft := bx b - bwidth b / 2 in
      let bucketRight := bx b + bwidth b / 2 in
      let bucketTop := by_ b - bheight b in
      Qgeb ballX bucketLeft && Qle_bool ballX bucketRight
      && Qgeb ballBottom bucketTop && Qle_bool ballBottom (by_ b)
  end.

(** ** Energy tracker

    [initialEnergyRef] is the current content of the mutable ref the source
    reads. *)

Definition calculateEnergy (initialEnergyRef : Q) (velocityX velocityY ballY : Q)
  : EnergyData :=
  let velocitySquared := velocityX * velocityX + velocityY * velocityY in
  let kinetic := (1 # 2) * BALL_MASS * velocitySquared in
  let height := GROUND_Y - ballY in
  let potential := BALL_MASS * GRAVITY * height in
  let total := kinetic + potential in
  let loss := initialEnergyRef - total in
  {| kineticEnergy := kinetic;
     potentialEnergy := potential;
     totalEnergy := total;
     energyLoss := loss |}.

(** ** Geometry resolver *)

(** The consecutive pairs [(points[i], points[i+1])], [i < length - 1]. *)
Fixpoint pairs (l : list Point) : list (Point * Point) :=
  match l with
  | [] => []
  | p1 :: tl =>
      match tl with
      | [] => []
      | p2 :: _ => (p1, p2) :: pairs tl
      end
  end.

(** The body of the inner loop: the point pushed at step [t] of [steps]. *)
Definition lerp (p1 p2 : Point) (steps t : nat) : Point :=
  let ratio := inject_Z (Z.of_nat t) / inject_Z (Z.of_nat steps) in
  {| px := px p1 + (px p2 - px p1) * ratio;
     py := py p1 + (py p2 - py p1) * ratio |}.

(** [for (t = 0; t <= steps; t++) points.push(...)]. *)
Definition subdivide (p1 p2 : Point) (steps : nat) : list Point :=
  map (lerp p1 p2 steps) (seq 0 (S steps)).

(** [Math.max(Math.floor(Math.hypot(dx, dy) / 5), 1)].  The square root is
    not rational; for real [d >= 0], [floor (sqrt d / 5)] is the integer
    square root of [floor (d / 25)], which is what is computed.  Where the
    distance is within rounding of a multiple of 5 the doubles of the
    source can give one step fewer. *)
Definition line_steps (p1 p2 : Point) : nat :=
  let dx := px p2 - px p1 in
  let dy := py p2 - py p1 in
  let d2 := dx * dx + dy * dy in
  Z.to_nat (Z.max (Z.sqrt (Qfloor (d2 / 25))) 1).

Definition CURVE_STEPS : nat := 30.

Definition segmentPoints (segment : PathSegment) : list Point :=
  match seg_type segment with
  | line =>
      flat_map (fun pr => subdivide (fst pr) (snd pr) (line_steps (fst pr) (snd pr)))
               (pairs (seg_points segment))
  | curve =>
      flat_map (fun pr => subdivide (fst pr) (snd pr) CURVE_STEPS)
               (pairs (seg_points segment))
  end.

Definition getPathPoints (path : list PathSegment) : list Point :=
  flat_map segmentPoints path.

(** The closest point of the sub-segment [p1 p2] to the ball. *)
Definition closestOnPair (ballPos p1 p2 : Point) : Point :=
  let A := px ballPos - px p1 in
  let B := py ballPos - py p1 in
  let C := px p2 - px p1 in
  let D := py p2 - py p1 in
  let dot := A * C + B * D in
  let lenSq := C * C + D * D in
  let param := if negb (Qeq_bool lenSq 0) then dot / lenSq else -(1) in
  if Qltb param 0 then {| px := px p1; py := py p1 |}
  else if Qgtb param 1 then {| px := px p2; py := py p2 |}
  else {| px := px p1 + param * C; py := py p1 + param * D |}.

(** [Math.sqrt(dx*dx + dy*dy) < BALL_RADIUS + 3], decided on the squares
    (both sides are non-negative). *)
Definition withinReach (ballPos c : Point) : bool :=
  let dx := px ballPos - px c in
  let dy := py ballPos - py c in
  Qltb (dx * dx + dy * dy) ((BALL_RADIUS + 3) * (BALL_RADIUS + 3)).

Fixpoint firstContact (ballPos : Point) (prs : list (Point * Point)) : option Point :=
  match prs with
  | [] => None
  | (p1, p2) :: rest =>
      let c := closestOnPair ballPos p1 p2 in
      if withinReach ballPos c then Some c else firstContact ballPos rest
  end.

Definition getCollisionPoint (ballPos : Point) (pathPoints : list Point) : option Point :=
  firstContact ballPos (pairs pathPoints).

(** ** Numbers of the scorer: rationals with the IEEE special values

    [parseFloat] yields [NaN] on text that is no number, and the efficiency
    divides by the initial energy, so the scorer works on [number].  The
    tables below are the IEEE rules for the special values (a zero divisor
    is taken as [+0]). *)

Inductive number := Fin (q : Q) | PInf | NInf | NaN.

Definition inf_of (negative : bool) : number := if negative then NInf else PInf.

Definition nsub (a b : number) : number :=
  match a, b with
  | NaN, _ | _, NaN => NaN
  | Fin x, Fin y => Fin (x - y)
  | PInf, PInf | NInf, NInf => NaN
  | PInf, _ | _, NInf => PInf
  | NInf, _ | _, PInf => NInf
  end.

Definition nmul (a b : number) : number :=
  match a, b with
  | NaN, _ | _, NaN => NaN
  | Fin x, Fin y => Fin (x * y)
  | PInf, Fin y | Fin y, PInf =>
      if Qeq_bool y 0 then NaN else inf_of (Qltb y 0)
  | NInf, Fin y | Fin y, NInf =>
      if Qeq_bool y 0 then NaN else inf_of (Qltb 0 y)
  | PInf, PInf | NInf, NInf => PInf
  | PInf, NInf | NInf, PInf => NInf
  end.

Definition ndiv (a b : number) : number :=
  match a, b with
  | NaN, _ | _, NaN => NaN
  | Fin x, Fin y =>
      if Qeq_bool y 0
      then (if Qeq_bool x 0 then NaN else inf_of (Qltb x 0))
      else Fin (x / y)
  | Fin _, _ => Fin 0
  | PInf, Fin y => inf_of (Qltb y 0)
  | NInf, Fin y => inf_of (negb (Qltb y 0))
  | _, _ => NaN
  end.

Definition nabs (a : number) : number :=
  match a with
  | Fin x => Fin (Qabs x)
  | PInf | NInf => PInf
  | NaN => NaN
  end.

(** [a < b], [a <= b] and [a === b]; every comparison with [NaN] is false. *)
Definition nltb (a b : number) : bool :=
  match a, b with
  | NaN, _ | _, NaN => false
  | Fin x, Fin y => Qltb x y
  | NInf, NInf | PInf, _ => false
  | NInf, _ | _, PInf => true
  | Fin _, NInf => false
  end.

Definition neqb (a b : number) : bool :=
  match a, b with
  | Fin x, Fin y => Qeq_bool x y
  | PInf, PInf | NInf, NInf => true
  | _, _ => false
  end.

Definition nleb (a b : number) : bool := nltb a b || neqb a b.

(** [Math.max(a, b)]. *)
Definition nmax (a b : number) : number :=
  match a, b with
  | NaN, _ | _, NaN => NaN
  | _, _ => if nltb a b then b else a
  end.

(** ** [parseFloat] on ASCII text

    Leading white space is skipped and the longest prefix that is a decimal
    literal is read: an optional sign, then [Infinity], or digits with an
    optional fraction and an optional exponent.  No such prefix gives
    [NaN].  A literal too large for a double gives an infinity; below that
    the value is the exact decimal, where the source has the nearest
    double. *)

Local Open Scope Z_scope.

Definition isWhite (c : ascii) : bool :=
  let n := Z.of_nat (nat_of_ascii c) in
  ((9 <=? n) && (n <=? 13)) || (n =? 32).

Fixpoint trimStart (s : string) : string :=
  match s with
  | EmptyString => s
  | String c r => if isWhite c then trimStart r else s
  end.

Definition digitOf (c : ascii) : option Z :=
  let n := Z.of_nat (nat_of_ascii c) in
  if (48 <=? n) && (n <=? 57) then Some (n - 48) else None.

(** Reads a run of digits onto the accumulator; returns the value, the
    number of digits read and the rest of the text. *)
Fixpoint takeDigits (s : string) (acc : Z) (count : nat) : Z * nat * string :=
  match s with
  | EmptyString => (acc, count, s)
  | String c r =>
      match digitOf c with
      | Some d => takeDigits r (10 * acc + d) (S count)
      | None => (acc, count, s)
      end
  end.

Definition takeSign (s : string) : bool * string :=
  match s with
  | String "-"%char r => (true, r)
  | String "+"%char r => (false, r)
  | _ => (false, s)
  end.

(** The exponent part, when one is well formed; [0] otherwise. *)
Definition takeExponent (s : string) : Z :=
  match s with
  | String c r =>
      if (Ascii.eqb c "e" || Ascii.eqb c "E")%bool then
        let '(negative, r1) := takeSign r in
        let '(e, n, _) := takeDigits r1 0 O in
        match n with
        | O => 0
        | S _ => if negative then - e else e
        end
      else 0
  | EmptyString => 0
  end.

(** [mantissa * 10 ^ k] as a rational. *)
Definition scale10 (mantissa k : Z) : Q :=
  if 0 <=? k then inject_Z (mantissa * 10 ^ k)
  else Qmake mantissa (Z.to_pos (10 ^ (- k))).

(** The text behind a decimal point, when the text starts with one. *)
Definition afterPoint (s : string) : option string :=
  match s with
  | String "."%char r => Some r
  | _ => None
  end.

(** The magnitudes from [2^1024 - 2^970] on round to an infinity. *)
Definition DOUBLE_OVERFLOW : Q := inject_Z (2 ^ 1024 - 2 ^ 970).

(** The literal behind the sign. *)
Definition parseUnsigned (negative : bool) (s : string) : number :=
  if String.prefix "Infinity" s then inf_of negative
  else
    let '(ip, ni, r1) := takeDigits s 0 O in
    let '(mantissa, nf, r2) :=
      match afterPoint r1 with
      | Some r => takeDigits r ip O
      | None => (ip, O, r1)
      end in
    match (ni + nf)%nat with
    | O => NaN
    | S _ =>
        let q := scale10 mantissa (takeExponent r2 - Z.of_nat nf) in
        if Qle_bool DOUBLE_OVERFLOW q then inf_of negative
        else Fin (if negative then Qopp q else q)
    end.

Definition parseFloat (text : string) : number :=
  let '(negative, s) := takeSign (trimStart text) in
  parseUnsigned negative s.

(** ** The value of a number input

    The four prediction fields are [<input type="number">] elements.  The
    value such an element reports is the typed text when that text is a
    valid floating-point number of the HTML standard (an optional [-],
    digits with an optional fraction or a fraction alone, an optional
    exponent, and nothing else) and the empty string otherwise. *)

Definition dropMinus (s : string) : string :=
  match s with
  | String "-"%char r => r
  | _ => s
  end.

(** Nothing is left, or an exponent with at least one digit and nothing
    behind it. *)
Definition exponentOrEnd (s : string) : bool :=
  match s with
  | EmptyString => true
  | String c r =>
      (Ascii.eqb c "e" || Ascii.eqb c "E")%bool
      && let '(_, r1) := takeSign r in
         let '(_, n, rest) := takeDigits r1 0 O in
         (Nat.leb 1 n && match rest with EmptyString => true | String _ _ => false end)%bool
  end.

(** Digits with an optional fraction, or a fraction alone, then
    [exponentOrEnd]; a point is always followed by a digit. *)
Definition unsignedFloat (s : string) : bool :=
  let '(ip, ni, r1) := takeDigits s 0 O in
  match afterPoint r1 with
  | Some r =>
      let '(_, nf, r2) := takeDigits r ip O in (Nat.leb 1 nf && exponentOrEnd r2)%bool
  | None => (Nat.leb 1 ni && exponentOrEnd r1)%bool
  end.

Definition validFloatingPointNumber (s : string) : bool := unsignedFloat (dropMinus s).

Definition numberInputValue (typed : string) : string :=
  if validFloatingPointNumber typed then typed else EmptyString.

Local Close Scope Z_scope.

(** ** Prediction scorer *)

Record PredictionResult := {
  metric : string;
  predicted : number;
  actual : number;
  isCorrect : bool;
  accuracy : number
}.

Definition calculatePredictionAccuracy (predicted actual : number) : number :=
  if neqb actual (Fin 0) then (if neqb predicted (Fin 0) then Fin 100 else Fin 0)
  else nmax (Fin 0)
            (nsub (Fin 100) (nmul (nabs (ndiv (nsub predicted actual) actual)) (Fin 100))).

Definition isPredictionCorrect (predicted actual : number) : bool :=
  if neqb actual (Fin 0) then nltb (nabs predicted) (Fin (1 # 10))
  else nleb (nmul (nabs (ndiv (nsub predicted actual) actual)) (Fin 100))
            (Fin TOLERANCE_PERCENTAGE).

(** A string is truthy when it is not empty. *)
Definition truthy (s : string) : bool :=
  match s with
  | EmptyString => false
  | String _ _ => true
  end.

(** One [if (predictions.m) { ... results.push(...) }] block. *)
Definition scoreEntry (name text : string) (actualValue : number)
  : list PredictionResult :=
  if truthy text then
    let predictedValue := parseFloat text in
    [ {| metric := name;
         predicted := predictedValue;
         actual := actualValue;
         isCorrect := isPredictionCorrect predictedValue actualValue;
         accuracy := calculatePredictionAccuracy predictedValue actualValue |} ]
  else [].

(** The [results] array built by [evaluatePredictions]. *)
Definition predictionResultsOf (initialEnergyRef : Q) (predictions : PredictionData)
    (final : EnergyData) : list PredictionResult :=
  let initialEnergy := Fin initialEnergyRef in
  let efficiency :=
    nmul (ndiv (nsub initialEnergy (Fin (energyLoss final))) initialEnergy) (Fin 100) in
  scoreEntry "Initial Total Energy" (p_initialTotalEnergy predictions) initialEnergy
  ++ scoreEntry "Final Total Energy" (p_finalTotalEnergy predictions)
                (Fin (totalEnergy final))
  ++ scoreEntry "Energy Loss" (p_energyLoss predictions) (Fin (energyLoss final))
  ++ scoreEntry "Efficiency" (p_efficiency predictions) efficiency.

(** ** State of the component

    [Inputs] is what the closures of one render capture and only read during
    a run; [View] is the React state and the ref a run writes; [Ball] holds
    the local variables of [runSimulation] that [animate] mutates. *)

Record Canvas := { cwidth : Q; cheight : Q; has2d : bool }.

Inductive SpeedMode := combined | separate.

Record Inputs := {
  path : list PathSegment;
  friction : Q;
  initialVelocity : Q;
  horizontalSpeed : Q;
  verticalSpeed : Q;
  speedControlMode : SpeedMode;
  bucket : option Bucket;
  predictions : PredictionData;
  renderedEnergy : EnergyData
}.

Record View := {
  isAnimating : bool;
  energyData : EnergyData;
  finalEnergyData : option EnergyData;
  predictionResults : list PredictionResult;
  showResultsModal : bool;
  showBucketResult : bool;
  bucketHit : bool;
  bucketState : option Bucket;
  initialEnergyRef : Q
}.

Record Ball := {
  ballX : Q;
  ballY : Q;
  velocityX : Q;
  velocityY : Q;
  onGround : bool;
  ballInBucket : bool
}.

Record Run := { view : View; ball : Ball }.

(** *** State setters *)

Definition setIsAnimating (b : bool) (v : View) : View :=
  {| isAnimating := b; energyData := energyData v;
     finalEnergyData := finalEnergyData v; predictionResults := predictionResults v;
     showResultsModal := showResultsModal v; showBucketResult := showBucketResult v;
     bucketHit := bucketHit v; bucketState := bucketState v;
     initialEnergyRef := initialEnergyRef v |}.

Definition setEnergyData (e : EnergyData) (v : View) : View :=
  {| isAnimating := isAnimating v; energyData := e;
     finalEnergyData := finalEnergyData v; predictionResults := predictionResults v;
     showResultsModal := showResultsModal v; showBucketResult := showBucketResult v;
     bucketHit := bucketHit v; bucketState := bucketState v;
     initialEnergyRef := initialEnergyRef v |}.

Definition setFinalEnergyData (e : option EnergyData) (v : View) : View :=
  {| isAnimating := isAnimating v; energyData := energyData v;
     finalEnergyData := e; predictionResults := predictionResults v;
     showResultsModal := showResultsModal v; showBucketResult := showBucketResult v;
     bucketHit := bucketHit v; bucketState := bucketState v;
     initialEnergyRef := initialEnergyRef v |}.

Definition setPredictionResults (r : list PredictionResult) (v : View) : View :=
  {| isAnimating := isAnimating v; energyData := energyData v;
     finalEnergyData := finalEnergyData v; predictionResults := r;
     showResultsModal := showResultsModal v; showBucketResult := showBucketResult v;
     bucketHit := bucketHit v; bucketState := bucketState v;
     initialEnergyRef := initialEnergyRef v |}.

Definition setShowResultsModal (b : bool) (v : View) : View :=
  {| isAnimating := isAnimating v; energyData := energyData v;
     finalEnergyData := finalEnergyData v; predictionResults := predictionResults v;
     showResultsModal := b; showBucketResult := showBucketResult v;
     bucketHit := bucketHit v; bucketState := bucketState v;
     initialEnergyRef := initialEnergyRef v |}.

Definition setShowBucketResult (b : bool) (v : View) : View :=
  {| isAnimating := isAnimating v; energyData := energyData v;
     finalEnergyData := finalEnergyData v; predictionResults := predictionResults v;
     showResultsModal := showResultsModal v; showBucketResult := b;
     bucketHit := bucketHit v; bucketState := bucketState v;
     initialEnergyRef := initialEnergyRef v |}.

Definition setBucketHit (b : bool) (v : View) : View :=
  {| isAnimating := isAnimating v; energyData := energyData v;
     finalEnergyData := finalEnergyData v; predictionResults := predictionResults v;
     showResultsModal := showResultsModal v; showBucketResult := showBucketResult v;
     bucketHit := b; bucketState := bucketState v;
     initialEnergyRef := initialEnergyRef v |}.

(** [setBucket(prev => prev ? { ...prev, isHit: hit } : null)]. *)
Definition markBucket (hit : bool) (v : View) : View :=
  {| isAnimating := isAnimating v; energyData := energyData v;
     finalEnergyData := finalEnergyData v; predictionResults := predictionResults v;
     showResultsModal := showResultsModal v; showBucketResult := showBucketResult v;
     bucketHit := bucketHit v;
     bucketState :=
       match bucketState v with
       | Some b => Some {| bx := bx b; by_ := by_ b; bwidth := bwidth b;
                           bheight := bheight b; isHit := hit |}
       | None => None
       end;
     initialEnergyRef := initialEnergyRef v |}.

Definition setInitialEnergyRef (q : Q) (v : View) : View :=
  {| isAnimating := isAnimating v; energyData := energyData v;
     finalEnergyData := finalEnergyData v; predictionResults := predictionResults v;
     showResultsModal := showResultsModal v; showBucketResult := showBucketResult v;
     bucketHit := bucketHit v; bucketState := bucketState v;
     initialEnergyRef := q |}.

(** ** [evaluatePredictions] with its state updates *)

Definition evaluatePredictions (inp : Inputs) (final : EnergyData) (v : View) : View :=
  let results := predictionResultsOf (initialEnergyRef v) (predictions inp) final in
  let v1 := setPredictionResults results v in
  match results with
  | [] => v1
  | _ :: _ => setShowResultsModal true v1
  end.

(** ** The contact model, one rule per block of [animate] *)

(** [velocityY += GRAVITY; ballX += velocityX; ballY += velocityY]. *)
Definition integrate (b : Ball) : Ball :=
  let vy := velocityY b + GRAVITY in
  {| ballX := ballX b + velocityX b;
     ballY := ballY b + vy;
     velocityX := velocityX b;
     velocityY := vy;
     onGround := onGround b;
     ballInBucket := ballInBucket b |}.

(** [if (bucket && !ballInBucket) { ... }]. *)
Definition bucketRule (inp : Inputs) (r : Run) : Run :=
  let b := ball r in
  match bucket inp with
  | Some bk =>
      if negb (ballInBucket b) then
        if checkBucketHit (bucket inp) (ballX b) (ballY b) then
          let bucketTop := by_ bk - bheight bk in
          {| view := setShowBucketResult true (markBucket true (setBucketHit true (view r)));
             ball := {| ballX := ballX b;
                        ballY := bucketTop - BALL_RADIUS;
                        velocityX := 0;
                        velocityY := 0;
                        onGround := true;
                        ballInBucket := true |} |}
        else
          {| view := view r;
             ball := {| ballX := ballX b; ballY := ballY b;
                        velocityX := velocityX b; velocityY := velocityY b;
                        onGround := onGround b; ballInBucket := false |} |}
      else r
  | None => r
  end.

(** [if (!ballInBucket && ballY + BALL_RADIUS >= GROUND_Y) { ... }]. *)
Definition groundTriggered (b : Ball) : bool :=
  negb (ballInBucket b) && Qgeb (ballY b + BALL_RADIUS) GROUND_Y.

Definition groundRule (inp : Inputs) (r : Run) : Run :=
  let b := ball r in
  if groundTriggered b then
    {| view := match bucket inp with
               | Some _ => setShowBucketResult true (view r)
               | None => view r
               end;
       ball := {| ballX := ballX b;
                  ballY := GROUND_Y - BALL_RADIUS;
                  velocityX := velocityX b * friction inp;
                  velocityY := 0;
                  onGround := true;
                  ballInBucket := ballInBucket b |} |}
  else r.

(** The scan for the sampled point nearest to the ball.  [minDist] starts
    at [Infinity] ([None]); distances are compared through their squares. *)
Fixpoint nearestFrom (pts : list Point) (i : nat) (x y : Q)
    (minDist : option Q) (nearestIdx : nat) : nat :=
  match pts with
  | [] => nearestIdx
  | p :: rest =>
      let dx := px p - x in
      let dy := py p - y in
      let dist := dx * dx + dy * dy in
      let closer := match minDist with
                    | None => true
                    | Some m => Qltb dist m
                    end in
      if closer then nearestFrom rest (S i) x y (Some dist) i
      else nearestFrom rest (S i) x y minDist nearestIdx
  end.

Definition nearestIndex (pathPoints : list Point) (x y : Q) : nat :=
  nearestFrom pathPoints 0 x y None 0.

(** The slope nudge: [if (nearestIdx < pathPoints.length - 1 && onGround)]. *)
Definition slopeNudge (pathPoints : list Point) (b : Ball) : Ball :=
  let nearestIdx := nearestIndex pathPoints (ballX b) (ballY b) in
  if (S nearestIdx <? List.length pathPoints)%nat && onGround b then
    match nth_error pathPoints (S nearestIdx), nth_error pathPoints nearestIdx with
    | Some next, Some current =>
        let dx := px next - px current in
        if negb (Qeq_bool dx 0) then
          let slope := (py next - py current) / dx in
          {| ballX := ballX b; ballY := ballY b;
             velocityX := velocityX b + slope * 1;
             velocityY := velocityY b;
             onGround := onGround b; ballInBucket := ballInBucket b |}
        else b
    | _, _ => b
    end
  else b.

(** [if (!ballInBucket) { const collision = getCollisionPoint(...); ... }]. *)
Definition pathRule (pathPoints : list Point) (b : Ball) : Ball :=
  if negb (ballInBucket b) then
    match getCollisionPoint {| px := ballX b; py := ballY b |} pathPoints with
    | Some collision =>
        let targetY := py collision - BALL_RADIUS in
        let b1 :=
          if Qgtb (ballY b) targetY then
            {| ballX := ballX b; ballY := targetY;
               velocityX := velocityX b; velocityY := 0;
               onGround := true; ballInBucket := ballInBucket b |}
          else b in
        slopeNudge pathPoints b1
    | None =>
        {| ballX := ballX b; ballY := ballY b;
           velocityX := velocityX b; velocityY := velocityY b;
           onGround := false; ballInBucket := ballInBucket b |}
    end
  else b.

(** [if (!ballInBucket) velocityX *= friction]. *)
Definition frictionRule (inp : Inputs) (b : Ball) : Ball :=
  if negb (ballInBucket b) then
    {| ballX := ballX b; ballY := ballY b;
       velocityX := velocityX b * friction inp;
       velocityY := velocityY b;
       onGround := onGround b; ballInBucket := ballInBucket b |}
  else b.

(** The ball once all contact rules and the friction of a frame have run. *)
Definition contacts (inp : Inputs) (pathPoints : list Point) (r : Run) : Run :=
  let r1 := bucketRule inp r in
  let r2 := groundRule inp r1 in
  {| view := view r2;
     ball := frictionRule inp (pathRule pathPoints (ball r2)) |}.

(** [Math.abs(velocityX) < 0.1 && Math.abs(velocityY) < 0.1]. *)
Definition stopped (b : Ball) : bool :=
  Qltb (Qabs (velocityX b)) (1 # 10) && Qltb (Qabs (velocityY b)) (1 # 10).

Definition halt (b : Ball) : Ball :=
  {| ballX := ballX b; ballY := ballY b;
     velocityX := 0; velocityY := 0;
     onGround := onGround b; ballInBucket := ballInBucket b |}.

(** ** One frame *)

(** How an invocation of [animate] ends: without a drawing context it
    returns at once; a non-finite position aborts the run; a stopped ball
    settles it; otherwise the next frame is requested.  Painting
    ([drawCanvas]) changes no state and is left out. *)
Inductive Status := NoContext | Aborted | Settled | Scheduled.

Definition animate (canvas : Canvas) (inp : Inputs) (pathPoints : list Point)
    (r : Run) : Status * Run :=
  if negb (has2d canvas) then (NoContext, r)
  else
    let b1 := integrate (ball r) in
    if negb (isFinite (ballX b1)) || negb (isFinite (ballY b1)) then
      let final := renderedEnergy inp in
      (Aborted,
       {| view := evaluatePredictions inp final
                    (setFinalEnergyData (Some final) (setIsAnimating false (view r)));
          ball := b1 |})
    else
      let r2 := contacts inp pathPoints {| view := view r; ball := b1 |} in
      if stopped (ball r2) then
        let b3 := halt (ball r2) in
        let finalEnergy :=
          calculateEnergy (initialEnergyRef (view r2))
                          (velocityX b3) (velocityY b3) (ballY b3) in
        (Settled,
         {| view := setIsAnimating false
                      (evaluatePredictions inp finalEnergy
                         (setFinalEnergyData (Some finalEnergy)
                            (setEnergyData finalEnergy (view r2))));
            ball := b3 |})
      else
        let currentEnergy :=
          calculateEnergy (initialEnergyRef (view r2))
                          (velocityX (ball r2)) (velocityY (ball r2)) (ballY (ball r2)) in
        (Scheduled,
         {| view := setEnergyData currentEnergy (view r2); ball := ball r2 |}).

(** ** Starting a run *)

(** Everything [runSimulation] does between its two guards and the first
    call of [animate]: the state resets, the sampling of the path, the
    initial ball and the initial energy stored in the ref. *)
Definition startRun (canvas : Canvas) (inp : Inputs) (v : View) : list Point * Run :=
  let v1 :=
    setBucketHit false
      (setShowBucketResult false
         (setShowResultsModal false
            (setPredictionResults []
               (setFinalEnergyData None (setIsAnimating true v))))) in
  let v2 := match bucket inp with
            | Some _ => markBucket false v1
            | None => v1
            end in
  let pathPoints := getPathPoints (path inp) in
  (* [pathPoints[0]?.x || canvas.width / 2]: a missing point and [0] are falsy *)
  let x0 := match pathPoints with
            | p :: _ => if Qeq_bool (px p) 0 then cwidth canvas / 2 else px p
            | [] => cwidth canvas / 2
            end in
  let y0 := 50 in
  let vx0 := match speedControlMode inp with
             | separate => horizontalSpeed inp
             | combined => initialVelocity inp
             end in
  let vy0 := match speedControlMode inp with
             | separate => verticalSpeed inp
             | combined => 0
             end in
  let initialEnergy := calculateEnergy (initialEnergyRef v2) vx0 vy0 y0 in
  (pathPoints,
   {| view := setInitialEnergyRef (totalEnergy initialEnergy) v2;
      ball := {| ballX := x0; ballY := y0;
                 velocityX := vx0; velocityY := vy0;
                 onGround := false; ballInBucket := false |} |}).

(** A refused start leaves the state as it was and runs no frame; a
    launched run has sampled the path and run its first frame. *)
Inductive Launch :=
| Refused (v : View)
| Launched (pathPoints : list Point) (st : Status) (r : Run).

Definition runSimulation (canvasRef : option Canvas) (inp : Inputs) (v : View) : Launch :=
  match path inp with
  | [] => Refused v
  | _ :: _ =>
      match canvasRef with
      | None => Refused v
      | Some canvas =>
          let (pathPoints, r0) := startRun canvas inp v in
          let (st, r1) := animate canvas inp pathPoints r0 in
          Launched pathPoints st r1
      end
  end.

(** [requestAnimationFrame(animate)]: the scheduler calls [animate] again
    exactly when the previous frame requested it; [frames n] lets it serve
    up to [n] requests. *)
Fixpoint frames (n : nat) (canvas : Canvas) (inp : Inputs) (pathPoints : list Point)
    (sr : Status * Run) : Status * Run :=
  match n with
  | O => sr
  | S k =>
      match fst sr with
      | Scheduled => frames k canvas inp pathPoints (animate canvas inp pathPoints (snd sr))
      | _ => sr
      end
  end.

(** ** Authoring the path *)

Record Editor := {
  ed_path : list PathSegment;
  currentPoints : list Point;
  drawMode : SegType
}.

Definition completeSegment (e : Editor) : Editor :=
  if (2 <=? List.length (currentPoints e))%nat then
    {| ed_path := ed_path e ++ [ {| seg_type := drawMode e;
                                    seg_points := currentPoints e |} ];
       currentPoints := [];
       drawMode := drawMode e |}
  else e.

(** ** Vocabulary of the properties *)

(** [isNum n q]: the number [n] is finite and equals the rational [q]. *)
Definition isNum (n : number) (q : Q) : Prop :=
  match n with
  | Fin x => x == q
  | _ => False
  end.

(** Points are compared coordinate by coordinate, as rationals. *)
Definition samePoint (p q : Point) : Prop := px p == px q /\ py p == py q.



(** Kinetic plus potential energy of a ball. *)
Definition mechanicalEnergy (b : Ball) : Q :=
  totalEnergy (calculateEnergy 0 (velocityX b) (velocityY b) (ballY b)).

(** The frame that starts from ball [b] is contact free: the ball has not
    been captured and, at its integrated position, neither the bucket test
    nor the ground test succeeds and the path scan finds no contact. *)
Definition contactFree (inp : Inputs) (pathPoints : list Point) (b : Ball) : bool :=
  let b1 := integrate b in
  negb (ballInBucket b)
  && negb (checkBucketHit (bucket inp) (ballX b1) (ballY b1))
  && negb (groundTriggered b1)
  && match getCollisionPoint {| px := ballX b1; py := ballY b1 |} pathPoints with
     | None => true
     | Some _ => false
     end.

(** [n] consecutive frames, each contact free and each requesting the
    next one. *)
Fixpoint fallFrames (n : nat) (canvas : Canvas) (inp : Inputs) (pathPoints : list Point)
    (r : Run) : option Run :=
  match n with
  | O => Some r
  | S k =>
      if contactFree inp pathPoints (ball r) then
        match animate canvas inp pathPoints r with
        | (Scheduled, r1) => fallFrames k canvas inp pathPoints r1
        | _ => None
        end
      else None
  end.

(** The ground rule fires in the frame that starts from [r]. *)
Definition groundContact (inp : Inputs) (r : Run) : bool :=
  groundTriggered (ball (bucketRule inp {| view := view r; ball := integrate (ball r) |})).

(** The bucket test succeeds in the frame that starts from [r]. *)
Definition bucketContact (inp : Inputs) (r : Run) : bool :=
  negb (ballInBucket (ball r))
  && checkBucketHit (bucket inp) (ballX (integrate (ball r))) (ballY (integrate (ball r))).

(** The table [evaluatePredictions] walks: metric name, entered text and
    actual value, in the order of its four blocks. *)
Definition metricTable (initialEnergyRef : Q) (predictions : PredictionData)
    (final : EnergyData) : list (string * string * number) :=
  let initialEnergy := Fin initialEnergyRef in
  [ ("Initial Total Energy"%string, p_initialTotalEnergy predictions, initialEnergy);
    ("Final Total Energy"%string, p_finalTotalEnergy predictions, Fin (totalEnergy final));
    ("Energy Loss"%string, p_energyLoss predictions, Fin (energyLoss final));
    ("Efficiency"%string, p_efficiency predictions,
     nmul (ndiv (nsub initialEnergy (Fin (energyLoss final))) initialEnergy) (Fin 100)) ].

(** A sealed segment is well formed when it has at least two points. *)
Definition wellFormed (segment : PathSegment) : Prop :=
  (2 <= List.length (seg_points segment))%nat.

(** ** Sample configurations *)

Definition pt (x y : Q) : Point := {| px := x; py := y |}.

Definition zeroEnergy : EnergyData :=
  {| kineticEnergy := 0; potentialEnergy := 0; totalEnergy := 0; energyLoss := 0 |}.

Definition noPredictions : PredictionData :=
  {| p_initialTotalEnergy := EmptyString; p_finalTotalEnergy := EmptyString;
     p_energyLoss := EmptyString; p_efficiency := EmptyString |}.

Definition idleView : View :=
  {| isAnimating := false; energyData := zeroEnergy; finalEnergyData := None;
     predictionResults := []; showResultsModal := false; showBucketResult := false;
     bucketHit := false; bucketState := None; initialEnergyRef := 0 |}.

Definition demoCanvas : Canvas := {| cwidth := 800; cheight := 700; has2d := true |}.

(** Combined speed mode at speed 2, on the given path, friction, bucket and
    predictions. *)
Definition demoInputs (pth : list PathSegment) (fr : Q) (bk : option Bucket)
    (preds : PredictionData) : Inputs :=
  {| path := pth; friction := fr; initialVelocity := 2;
     horizontalSpeed := 2; verticalSpeed := 0; speedControlMode := combined;
     bucket := bk; predictions := preds; renderedEnergy := zeroEnergy |}.

(** A path whose only segment has a single point; the editor never builds
    one. *)
Definition onePointPath : list PathSegment :=
  [ {| seg_type := line; seg_points := [pt 100 100] |} ].

(** A short ledge far below the start of the ball. *)
Definition ledgePath : list PathSegment :=
  [ {| seg_type := line; seg_points := [pt 100 600; pt 200 600] |} ].

(** A bucket as [handleCanvasClick] places it, centred at [x = 300]. *)
Definition demoBucket : Bucket :=
  {| bx := 300; by_ := GROUND_Y; bwidth := BUCKET_WIDTH; bheight := BUCKET_HEIGHT;
     isHit := false |}.

(** Predictions whose energy-loss entry is text that is no number; the
    fields of the page never report such an entry. *)
Definition garbledPredictions : PredictionData :=
  {| p_initialTotalEnergy := EmptyString; p_finalTotalEnergy := EmptyString;
     p_energyLoss := "abc"; p_efficiency := EmptyString |}.

Definition restingBall (x y vx vy : Q) : Ball :=
  {| ballX := x; ballY := y; velocityX := vx; velocityY := vy;
     onGround := false; ballInBucket := false |}.

(** A run in progress with the given ball, started with 182 units of
    energy. *)
Definition runOf (b : Ball) : Run :=
  {| view := setInitialEnergyRef 182 (setIsAnimating true idleView); ball := b |}.


Definition ledgeInputs : Inputs := demoInputs ledgePath (98 # 100) None noPredictions.

Definition bucketInputs : Inputs :=
  demoInputs ledgePath (98 # 100) (Some demoBucket) noPredictions.

Definition capturedBall : Ball :=
  {| ballX := 300; ballY := 575; velocityX := 0; velocityY := 0;
     onGround := true; ballInBucket := true |}.

(** ** Vocabulary of the further properties *)

(** The square of the distance between two points. *)
Definition sqDist (p q : Point) : Q :=
  (px p - px q) * (px p - px q) + (py p - py q) * (py p - py q).

(** The point of the line through [p1] and [p2] at parameter [t]. *)
Definition pointAt (p1 p2 : Point) (t : Q) : Point :=
  {| px := px p1 + t * (px p2 - px p1); py := py p1 + t * (py p2 - py p1) |}.

(** Predictions whose only entry is an efficiency of 50 percent. *)
Definition efficiencyPredictions : PredictionData :=
  {| p_initialTotalEnergy := EmptyString; p_finalTotalEnergy := EmptyString;
     p_energyLoss := EmptyString; p_efficiency := "50" |}.

Definition efficiencyInputs : Inputs :=
  demoInputs ledgePath (98 # 100) None efficiencyPredictions.

(** The squared distance from a sample to the ball at [(x, y)], as the scan
    for the nearest sample computes it. *)
Definition distTo (x y : Q) (p : Point) : Q := sqDist p {| px := x; py := y |}.

(** What the scan for the nearest sample knows after the points [done]:
    nothing yet, or the smallest distance so far and the first index that
    attains it. *)
Definition scanned (x y : Q) (done : list Point) (minDist : option Q) (idx : nat) : Prop :=
  match minDist with
  | None => done = []
  | Some m =>
      exists p, nth_error done idx = Some p /\ m = distTo x y p
                /\ (forall j q, nth_error done j = Some q -> m <= distTo x y q)
                /\ (forall j q, (j < idx)%nat -> nth_error done j = Some q ->
                                m < distTo x y q)
  end.

(** ** Stopping a run by hand

    [stopSimulation] as the handler of the latest render: it reads the
    current state.  Cancelling the pending frame is the scheduler's part. *)
Definition stopSimulation (inp : Inputs) (v : View) : View :=
  let v1 := setIsAnimating false v in
  match finalEnergyData v with
  | Some final => evaluatePredictions inp final v1
  | None => v1
  end.

(** The ball the path rule of a frame works on: integrated, and past the
    bucket rule and the ground rule. *)
Definition beforePathRule (inp : Inputs) (r : Run) : Ball :=
  ball (groundRule inp (bucketRule inp {| view := view r; ball := integrate (ball r) |})).

(** The bucket [bk] with its hit flag set to [hit]. *)
Definition withHit (hit : bool) (bk : Bucket) : Bucket :=
  {| bx := bx bk; by_ := by_ bk; bwidth := bwidth bk; bheight := bheight bk;
     isHit := hit |}.

(** The two hit flags of the state agree with the latch of the ball. *)
Definition flagsFollowLatch (inp : Inputs) (r : Run) : Prop :=
  bucketHit (view r) = ballInBucket (ball r)
  /\ bucketState (view r) = option_map (withHit (ballInBucket (ball r))) (bucket inp).

(** The idle state of a page on which [demoBucket] has been placed. *)
Definition bucketIdleView : View :=
  {| isAnimating := false; energyData := zeroEnergy; finalEnergyData := None;
     predictionResults := []; showResultsModal := false; showBucketResult := false;
     bucketHit := false; bucketState := Some demoBucket; initialEnergyRef := 0 |}.

(** The state of a run in progress: animating, with no final snapshot and
    no results yet. *)
Definition running (v : View) : Prop :=
  isAnimating v = true /\ finalEnergyData v = None
  /\ predictionResults v = [] /\ showResultsModal v = false.

(** Every sample of the path is at least [BALL_RADIUS + 3] above the centre
    of a ball that rests on the ground line. *)
Definition clearOfGround (pathPoints : list Point) : Prop :=
  Forall (fun q => py q <= GROUND_Y - BALL_RADIUS - (BALL_RADIUS + 3)) pathPoints.

(** A ball at rest on the ground line, not captured. *)
Definition grounded (b : Ball) : Prop :=
  ballY b = GROUND_Y - BALL_RADIUS /\ velocityY b = 0 /\ ballInBucket b = false.

(** The bucket of the run, if any, stands on the ground line. *)
Definition bucketOnGround (inp : Inputs) : Prop :=
  forall bk, bucket inp = Some bk -> by_ bk = GROUND_Y.

(** ** The page and its handlers

    [Page] gathers the React state of the component: the path under
    construction, the state a run writes, the placement mode, the entered
    predictions and the settings of the sliders.  Each handler is the one
    of the latest render, so it reads the current state. *)

Record Settings := {
  s_friction : Q;
  s_initialVelocity : Q;
  s_horizontalSpeed : Q;
  s_verticalSpeed : Q;
  s_speedControlMode : SpeedMode
}.

Record Page := {
  editor : Editor;
  pview : View;
  bucketPlacementMode : bool;
  pagePredictions : PredictionData;
  showPredictions : bool;
  settings : Settings
}.

(** The state of the component when it is mounted. *)
Definition initialPage : Page :=
  {| editor := {| ed_path := []; currentPoints := []; drawMode := line |};
     pview := {| isAnimating := false;
                 energyData := {| kineticEnergy := 0; potentialEnergy := 0;
                                  totalEnergy := 0; energyLoss := 0 |};
                 finalEnergyData := None; predictionResults := [];
                 showResultsModal := false; showBucketResult := false;
                 bucketHit := false; bucketState := None; initialEnergyRef := 0 |};
     bucketPlacementMode := false;
     pagePredictions := {| p_initialTotalEnergy := EmptyString;
                           p_finalTotalEnergy := EmptyString;
                           p_energyLoss := EmptyString;
                           p_efficiency := EmptyString |};
     showPredictions := false;
     settings := {| s_friction := 98 # 100; s_initialVelocity := 2;
                    s_horizontalSpeed := 2; s_verticalSpeed := 0;
                    s_speedControlMode := combined |} |}.

(** What the closures of a render of the page capture. *)
Definition render (p : Page) : Inputs :=
  {| path := ed_path (editor p);
     friction := s_friction (settings p);
     initialVelocity := s_initialVelocity (settings p);
     horizontalSpeed := s_horizontalSpeed (settings p);
     verticalSpeed := s_verticalSpeed (settings p);
     speedControlMode := s_speedControlMode (settings p);
     bucket := bucketState (pview p);
     predictions := pagePredictions p;
     renderedEnergy := energyData (pview p) |}.

Definition setBucket (b : option Bucket) (v : View) : View :=
  {| isAnimating := isAnimating v; energyData := energyData v;
     finalEnergyData := finalEnergyData v; predictionResults := predictionResults v;
     showResultsModal := showResultsModal v; showBucketResult := showBucketResult v;
     bucketHit := bucketHit v; bucketState := b;
     initialEnergyRef := initialEnergyRef v |}.

Definition withView (v : View) (p : Page) : Page :=
  {| editor := editor p; pview := v; bucketPlacementMode := bucketPlacementMode p;
     pagePredictions := pagePredictions p; showPredictions := showPredictions p;
     settings := settings p |}.

Definition withEditor (e : Editor) (p : Page) : Page :=
  {| editor := e; pview := pview p; bucketPlacementMode := bucketPlacementMode p;
     pagePredictions := pagePredictions p; showPredictions := showPredictions p;
     settings := settings p |}.

Definition withPlacement (b : bool) (p : Page) : Page :=
  {| editor := editor p; pview := pview p; bucketPlacementMode := b;
     pagePredictions := pagePredictions p; showPredictions := showPredictions p;
     settings := settings p |}.

(** A mouse click and the rectangle the canvas occupies on the screen
    ([getBoundingClientRect]); a rectangle of zero width or height is
    outside the model. *)
Record ClickEvent := { clientX : Q; clientY : Q }.
Record Rect := { rleft : Q; rtop : Q; rwidth : Q; rheight : Q }.

Definition handleCanvasClick (canvasRef : option (Canvas * Rect)) (e : ClickEvent)
    (p : Page) : Page :=
  if isAnimating (pview p) then p
  else
    match canvasRef with
    | None => p
    | Some (canvas, rect) =>
        let scaleX := cwidth canvas / rwidth rect in
        let scaleY := cheight canvas / rheight rect in
        let x := (clientX e - rleft rect) * scaleX in
        let y := (clientY e - rtop rect) * scaleY in
        if bucketPlacementMode p then
          if Qgeb y (GROUND_Y - 20) then
            withPlacement false
              (withView
                 (setBucket (Some {| bx := x; by_ := GROUND_Y; bwidth := BUCKET_WIDTH;
                                     bheight := BUCKET_HEIGHT; isHit := false |})
                            (pview p))
                 p)
          else p
        else
          withEditor {| ed_path := ed_path (editor p);
                        currentPoints := currentPoints (editor p) ++ [ {| px := x; py := y |} ];
                        drawMode := drawMode (editor p) |}
                     p
    end.

Definition completeSegmentOn (p : Page) : Page := withEditor (completeSegment (editor p)) p.

Definition clearAll (p : Page) : Page :=
  {| editor := {| ed_path := []; currentPoints := []; drawMode := drawMode (editor p) |};
     pview :=
       setShowResultsModal false
         (setPredictionResults []
            (setFinalEnergyData None
               (setIsAnimating false
                  (setBucketHit false
                     (setShowBucketResult false (setBucket None (pview p)))))));
     bucketPlacementMode := false;
     pagePredictions := {| p_initialTotalEnergy := EmptyString;
                           p_finalTotalEnergy := EmptyString;
                           p_energyLoss := EmptyString;
                           p_efficiency := EmptyString |};
     showPredictions := false;
     settings := settings p |}.

Definition placeBucket (p : Page) : Page :=
  let v1 := setBucketHit false (setShowBucketResult false (pview p)) in
  withPlacement true
    (withView (match bucketState (pview p) with
               | Some _ => markBucket false v1
               | None => v1
               end) p).

Definition removeBucket (p : Page) : Page :=
  withPlacement false
    (withView (setBucketHit false (setShowBucketResult false (setBucket None (pview p)))) p).

Inductive PredictionField :=
  f_initialTotalEnergy | f_finalTotalEnergy | f_energyLoss | f_efficiency.

Definition handlePredictionChange (field : PredictionField) (value : string) (p : Page)
  : Page :=
  let prev := pagePredictions p in
  {| editor := editor p; pview := pview p;
     bucketPlacementMode := bucketPlacementMode p;
     pagePredictions :=
       match field with
       | f_initialTotalEnergy =>
           {| p_initialTotalEnergy := value;
              p_finalTotalEnergy := p_finalTotalEnergy prev;
              p_energyLoss := p_energyLoss prev; p_efficiency := p_efficiency prev |}
       | f_finalTotalEnergy =>
           {| p_initialTotalEnergy := p_initialTotalEnergy prev;
              p_finalTotalEnergy := value;
              p_energyLoss := p_energyLoss prev; p_efficiency := p_efficiency prev |}
       | f_energyLoss =>
           {| p_initialTotalEnergy := p_initialTotalEnergy prev;
              p_finalTotalEnergy := p_finalTotalEnergy prev;
              p_energyLoss := value; p_efficiency := p_efficiency prev |}
       | f_efficiency =>
           {| p_initialTotalEnergy := p_initialTotalEnergy prev;
              p_finalTotalEnergy := p_finalTotalEnergy prev;
              p_energyLoss := p_energyLoss prev; p_efficiency := value |}
       end;
     showPredictions := showPredictions p;
     settings := settings p |}.

(** [onChange] of a prediction field: the handler is passed
    [e.target.value], the value the number input reports for the typed
    text. *)
Definition typePrediction (field : PredictionField) (typed : string) (p : Page) : Page :=
  handlePredictionChange field (numberInputValue typed) p.

(** The entry of a field and the metric it is scored under. *)
Definition entryOf (field : PredictionField) (predictions : PredictionData) : string :=
  match field with
  | f_initialTotalEnergy => p_initialTotalEnergy predictions
  | f_finalTotalEnergy => p_finalTotalEnergy predictions
  | f_energyLoss => p_energyLoss predictions
  | f_efficiency => p_efficiency predictions
  end.

Definition metricOf (field : PredictionField) : string :=
  match field with
  | f_initialTotalEnergy => "Initial Total Energy"
  | f_finalTotalEnergy => "Final Total Energy"
  | f_energyLoss => "Energy Loss"
  | f_efficiency => "Efficiency"
  end.

(** Predictions as the four fields can hold them: every entry is the value
    of a number input. *)
Definition fromInputs (predictions : PredictionData) : Prop :=
  forall field, exists typed, entryOf field predictions = numberInputValue typed.

Definition closeResultsModal (p : Page) : Page :=
  withView (setShowResultsModal false (pview p)) p.

Definition stopSimulationOn (p : Page) : Page :=
  withView (stopSimulation (render p) (pview p)) p.

(** The run button followed by the frames the scheduler serves before the
    next event: the page holds the state the run has written so far. *)
Definition runOn (canvasRef : option Canvas) (n : nat) (p : Page) : Page :=
  match canvasRef with
  | None => p
  | Some canvas =>
      match runSimulation canvasRef (render p) (pview p) with
      | Refused v => withView v p
      | Launched pathPoints st r =>
          withView (view (snd (frames n canvas (render p) pathPoints (st, r)))) p
      end
  end.

(** The pages the handlers can produce from the mounted component.  The
    sliders and mode buttons write the settings and the draw mode freely,
    and [handlePredictionChange] is let through with any text. *)
Inductive reachable : Page -> Prop :=
| reach_initial : reachable initialPage
| reach_click cr e p : reachable p -> reachable (handleCanvasClick cr e p)
| reach_complete p : reachable p -> reachable (completeSegmentOn p)
| reach_clear p : reachable p -> reachable (clearAll p)
| reach_place p : reachable p -> reachable (placeBucket p)
| reach_remove p : reachable p -> reachable (removeBucket p)
| reach_predict f s p : reachable p -> reachable (handlePredictionChange f s p)
| reach_close p : reachable p -> reachable (closeResultsModal p)
| reach_stop p : reachable p -> reachable (stopSimulationOn p)
| reach_run cr n p : reachable p -> reachable (runOn cr n p)
| reach_settings s mode p :
    reachable p ->
    reachable {| editor := {| ed_path := ed_path (editor p);
                              currentPoints := currentPoints (editor p);
                              drawMode := mode |};
                 pview := pview p; bucketPlacementMode := bucketPlacementMode p;
                 pagePredictions := pagePredictions p;
                 showPredictions := showPredictions p; settings := s |}.

(** The same pages with the predictions written the way the page writes
    them, through the four fields. *)
Inductive operated : Page -> Prop :=
| op_initial : operated initialPage
| op_click cr e p : operated p -> operated (handleCanvasClick cr e p)
| op_complete p : operated p -> operated (completeSegmentOn p)
| op_clear p : operated p -> operated (clearAll p)
| op_place p : operated p -> operated (placeBucket p)
| op_remove p : operated p -> operated (removeBucket p)
| op_type f typed p : operated p -> operated (typePrediction f typed p)
| op_close p : operated p -> operated (closeResultsModal p)
| op_stop p : operated p -> operated (stopSimulationOn p)
| op_run cr n p : operated p -> operated (runOn cr n p)
| op_settings s mode p :
    operated p ->
    operated {| editor := {| ed_path := ed_path (editor p);
                             currentPoints := currentPoints (editor p);
                             drawMode := mode |};
                pview := pview p; bucketPlacementMode := bucketPlacementMode p;
                pagePredictions := pagePredictions p;
                showPredictions := showPredictions p; settings := s |}.

(** A bucket as the page places it: on the ground line, 80 wide, 60 high. *)
Definition standardBucket (bk : Bucket) : Prop :=
  by_ bk = GROUND_Y /\ bwidth bk = BUCKET_WIDTH /\ bheight bk = BUCKET_HEIGHT.

Definition bucketStandard (v : View) : Prop :=
  forall bk, bucketState v = Some bk -> standardBucket bk.

(** The bucket of a state with its hit flag cleared: what the handlers of a
    run never change. *)
Definition bucketShape (v : View) : option Bucket :=
  option_map (withHit false) (bucketState v).

(** What every reachable page satisfies. *)
Definition pageInvariant (p : Page) : Prop :=
  Forall wellFormed (ed_path (editor p))
  /\ bucketStandard (pview p)
  /\ (bucketHit (pview p) = true -> bucketState (pview p) <> None).

(** The canvas coordinates of a click, as [handleCanvasClick] computes
    them. *)
Definition canvasPoint (canvas : Canvas) (rect : Rect) (e : ClickEvent) : Point :=
  {| px := (clientX e - rleft rect) * (cwidth canvas / rwidth rect);
     py := (clientY e - rtop rect) * (cheight canvas / rheight rect) |}.

(** A series of clicks on the canvas, in order. *)
Definition clicks (canvas : Canvas) (rect : Rect) (events : list ClickEvent) (p : Page)
  : Page :=
  fold_left (fun q e => handleCanvasClick (Some (canvas, rect)) e q) events p.

(** The canvas shown at half its size, and clicks on it. *)
Definition demoRect : Rect := {| rleft := 10; rtop := 20; rwidth := 400; rheight := 350 |}.

Definition groundClick : ClickEvent := {| clientX := 160; clientY := 340 |}.

Definition skyClicks : list ClickEvent :=
  [ {| clientX := 60; clientY := 70 |}; {| clientX := 110; clientY := 120 |};
    {| clientX := 160; clientY := 170 |} ].

(** * Properties *)

(** ** Booleans and propositions *)

Lemma Qltb_lt (x y : Q) : Qltb x y = true <-> x < y.
Proof.
  unfold Qltb. rewrite negb_true_iff, <- not_true_iff_false, Qle_bool_iff.
  split; [apply Qnot_le_lt | apply Qlt_not_le].
Qed.

Lemma Qltb_ge (x y : Q) : Qltb x y = false <-> y <= x.
Proof.
  unfold Qltb. rewrite negb_false_iff. apply Qle_bool_iff.
Qed.

Lemma Qgtb_gt (x y : Q) : Qgtb x y = true <-> y < x.
Proof. apply Qltb_lt. Qed.

Lemma Qgeb_ge (x y : Q) : Qgeb x y = true <-> y <= x.
Proof. apply Qle_bool_iff. Qed.

Lemma Qeq_bool_false (x y : Q) : Qeq_bool x y = false <-> ~ x == y.
Proof.
  rewrite <- not_true_iff_false, Qeq_bool_iff. tauto.
Qed.

(** ** Prediction accuracy *)

Lemma accuracy_nonzero_actual (p a : Q) :
  ~ a == 0 ->
  calculatePredictionAccuracy (Fin p) (Fin a)
  = nmax (Fin 0) (Fin (100 - Qabs ((p - a) / a) * 100)).
Proof.
  intros Ha. unfold calculatePredictionAccuracy.
  assert (E : Qeq_bool a 0 = false) by (apply Qeq_bool_false; exact Ha).
  simpl neqb. rewrite E. simpl. rewrite E. reflexivity.
Qed.

Lemma nmax_zero_fin (x : Q) : isNum (nmax (Fin 0) (Fin x)) (Qmax 0 x).
Proof.
  simpl. destruct (Qltb 0 x) eqn:E; simpl.
  - apply Qltb_lt in E. symmetry. apply Q.max_r. apply Qlt_le_weak; exact E.
  - apply Qltb_ge in E. symmetry. apply Q.max_l. exact E.
Qed.

Lemma isNum_eq (n : number) (q r : Q) : isNum n q -> q == r -> isNum n r.
Proof.
  destruct n; simpl; try tauto. intros H1 H2. rewrite H1. exact H2.
Qed.

Lemma Qabs_Qdiv (x y : Q) : Qabs (x / y) == Qabs x / Qabs y.
Proof.
  unfold Qdiv. rewrite Qabs_Qmult, Qabs_Qinv. reflexivity.
Qed.

Lemma accuracy_nonnegative (p a : Q) :
  exists q, calculatePredictionAccuracy (Fin p) (Fin a) = Fin q /\ 0 <= q.
Proof.
  destruct (Qeq_bool a 0) eqn:Ea.
  - unfold calculatePredictionAccuracy. simpl neqb. rewrite Ea.
    destruct (Qeq_bool p 0); eexists; split; try reflexivity; lra.
  - rewrite accuracy_nonzero_actual by (apply Qeq_bool_false; exact Ea).
    simpl. destruct (Qltb 0 _) eqn:E; eexists; split; try reflexivity.
    + apply Qltb_lt in E. apply Qlt_le_weak; exact E.
    + lra.
Qed.

(** C9.  For all real [predicted] and [actual]: when [actual] is 0 the
    accuracy is 100 if [predicted] is 0 and 0 otherwise; when [actual] is not
    0 it is [max 0 (100 - |predicted - actual| / |actual| * 100)]; it is never
    negative; and the accuracy of [actual] against itself is 100 for every
    non-zero [actual]. *)
Theorem accuracy_cases (p a : Q) :
  (a == 0 -> p == 0 -> calculatePredictionAccuracy (Fin p) (Fin a) = Fin 100) /\
  (a == 0 -> ~ p == 0 -> calculatePredictionAccuracy (Fin p) (Fin a) = Fin 0) /\
  (~ a == 0 ->
   isNum (calculatePredictionAccuracy (Fin p) (Fin a))
         (Qmax 0 (100 - Qabs (p - a) / Qabs a * 100))) /\
  (exists q, calculatePredictionAccuracy (Fin p) (Fin a) = Fin q /\ 0 <= q) /\
  (~ a == 0 -> isNum (calculatePredictionAccuracy (Fin a) (Fin a)) 100).
Proof.
  repeat split.
  - intros Ha Hp. unfold calculatePredictionAccuracy. simpl neqb.
    apply Qeq_bool_iff in Ha, Hp. rewrite Ha, Hp. reflexivity.
  - intros Ha Hp. unfold calculatePredictionAccuracy. simpl neqb.
    apply Qeq_bool_iff in Ha. apply Qeq_bool_false in Hp. rewrite Ha, Hp. reflexivity.
  - intros Ha. rewrite accuracy_nonzero_actual by exact Ha.
    eapply isNum_eq; [apply nmax_zero_fin|].
    rewrite Qabs_Qdiv. reflexivity.
  - apply accuracy_nonnegative.
  - intros Ha. rewrite accuracy_nonzero_actual by exact Ha.
    eapply isNum_eq; [apply nmax_zero_fin|].
    assert (E : (a - a) / a == 0) by (field; exact Ha).
    rewrite E. simpl Qabs. apply Q.max_r. lra.
Qed.

Lemma accuracy_cases_witness :
  isNum (calculatePredictionAccuracy (Fin 8) (Fin 10))
        (Qmax 0 (100 - Qabs (8 - 10) / Qabs 10 * 100))
  /\ isNum (calculatePredictionAccuracy (Fin 10) (Fin 10)) 100
  /\ calculatePredictionAccuracy (Fin 0) (Fin 0) = Fin 100
  /\ calculatePredictionAccuracy (Fin 5) (Fin 0) = Fin 0.
Proof.
  split; [|split; [|split]].
  - apply (accuracy_cases 8 10). intro H; discriminate H.
  - apply (accuracy_cases 10 10). intro H; discriminate H.
  - apply (accuracy_cases 0 0); reflexivity.
  - apply (accuracy_cases 5 0); [reflexivity | intro H; discriminate H].
Defined.

(** ** What a frame leaves alone *)

Lemma evaluatePredictions_frame (inp : Inputs) (final : EnergyData) (v : View) :
  let v' := evaluatePredictions inp final v in
  initialEnergyRef v' = initialEnergyRef v
  /\ energyData v' = energyData v
  /\ finalEnergyData v' = finalEnergyData v
  /\ isAnimating v' = isAnimating v
  /\ bucketHit v' = bucketHit v
  /\ bucketState v' = bucketState v.
Proof.
  unfold evaluatePredictions.
  destruct (predictionResultsOf _ _ _); simpl; repeat split; reflexivity.
Qed.

Lemma bucketRule_ref (inp : Inputs) (r : Run) :
  initialEnergyRef (view (bucketRule inp r)) = initialEnergyRef (view r).
Proof.
  unfold bucketRule. destruct (bucket inp); [|reflexivity].
  destruct (negb _); [|reflexivity].
  destruct (checkBucketHit _ _ _); reflexivity.
Qed.

Lemma groundRule_ref (inp : Inputs) (r : Run) :
  initialEnergyRef (view (groundRule inp r)) = initialEnergyRef (view r).
Proof.
  unfold groundRule. destruct (groundTriggered _); [|reflexivity].
  simpl. destruct (bucket inp); reflexivity.
Qed.

Lemma contacts_ref (inp : Inputs) (pathPoints : list Point) (r : Run) :
  initialEnergyRef (view (contacts inp pathPoints r)) = initialEnergyRef (view r).
Proof.
  unfold contacts. simpl. rewrite groundRule_ref. apply bucketRule_ref.
Qed.

(** With a drawing context, a frame ends settled or scheduled, according
    to the stop test on the ball the contact rules leave. *)
Lemma animate_unfold (canvas : Canvas) (inp : Inputs) (pathPoints : list Point) (r : Run) :
  has2d canvas = true ->
  let r2 := contacts inp pathPoints {| view := view r; ball := integrate (ball r) |} in
  animate canvas inp pathPoints r =
  if stopped (ball r2) then
    let finalEnergy := calculateEnergy (initialEnergyRef (view r2)) 0 0 (ballY (ball r2)) in
    (Settled,
     {| view := setIsAnimating false
                  (evaluatePredictions inp finalEnergy
                     (setFinalEnergyData (Some finalEnergy)
                        (setEnergyData finalEnergy (view r2))));
        ball := halt (ball r2) |})
  else
    (Scheduled,
     {| view := setEnergyData
                  (calculateEnergy (initialEnergyRef (view r2))
                     (velocityX (ball r2)) (velocityY (ball r2)) (ballY (ball r2)))
                  (view r2);
        ball := ball r2 |}).
Proof.
  intros H. unfold animate. rewrite H. reflexivity.
Qed.

Lemma animate_energy (canvas : Canvas) (inp : Inputs) (pathPoints : list Point) (r : Run) :
  has2d canvas = true ->
  let r' := snd (animate canvas inp pathPoints r) in
  initialEnergyRef (view r') = initialEnergyRef (view r)
  /\ energyData (view r')
     = calculateEnergy (initialEnergyRef (view r))
         (velocityX (ball r')) (velocityY (ball r')) (ballY (ball r')).
Proof.
  intros H. cbv zeta. rewrite (animate_unfold _ _ _ _ H). cbv zeta.
  remember (contacts inp pathPoints {| view := view r; ball := integrate (ball r) |}) as r2 eqn:E.
  assert (Href : initialEnergyRef (view r2) = initialEnergyRef (view r))
    by (rewrite E, contacts_ref; reflexivity).
  clear E.
  destruct (stopped (ball r2)); cbn [snd view ball].
  - match goal with
    | |- context [evaluatePredictions ?i ?f ?v] =>
        destruct (evaluatePredictions_frame i f v) as (E1 & E2 & _)
    end.
    split.
    + cbn [setIsAnimating initialEnergyRef]. rewrite E1. exact Href.
    + cbn [setIsAnimating energyData]. rewrite E2. cbn. rewrite Href. reflexivity.
  - split; cbn; rewrite ?Href; reflexivity.
Qed.

Lemma frames_energy (n : nat) (canvas : Canvas) (inp : Inputs) (pathPoints : list Point)
    (E0 : Q) (sr : Status * Run) :
  has2d canvas = true ->
  initialEnergyRef (view (snd sr)) = E0 ->
  energyData (view (snd sr))
  = calculateEnergy E0 (velocityX (ball (snd sr))) (velocityY (ball (snd sr)))
      (ballY (ball (snd sr))) ->
  let r := snd (frames n canvas inp pathPoints sr) in
  initialEnergyRef (view r) = E0
  /\ energyData (view r)
     = calculateEnergy E0 (velocityX (ball r)) (velocityY (ball r)) (ballY (ball r)).
Proof.
  intros H. revert sr. induction n as [|k IH]; intros sr Href Hen; cbn [frames].
  - split; assumption.
  - destruct (fst sr); try (split; assumption).
    destruct (animate_energy canvas inp pathPoints (snd sr) H) as (A1 & A2).
    apply IH.
    + rewrite A1. exact Href.
    + rewrite A2, Href. reflexivity.
Qed.

(** C7.  The snapshot of a ball state is [kinetic = 1/2 m (vx^2 + vy^2)],
    [potential = m g (groundY - y)], [total = kinetic + potential] and
    [loss = initialTotal - total]; and throughout a run the initial total
    is the one stored at run start (the energy of the initial ball), so the
    snapshot shown after any number of frames is the one computed from the
    current ball against that fixed value. *)
Theorem energy_snapshot :
  (forall ref vx vy y : Q,
     kineticEnergy (calculateEnergy ref vx vy y) == (1 # 2) * BALL_MASS * (vx * vx + vy * vy)
     /\ potentialEnergy (calculateEnergy ref vx vy y) == BALL_MASS * GRAVITY * (GROUND_Y - y)
     /\ totalEnergy (calculateEnergy ref vx vy y)
        == kineticEnergy (calculateEnergy ref vx vy y)
           + potentialEnergy (calculateEnergy ref vx vy y)
     /\ energyLoss (calculateEnergy ref vx vy y)
        == ref - totalEnergy (calculateEnergy ref vx vy y))
  /\
  (forall (canvas : Canvas) (inp : Inputs) (v : View) (n : nat),
     has2d canvas = true ->
     let pathPoints := fst (startRun canvas inp v) in
     let r0 := snd (startRun canvas inp v) in
     let r := snd (frames n canvas inp pathPoints (animate canvas inp pathPoints r0)) in
     initialEnergyRef (view r0) = mechanicalEnergy (ball r0)
     /\ initialEnergyRef (view r) = mechanicalEnergy (ball r0)
     /\ energyData (view r)
        = calculateEnergy (mechanicalEnergy (ball r0))
            (velocityX (ball r)) (velocityY (ball r)) (ballY (ball r))).
Proof.
  split.
  - intros. cbn. repeat split; reflexivity.
  - intros canvas inp v n H pathPoints r0 r.
    assert (H0 : initialEnergyRef (view r0) = mechanicalEnergy (ball r0)) by reflexivity.
    split; [exact H0|].
    destruct (animate_energy canvas inp pathPoints r0 H) as (A1 & A2).
    apply frames_energy.
    + exact H.
    + rewrite A1. exact H0.
    + rewrite A2, H0. reflexivity.
Qed.

(** ** Sampling of curve segments *)

Section Blocks.
Context {A B : Type} (f : A -> list B) (m : nat).
Hypothesis block : forall x, List.length (f x) = m.


End Blocks.









(** ** Refusing to start *)

Lemma completeSegment_wellFormed (e : Editor) :
  Forall wellFormed (ed_path e) -> Forall wellFormed (ed_path (completeSegment e)).
Proof.
  intros H. unfold completeSegment.
  destruct (2 <=? List.length (currentPoints e))%nat eqn:E; [|exact H].
  cbn [ed_path]. apply Forall_app. split; [exact H|].
  constructor; [|constructor].
  unfold wellFormed. cbn [seg_points]. apply Nat.leb_le. exact E.
Qed.

(** The two guards.  A path with zero segments is refused at run start: no
    frame runs and the state is returned as it was.  A segment with fewer
    than two points is turned down when it is completed, where the editor
    is left unchanged, so every path the editor builds holds only segments
    of at least two points. *)
Lemma run_refusal :
  (forall (canvasRef : option Canvas) (inp : Inputs) (v : View),
     path inp = [] -> runSimulation canvasRef inp v = Refused v)
  /\ (forall e : Editor,
        (List.length (currentPoints e) < 2)%nat -> completeSegment e = e)
  /\ (forall e : Editor,
        Forall wellFormed (ed_path e) -> Forall wellFormed (ed_path (completeSegment e))).
Proof.
  split; [|split].
  - intros canvasRef inp v H. unfold runSimulation. rewrite H. reflexivity.
  - intros e H. unfold completeSegment.
    apply Nat.leb_gt in H. rewrite H. reflexivity.
  - exact completeSegment_wellFormed.
Qed.

Lemma run_refusal_witness :
  runSimulation (Some demoCanvas) (demoInputs [] (98 # 100) None noPredictions) idleView
  = Refused idleView
  /\ completeSegment {| ed_path := []; currentPoints := [pt 100 100]; drawMode := line |}
     = {| ed_path := []; currentPoints := [pt 100 100]; drawMode := line |}.
Proof.
  split.
  - apply (proj1 run_refusal). reflexivity.
  - apply (proj1 (proj2 run_refusal)). cbn. lia.
Defined.

(** [runSimulation] itself does not look at the size of the segments:
    handed a path whose only segment has one point, which no page holds, it
    samples an empty path and runs the first frame. *)
Lemma one_point_path_runs :
  exists r,
    runSimulation (Some demoCanvas) (demoInputs onePointPath (98 # 100) None noPredictions)
                  idleView
    = Launched [] Scheduled r
    /\ isAnimating (view r) = true
    /\ ballY (ball r) == 503 # 10
    /\ velocityY (ball r) == 3 # 10.
Proof.
  eexists. split; [reflexivity|]. cbn. repeat split.
Qed.

(** The handlers other than [completeSegment] and [clearAll] leave the
    sealed segments as they are. *)
Lemma handleCanvasClick_path (cr : option (Canvas * Rect)) (e : ClickEvent) (p : Page) :
  ed_path (editor (handleCanvasClick cr e p)) = ed_path (editor p).
Proof.
  unfold handleCanvasClick.
  destruct (isAnimating (pview p)); [reflexivity|].
  destruct cr as [[canvas rect]|]; [|reflexivity].
  destruct (bucketPlacementMode p); [|reflexivity].
  destruct (Qgeb _ _); reflexivity.
Qed.

Lemma runOn_path (cr : option Canvas) (n : nat) (p : Page) :
  ed_path (editor (runOn cr n p)) = ed_path (editor p).
Proof.
  unfold runOn. destruct cr as [canvas|]; [|reflexivity].
  destruct (runSimulation _ _ _); reflexivity.
Qed.

(** Every segment of the path of a page has at least two points. *)
Lemma reachable_wellFormed (p : Page) :
  reachable p -> Forall wellFormed (ed_path (editor p)).
Proof.
  induction 1 as [|cr e p Hp IH|p Hp IH|p Hp IH|p Hp IH|p Hp IH|f s p Hp IH
                  |p Hp IH|p Hp IH|cr n p Hp IH|s mode p Hp IH].
  - constructor.
  - rewrite handleCanvasClick_path. exact IH.
  - apply completeSegment_wellFormed. exact IH.
  - constructor.
  - exact IH.
  - exact IH.
  - exact IH.
  - exact IH.
  - exact IH.
  - rewrite runOn_path. exact IH.
  - exact IH.
Qed.

(** C2.  On every page the handlers can produce, a path that has zero
    segments, or that contains a segment with fewer than two points, makes
    the run button do nothing: [runSimulation] returns at once, no frame
    runs, and the page is left exactly as it was, whatever the canvas and
    however many frames the scheduler would have served.  The test
    [runSimulation] makes is the one for zero segments; a segment with
    fewer than two points is turned down by [completeSegment] before it
    enters the path, so a page never holds one. *)
Theorem invalid_path_refused (p : Page) (canvasRef : option Canvas) :
  reachable p ->
  ed_path (editor p) = []
  \/ Exists (fun segment => (List.length (seg_points segment) < 2)%nat)
            (ed_path (editor p)) ->
  runSimulation canvasRef (render p) (pview p) = Refused (pview p)
  /\ forall n, runOn canvasRef n p = p.
Proof.
  intros Hreach Hinvalid.
  assert (Hempty : ed_path (editor p) = []).
  { destruct Hinvalid as [Hempty|Hshort]; [exact Hempty|].
    pose proof (reachable_wellFormed p Hreach) as Hwf.
    apply Exists_exists in Hshort. destruct Hshort as (segment & Hin & Hlt).
    rewrite Forall_forall in Hwf. specialize (Hwf segment Hin).
    unfold wellFormed in Hwf. lia. }
  assert (Hrun : runSimulation canvasRef (render p) (pview p) = Refused (pview p)).
  { unfold runSimulation. cbn [render path]. rewrite Hempty. reflexivity. }
  split; [exact Hrun|].
  intros n. unfold runOn. destruct canvasRef as [canvas|]; [|reflexivity].
  rewrite Hrun. destruct p; reflexivity.
Qed.

Lemma invalid_path_refused_witness :
  runSimulation (Some demoCanvas) (render (clearAll initialPage))
                (pview (clearAll initialPage))
  = Refused (pview (clearAll initialPage))
  /\ runOn (Some demoCanvas) 3 (clearAll initialPage) = clearAll initialPage.
Proof.
  destruct (invalid_path_refused (clearAll initialPage) (Some demoCanvas)
              (reach_clear _ reach_initial) (or_introl eq_refl)) as (Hrun & Hpage).
  split; [exact Hrun | apply Hpage].
Defined.

(** ** Scoring of the entries *)

Example parseFloat_decimal : isNum (parseFloat "5.2") (52 # 10).
Proof. reflexivity. Qed.

Example parseFloat_prefix : isNum (parseFloat "  -12.50e1xyz") (- (125)).
Proof. reflexivity. Qed.

Example parseFloat_bare_point : parseFloat "." = NaN.
Proof. reflexivity. Qed.

Lemma predictionResultsOf_table (ref : Q) (preds : PredictionData) (final : EnergyData) :
  predictionResultsOf ref preds final
  = flat_map (fun e => scoreEntry (fst (fst e)) (snd (fst e)) (snd e))
             (metricTable ref preds final).
Proof.
  unfold predictionResultsOf, metricTable. cbn [flat_map fst snd].
  rewrite app_nil_r. reflexivity.
Qed.

Lemma truthy_nonempty (s : string) : truthy s = true <-> s <> EmptyString.
Proof.
  destruct s; cbn; split; intros H; try reflexivity; try discriminate; congruence.
Qed.

Lemma scoreEntry_populated (name text : string) (act : number) :
  text <> EmptyString ->
  scoreEntry name text act
  = [ {| metric := name; predicted := parseFloat text; actual := act;
         isCorrect := isPredictionCorrect (parseFloat text) act;
         accuracy := calculatePredictionAccuracy (parseFloat text) act |} ].
Proof.
  intros H. unfold scoreEntry. apply truthy_nonempty in H. rewrite H. reflexivity.
Qed.

Lemma scoreEntry_In (name text : string) (act : number) (r : PredictionResult) :
  In r (scoreEntry name text act) ->
  text <> EmptyString
  /\ r = {| metric := name; predicted := parseFloat text; actual := act;
            isCorrect := isPredictionCorrect (parseFloat text) act;
            accuracy := calculatePredictionAccuracy (parseFloat text) act |}.
Proof.
  unfold scoreEntry. destruct (truthy text) eqn:E; cbn; [|tauto].
  intros [H|[]]. split; [apply truthy_nonempty; exact E | symmetry; exact H].
Qed.

Lemma isPredictionCorrect_NaN (act : number) : isPredictionCorrect NaN act = false.
Proof.
  unfold isPredictionCorrect. destruct (neqb act (Fin 0)); [reflexivity|].
  destruct act; reflexivity.
Qed.

Lemma accuracy_NaN (act : number) :
  calculatePredictionAccuracy NaN act = (if neqb act (Fin 0) then Fin 0 else NaN).
Proof.
  unfold calculatePredictionAccuracy. destruct (neqb act (Fin 0)); [reflexivity|].
  destruct act; reflexivity.
Qed.

(** The scorer by itself: every non-empty entry is scored and only the
    empty entries are left out, so the results are exactly one per
    non-empty entry of the table, with [predicted] the value of
    [parseFloat] on the text.  The scorer has no test of its own for
    [NaN]: were it handed text that is no number, the result would be
    marked incorrect, with accuracy 0 against an actual of 0 and [NaN]
    otherwise. *)
Lemma populated_entries_scored (ref : Q) (preds : PredictionData) (final : EnergyData) :
  (forall name text act,
     In (name, text, act) (metricTable ref preds final) ->
     text <> EmptyString ->
     exists r, In r (predictionResultsOf ref preds final)
               /\ metric r = name /\ predicted r = parseFloat text /\ actual r = act)
  /\ (forall r,
        In r (predictionResultsOf ref preds final) ->
        exists text, In (metric r, text, actual r) (metricTable ref preds final)
                     /\ text <> EmptyString /\ predicted r = parseFloat text)
  /\ (forall r,
        In r (predictionResultsOf ref preds final) ->
        predicted r = NaN ->
        isCorrect r = false
        /\ accuracy r = (if neqb (actual r) (Fin 0) then Fin 0 else NaN)).
Proof.
  rewrite predictionResultsOf_table.
  split; [|split].
  - intros name text act Hin Hne.
    eexists. split.
    + apply in_flat_map. exists (name, text, act). split; [exact Hin|].
      cbn [fst snd]. rewrite scoreEntry_populated by exact Hne. left. reflexivity.
    + cbn. repeat split.
  - intros r Hin. apply in_flat_map in Hin. destruct Hin as ([[name text] act] & Ht & Hr).
    cbn [fst snd] in Hr. apply scoreEntry_In in Hr. destruct Hr as (Hne & ->).
    exists text. cbn. repeat split; assumption.
  - intros r Hin Hnan. apply in_flat_map in Hin.
    destruct Hin as ([[name text] act] & Ht & Hr).
    cbn [fst snd] in Hr. apply scoreEntry_In in Hr. destruct Hr as (Hne & ->).
    cbn in Hnan |- *. rewrite Hnan. split.
    + apply isPredictionCorrect_NaN.
    + apply accuracy_NaN.
Qed.

Lemma populated_entries_scored_witness :
  exists r,
    In r (predictionResultsOf 182 garbledPredictions (calculateEnergy 182 0 0 635))
    /\ metric r = "Energy Loss"%string
    /\ predicted r = parseFloat "abc"
    /\ actual r = Fin (energyLoss (calculateEnergy 182 0 0 635)).
Proof.
  apply (proj1 (populated_entries_scored 182 garbledPredictions (calculateEnergy 182 0 0 635))).
  - cbn. right. right. left. reflexivity.
  - discriminate.
Defined.

(** The scorer relies on the fields for that: handed the entry [abc]
    directly, which no field reports, it produces a result with [NaN] as
    the predicted value. *)
Lemma garbled_entry_is_scored :
  parseFloat "abc" = NaN
  /\ map metric
       (predictionResults
          (evaluatePredictions (demoInputs ledgePath (98 # 100) None garbledPredictions)
             (calculateEnergy 182 0 0 635) (setInitialEnergyRef 182 idleView)))
     = [ "Energy Loss"%string ]
  /\ map predicted
       (predictionResults
          (evaluatePredictions (demoInputs ledgePath (98 # 100) None garbledPredictions)
             (calculateEnergy 182 0 0 635) (setInitialEnergyRef 182 idleView)))
     = [ NaN ]
  /\ showResultsModal
       (evaluatePredictions (demoInputs ledgePath (98 # 100) None garbledPredictions)
          (calculateEnergy 182 0 0 635) (setInitialEnergyRef 182 idleView))
     = true.
Proof.
  repeat split.
Qed.

Lemma evaluatePredictions_results (inp : Inputs) (final : EnergyData) (v : View) :
  predictionResults (evaluatePredictions inp final v)
  = predictionResultsOf (initialEnergyRef v) (predictions inp) final.
Proof.
  unfold evaluatePredictions.
  destruct (predictionResultsOf _ _ _); reflexivity.
Qed.

(** ** Entries typed into the prediction fields *)

Lemma takeSign_spec (c : ascii) (r : string) :
  takeSign (String c r)
  = if Ascii.eqb c "-" then (true, r)
    else if Ascii.eqb c "+" then (false, r) else (false, String c r).
Proof.
  destruct c as [[] [] [] [] [] [] [] []]; reflexivity.
Qed.

Lemma afterPoint_spec (c : ascii) (r : string) :
  afterPoint (String c r) = if Ascii.eqb c "." then Some r else None.
Proof.
  destruct c as [[] [] [] [] [] [] [] []]; reflexivity.
Qed.

Lemma dropMinus_spec (c : ascii) (r : string) :
  dropMinus (String c r) = if Ascii.eqb c "-" then r else String c r.
Proof.
  destruct c as [[] [] [] [] [] [] [] []]; reflexivity.
Qed.

(** A digit is no white space, no sign and not the first letter of
    [Infinity]. *)
Lemma digit_plain (c : ascii) (d : Z) :
  digitOf c = Some d ->
  isWhite c = false /\ Ascii.eqb c "+" = false /\ c <> "I"%char.
Proof.
  destruct c as [[] [] [] [] [] [] [] []]; intros H;
    try discriminate H; repeat split; discriminate.
Qed.

Lemma unsignedFloat_first (s : string) :
  unsignedFloat s = true ->
  exists c r, s = String c r /\ (c = "."%char \/ exists d, digitOf c = Some d).
Proof.
  destruct s as [|c r]; intros H; [discriminate H|].
  exists c, r. split; [reflexivity|].
  destruct (digitOf c) as [d|] eqn:Ed; [right; exists d; reflexivity|left].
  unfold unsignedFloat in H. cbn [takeDigits] in H. rewrite Ed in H.
  rewrite afterPoint_spec in H.
  destruct (Ascii.eqb c ".") eqn:E; [apply Ascii.eqb_eq; exact E | discriminate H].
Qed.

Lemma prefix_Infinity (c : ascii) (r : string) :
  c <> "I"%char -> String.prefix "Infinity" (String c r) = false.
Proof.
  intros H. cbn [String.prefix].
  destruct (ascii_dec "I" c) as [E|E]; [symmetry in E; contradiction | reflexivity].
Qed.

(** A valid unsigned literal is read as a number. *)
Lemma unsignedFloat_parse (negative : bool) (s : string) :
  unsignedFloat s = true -> parseUnsigned negative s <> NaN.
Proof.
  intros H. destruct (unsignedFloat_first s H) as (c & r & -> & Hc).
  unfold parseUnsigned. rewrite prefix_Infinity.
  2:{ destruct Hc as [->|(d & Hd)]; [discriminate | apply (digit_plain c d Hd)]. }
  unfold unsignedFloat in H.
  destruct (takeDigits (String c r) 0 0) as [[ip ni] r1].
  assert (Hn : exists mantissa nf r2 k,
             match afterPoint r1 with
             | Some r0 => takeDigits r0 ip 0
             | None => (ip, O, r1)
             end = (mantissa, nf, r2)
             /\ (ni + nf)%nat = S k).
  { destruct (afterPoint r1) as [r0|].
    - destruct (takeDigits r0 ip 0) as [[m nf] r2].
      apply andb_true_iff in H. destruct H as (H & _). apply Nat.leb_le in H.
      exists m, nf, r2, (ni + nf - 1)%nat. split; [reflexivity | lia].
    - apply andb_true_iff in H. destruct H as (H & _). apply Nat.leb_le in H.
      exists ip, O, r1, (ni + 0 - 1)%nat. split; [reflexivity | lia]. }
  destruct Hn as (mantissa & nf & r2 & k & -> & ->).
  destruct (Qle_bool DOUBLE_OVERFLOW _); destruct negative; discriminate.
Qed.

(** Text that is a valid floating-point number parses to a number. *)
Lemma valid_parses (s : string) :
  validFloatingPointNumber s = true -> parseFloat s <> NaN.
Proof.
  unfold validFloatingPointNumber. destruct s as [|c r]; intros H; [discriminate H|].
  rewrite dropMinus_spec in H. unfold parseFloat.
  destruct (Ascii.eqb c "-") eqn:E.
  - apply Ascii.eqb_eq in E. subst c.
    change (trimStart (String "-" r)) with (String "-"%char r).
    change (takeSign (String "-" r)) with (true, r).
    apply unsignedFloat_parse. exact H.
  - destruct (unsignedFloat_first _ H) as (c' & r' & Hs & Hc).
    injection Hs as <- <-.
    assert (Hp : isWhite c = false /\ Ascii.eqb c "+" = false).
    { destruct Hc as [->|(d & Hd)]; [split; reflexivity|].
      destruct (digit_plain c d Hd) as (H1 & H2 & _). split; assumption. }
    destruct Hp as (Hw & Hplus).
    cbn [trimStart]. rewrite Hw. rewrite takeSign_spec, E, Hplus.
    apply unsignedFloat_parse. exact H.
Qed.

Lemma numberInputValue_cases (typed : string) :
  numberInputValue typed = EmptyString
  \/ (numberInputValue typed = typed /\ validFloatingPointNumber typed = true).
Proof.
  unfold numberInputValue.
  destruct (validFloatingPointNumber typed); [right; split; reflexivity | left; reflexivity].
Qed.

(** What a number input reports is empty or parses to a number. *)
Lemma numberInputValue_parses (typed : string) :
  numberInputValue typed <> EmptyString -> parseFloat (numberInputValue typed) <> NaN.
Proof.
  intros Hne. destruct (numberInputValue_cases typed) as [E|(E & Hv)].
  - contradiction.
  - rewrite E. apply valid_parses. exact Hv.
Qed.

Lemma numberInputValue_unparsed (typed : string) :
  parseFloat typed = NaN -> numberInputValue typed = EmptyString.
Proof.
  intros Hnan. destruct (numberInputValue_cases typed) as [E|(_ & Hv)]; [exact E|].
  contradiction (valid_parses typed Hv).
Qed.

Lemma entryOf_typePrediction (field : PredictionField) (typed : string) (p : Page) :
  entryOf field (pagePredictions (typePrediction field typed p)) = numberInputValue typed.
Proof.
  destruct field; reflexivity.
Qed.

Lemma entryOf_typePrediction_other (field other : PredictionField) (typed : string)
    (p : Page) :
  other <> field ->
  entryOf other (pagePredictions (typePrediction field typed p))
  = entryOf other (pagePredictions p).
Proof.
  destruct field, other; intros H; try reflexivity; contradiction H; reflexivity.
Qed.

Lemma metricOf_injective (f g : PredictionField) : metricOf f = metricOf g -> f = g.
Proof.
  destruct f, g; intros H; try reflexivity; discriminate H.
Qed.

(** The results are the entries of the fields that are not empty. *)
Lemma results_by_field (ref : Q) (preds : PredictionData) (final : EnergyData)
    (r : PredictionResult) :
  In r (predictionResultsOf ref preds final) ->
  exists field, metric r = metricOf field
                /\ entryOf field preds <> EmptyString
                /\ predicted r = parseFloat (entryOf field preds).
Proof.
  unfold predictionResultsOf. intros H.
  repeat (apply in_app_or in H; destruct H as [H|H]);
    apply scoreEntry_In in H; destruct H as (Hne & ->);
    [exists f_initialTotalEnergy | exists f_finalTotalEnergy
     | exists f_energyLoss | exists f_efficiency];
    (split; [reflexivity | split; [exact Hne | reflexivity]]).
Qed.

Lemma field_has_result (ref : Q) (preds : PredictionData) (final : EnergyData)
    (field : PredictionField) :
  entryOf field preds <> EmptyString ->
  exists r, In r (predictionResultsOf ref preds final)
            /\ metric r = metricOf field
            /\ predicted r = parseFloat (entryOf field preds).
Proof.
  intros Hne. unfold predictionResultsOf.
  destruct field; cbn [entryOf] in Hne |- *; eexists;
    (split;
     [ rewrite !in_app_iff; rewrite (scoreEntry_populated _ _ _ Hne);
       first [ left; left; reflexivity
             | right; left; left; reflexivity
             | right; right; left; left; reflexivity
             | right; right; right; left; reflexivity ]
     | split; reflexivity ]).
Qed.

(** The other handlers leave the predictions as they are. *)
Lemma handleCanvasClick_predictions (cr : option (Canvas * Rect)) (e : ClickEvent)
    (p : Page) :
  pagePredictions (handleCanvasClick cr e p) = pagePredictions p.
Proof.
  unfold handleCanvasClick.
  destruct (isAnimating (pview p)); [reflexivity|].
  destruct cr as [[canvas rect]|]; [|reflexivity].
  destruct (bucketPlacementMode p); [|reflexivity].
  destruct (Qgeb _ _); reflexivity.
Qed.

Lemma runOn_predictions (cr : option Canvas) (n : nat) (p : Page) :
  pagePredictions (runOn cr n p) = pagePredictions p.
Proof.
  unfold runOn. destruct cr as [canvas|]; [|reflexivity].
  destruct (runSimulation _ _ _); reflexivity.
Qed.

Lemma typePrediction_fromInputs (field : PredictionField) (typed : string) (p : Page) :
  fromInputs (pagePredictions p) -> fromInputs (pagePredictions (typePrediction field typed p)).
Proof.
  intros Hfrom g. destruct (Hfrom g) as (old & Hold).
  destruct field, g; first [ exists typed; reflexivity | exists old; exact Hold ].
Qed.

Lemma noPredictions_fromInputs : fromInputs noPredictions.
Proof.
  intros field. exists EmptyString. destruct field; reflexivity.
Qed.

Lemma operated_reachable (p : Page) : operated p -> reachable p.
Proof.
  induction 1; constructor; assumption.
Qed.

(** Every entry of the predictions of a page is the value of a number
    input. *)
Lemma operated_fromInputs (p : Page) : operated p -> fromInputs (pagePredictions p).
Proof.
  induction 1 as [|cr e p Hp IH|p Hp IH|p Hp IH|p Hp IH|p Hp IH|f typed p Hp IH
                  |p Hp IH|p Hp IH|cr n p Hp IH|s mode p Hp IH].
  - exact noPredictions_fromInputs.
  - rewrite handleCanvasClick_predictions. exact IH.
  - exact IH.
  - exact noPredictions_fromInputs.
  - exact IH.
  - exact IH.
  - apply typePrediction_fromInputs. exact IH.
  - exact IH.
  - exact IH.
  - rewrite runOn_predictions. exact IH.
  - exact IH.
Qed.

(** For predictions the fields can hold, every result has a number as its
    predicted value. *)
Lemma results_parse (inp : Inputs) (final : EnergyData) (v : View) (r : PredictionResult) :
  fromInputs (predictions inp) ->
  In r (predictionResults (evaluatePredictions inp final v)) ->
  predicted r <> NaN
  /\ exists field, metric r = metricOf field
                   /\ entryOf field (predictions inp) <> EmptyString
                   /\ predicted r = parseFloat (entryOf field (predictions inp)).
Proof.
  intros Hfrom Hin. rewrite evaluatePredictions_results in Hin.
  apply results_by_field in Hin. destruct Hin as (g & Hg & Hne & Hp).
  split; [|exists g; repeat split; assumption].
  rewrite Hp. destruct (Hfrom g) as (typed & Ht). rewrite Ht in Hne |- *.
  apply numberInputValue_parses. exact Hne.
Qed.

(** C3.  The prediction fields are number inputs, so text that does not
    parse to a number reaches the scorer as an empty entry: after it is
    typed into a field the entry of that field is empty and
    [evaluatePredictions] produces no result for its metric.  On every
    page the component can be in, each result [evaluatePredictions]
    produces comes from a non-empty entry whose text parses to a number.
    Text that is a valid number is scored under the metric of its field
    with the parsed value.  Scoring is a total function: no error is
    raised. *)
Theorem unparsed_entry_omitted :
  (forall (field : PredictionField) (typed : string) (p : Page) (final : EnergyData)
          (v : View),
     parseFloat typed = NaN ->
     let typedPage := typePrediction field typed p in
     entryOf field (pagePredictions typedPage) = EmptyString
     /\ forall r, In r (predictionResults (evaluatePredictions (render typedPage) final v)) ->
                  metric r <> metricOf field)
  /\ (forall (p : Page) (final : EnergyData) (v : View) (r : PredictionResult),
        operated p ->
        In r (predictionResults (evaluatePredictions (render p) final v)) ->
        predicted r <> NaN
        /\ exists field, metric r = metricOf field
                         /\ entryOf field (pagePredictions p) <> EmptyString
                         /\ predicted r = parseFloat (entryOf field (pagePredictions p)))
  /\ (forall (field : PredictionField) (typed : string) (p : Page) (final : EnergyData)
             (v : View),
        validFloatingPointNumber typed = true ->
        exists r,
          In r (predictionResults
                  (evaluatePredictions (render (typePrediction field typed p)) final v))
          /\ metric r = metricOf field
          /\ predicted r = parseFloat typed
          /\ predicted r <> NaN).
Proof.
  split; [|split].
  - intros field typed p final v Hnan typedPage.
    assert (He : entryOf field (pagePredictions typedPage) = EmptyString).
    { unfold typedPage. rewrite entryOf_typePrediction.
      apply numberInputValue_unparsed. exact Hnan. }
    split; [exact He|].
    intros r Hin Hm. rewrite evaluatePredictions_results in Hin.
    apply results_by_field in Hin. destruct Hin as (g & Hg & Hne & _).
    rewrite Hm in Hg. apply metricOf_injective in Hg. subst g.
    apply Hne. exact He.
  - intros p final v r Hop Hin.
    apply (results_parse (render p) final v r); [|exact Hin].
    apply operated_fromInputs. exact Hop.
  - intros field typed p final v Hv.
    assert (Ht : numberInputValue typed = typed)
      by (unfold numberInputValue; rewrite Hv; reflexivity).
    assert (Hne : entryOf field (predictions (render (typePrediction field typed p)))
                  <> EmptyString).
    { cbn [render predictions]. rewrite entryOf_typePrediction, Ht.
      intros ->. discriminate Hv. }
    destruct (field_has_result (initialEnergyRef v) _ final field Hne) as (r & Hin & Hm & Hp).
    exists r. rewrite evaluatePredictions_results.
    cbn [render predictions] in Hp. rewrite entryOf_typePrediction, Ht in Hp.
    repeat split; try assumption.
    rewrite Hp. apply valid_parses. exact Hv.
Qed.

Lemma unparsed_entry_omitted_witness :
  entryOf f_energyLoss
    (pagePredictions (typePrediction f_energyLoss "abc"%string initialPage))
  = EmptyString
  /\ (exists r,
        In r (predictionResults
                (evaluatePredictions
                   (render (typePrediction f_efficiency "50"%string initialPage))
                   (calculateEnergy 182 0 0 635) (setInitialEnergyRef 182 idleView)))
        /\ metric r = metricOf f_efficiency
        /\ predicted r = parseFloat "50"%string
        /\ predicted r <> NaN).
Proof.
  split.
  - apply (proj1 (proj1 unparsed_entry_omitted f_energyLoss "abc"%string initialPage
                    (calculateEnergy 182 0 0 635) idleView eq_refl)).
  - apply (proj2 (proj2 unparsed_entry_omitted) f_efficiency "50"%string
             initialPage (calculateEnergy 182 0 0 635) (setInitialEnergyRef 182 idleView)).
    reflexivity.
Defined.

(** ** The contact rules on a captured ball *)

Lemma groundRule_captured (inp : Inputs) (r : Run) :
  ballInBucket (ball r) = true -> groundRule inp r = r.
Proof.
  intros H. unfold groundRule, groundTriggered. rewrite H. reflexivity.
Qed.

Lemma bucketRule_captured (inp : Inputs) (r : Run) :
  ballInBucket (ball r) = true -> bucketRule inp r = r.
Proof.
  intros H. unfold bucketRule. rewrite H. destruct (bucket inp); reflexivity.
Qed.

Lemma pathRule_captured (pathPoints : list Point) (b : Ball) :
  ballInBucket b = true -> pathRule pathPoints b = b.
Proof.
  intros H. unfold pathRule. rewrite H. reflexivity.
Qed.

Lemma frictionRule_captured (inp : Inputs) (b : Ball) :
  ballInBucket b = true -> frictionRule inp b = b.
Proof.
  intros H. unfold frictionRule. rewrite H. reflexivity.
Qed.

Lemma contacts_captured (inp : Inputs) (pathPoints : list Point) (r : Run) :
  ballInBucket (ball r) = true -> contacts inp pathPoints r = r.
Proof.
  intros H. unfold contacts.
  rewrite (bucketRule_captured inp r H), (groundRule_captured inp r H).
  rewrite (pathRule_captured pathPoints _ H), (frictionRule_captured inp _ H).
  destruct r; reflexivity.
Qed.

(** The bucket rule at the frame of the capture. *)
Lemma bucketRule_capture (inp : Inputs) (r : Run) (bk : Bucket) :
  bucket inp = Some bk ->
  ballInBucket (ball r) = false ->
  checkBucketHit (bucket inp) (ballX (ball r)) (ballY (ball r)) = true ->
  bucketRule inp r
  = {| view := setShowBucketResult true (markBucket true (setBucketHit true (view r)));
       ball := {| ballX := ballX (ball r);
                  ballY := by_ bk - bheight bk - BALL_RADIUS;
                  velocityX := 0; velocityY := 0;
                  onGround := true; ballInBucket := true |} |}.
Proof.
  intros Hb Hn Hc. unfold bucketRule. rewrite Hc, Hn, Hb. reflexivity.
Qed.

Lemma frames_terminal (n : nat) (canvas : Canvas) (inp : Inputs) (pathPoints : list Point)
    (sr : Status * Run) :
  fst sr <> Scheduled -> frames n canvas inp pathPoints sr = sr.
Proof.
  intros H. destruct n as [|k]; [reflexivity|]. cbn [frames].
  destruct (fst sr); try reflexivity. contradiction H. reflexivity.
Qed.

Lemma stopped_iff (b : Ball) :
  stopped b = true <-> Qabs (velocityX b) < 1 # 10 /\ Qabs (velocityY b) < 1 # 10.
Proof.
  unfold stopped. rewrite andb_true_iff, !Qltb_lt. reflexivity.
Qed.

(** ** Settling *)

(** C6.  In a frame with a drawing context, let [r2] be the run once the
    velocity updates of the frame are done.  If both [|vx| < 0.1] and
    [|vy| < 0.1] then both components are set to exactly 0, the final
    snapshot is the one computed from that state, and the run is over: the
    frame ends settled and no later frame runs.  Conversely a frame in
    which either magnitude is at least 0.1 does not end settled. *)
Theorem settle_rule (canvas : Canvas) (inp : Inputs) (pathPoints : list Point) (r : Run) :
  has2d canvas = true ->
  let r2 := contacts inp pathPoints {| view := view r; ball := integrate (ball r) |} in
  let out := animate canvas inp pathPoints r in
  (Qabs (velocityX (ball r2)) < 1 # 10 /\ Qabs (velocityY (ball r2)) < 1 # 10 ->
   fst out = Settled
   /\ ball (snd out) = halt (ball r2)
   /\ velocityX (ball (snd out)) = 0
   /\ velocityY (ball (snd out)) = 0
   /\ finalEnergyData (view (snd out))
      = Some (calculateEnergy (initialEnergyRef (view r))
                (velocityX (ball (snd out))) (velocityY (ball (snd out)))
                (ballY (ball (snd out))))
   /\ energyData (view (snd out))
      = calculateEnergy (initialEnergyRef (view r)) 0 0 (ballY (ball r2))
   /\ isAnimating (view (snd out)) = false
   /\ forall n, frames n canvas inp pathPoints out = out)
  /\ (1 # 10 <= Qabs (velocityX (ball r2)) \/ 1 # 10 <= Qabs (velocityY (ball r2)) ->
      fst out <> Settled).
Proof.
  intros H r2 out. unfold out. rewrite (animate_unfold _ _ _ _ H). fold r2.
  assert (Href : initialEnergyRef (view r2) = initialEnergyRef (view r))
    by (unfold r2; rewrite contacts_ref; reflexivity).
  clearbody r2. clear out.
  split.
  - intros Hs. apply stopped_iff in Hs. rewrite Hs. cbv zeta. cbn [fst snd ball view].
    match goal with
    | |- context [evaluatePredictions ?i ?f ?v] =>
        destruct (evaluatePredictions_frame i f v) as (_ & E2 & E3 & _)
    end.
    repeat split.
    + cbn [setIsAnimating finalEnergyData]. rewrite E3. cbn. rewrite Href. reflexivity.
    + cbn [setIsAnimating energyData]. rewrite E2. cbn. rewrite Href. reflexivity.
    + intros n. apply frames_terminal. cbn. discriminate.
  - intros Hv. destruct (stopped (ball r2)) eqn:Hs; [|cbn; discriminate].
    apply stopped_iff in Hs. destruct Hs as (Hx & Hy).
    destruct Hv as [Hv|Hv];
      [apply Qle_not_lt in Hv; contradiction | apply Qle_not_lt in Hv; contradiction].
Qed.

(** ** Bucket capture *)

Lemma contacts_capture (inp : Inputs) (pathPoints : list Point) (r : Run) (bk : Bucket) :
  bucket inp = Some bk ->
  bucketContact inp r = true ->
  contacts inp pathPoints {| view := view r; ball := integrate (ball r) |}
  = {| view := setShowBucketResult true (markBucket true (setBucketHit true (view r)));
       ball := {| ballX := ballX (ball r) + velocityX (ball r);
                  ballY := by_ bk - bheight bk - BALL_RADIUS;
                  velocityX := 0; velocityY := 0;
                  onGround := true; ballInBucket := true |} |}.
Proof.
  intros Hb Hc. unfold bucketContact in Hc. apply andb_true_iff in Hc.
  destruct Hc as (Hn & Hc). apply negb_true_iff in Hn.
  unfold contacts.
  rewrite (bucketRule_capture inp _ bk Hb) by (cbn; assumption).
  rewrite groundRule_captured by reflexivity.
  cbn [view ball].
  rewrite pathRule_captured by reflexivity.
  rewrite frictionRule_captured by reflexivity.
  reflexivity.
Qed.

(** C10.  The frame in which the bucket test first succeeds is the last
    frame of the run: the velocity is zeroed at the capture, no contact rule
    and no friction runs afterwards in that frame, so the stop test
    succeeds; the final snapshot is computed with the ball at the bucket top
    minus the radius and zero velocity; and no later frame runs. *)
Theorem capture_settles (canvas : Canvas) (inp : Inputs) (pathPoints : list Point)
    (r : Run) (bk : Bucket) :
  has2d canvas = true ->
  bucket inp = Some bk ->
  bucketContact inp r = true ->
  let out := animate canvas inp pathPoints r in
  fst out = Settled
  /\ ball (snd out)
     = {| ballX := ballX (ball r) + velocityX (ball r);
          ballY := by_ bk - bheight bk - BALL_RADIUS;
          velocityX := 0; velocityY := 0;
          onGround := true; ballInBucket := true |}
  /\ finalEnergyData (view (snd out))
     = Some (calculateEnergy (initialEnergyRef (view r)) 0 0
               (by_ bk - bheight bk - BALL_RADIUS))
  /\ bucketHit (view (snd out)) = true
  /\ isAnimating (view (snd out)) = false
  /\ forall n, frames n canvas inp pathPoints out = out.
Proof.
  intros H Hb Hc out. unfold out. clear out.
  rewrite (animate_unfold _ _ _ _ H).
  rewrite (contacts_capture inp pathPoints r bk Hb Hc).
  cbv zeta. cbn [ball view].
  change (stopped _) with true. cbn iota. cbn [fst snd ball view].
  match goal with
  | |- context [evaluatePredictions ?i ?f ?v] =>
      destruct (evaluatePredictions_frame i f v) as (_ & _ & E3 & _ & E5 & _)
  end.
  repeat split.
  - cbn [setIsAnimating finalEnergyData]. rewrite E3. reflexivity.
  - cbn [setIsAnimating bucketHit]. rewrite E5. reflexivity.
  - intros n. apply frames_terminal. cbn. discriminate.
Qed.

(** A frame never clears the latch. *)
Lemma animate_latch (canvas : Canvas) (inp : Inputs) (pathPoints : list Point) (r : Run) :
  ballInBucket (ball r) = true ->
  ballInBucket (ball (snd (animate canvas inp pathPoints r))) = true.
Proof.
  intros Hc. destruct (has2d canvas) eqn:H.
  - rewrite (animate_unfold _ _ _ _ H).
    rewrite contacts_captured by exact Hc.
    cbv zeta. cbn [ball view].
    destruct (stopped (integrate (ball r))); cbn [snd ball]; exact Hc.
  - unfold animate. rewrite H. exact Hc.
Qed.

(** C5.  In the frame in which the bucket test succeeds, [animate] leaves
    the ball with both velocity components zero, at the bucket top minus the
    radius, with the latch set and the hit recorded, and the ball stays
    exactly there for the remainder of the run.  Once the latch is set the
    bucket rule, the ground rule, the path rule and the friction scaling
    each leave the state as it is, so a frame that starts from a latched
    ball changes it by the integration step only (and by the velocity snap
    when the ball is found stopped), and no number of frames clears the
    latch. *)
Theorem capture_latched :
  (forall (canvas : Canvas) (inp : Inputs) (pathPoints : list Point) (r : Run)
          (bk : Bucket),
     has2d canvas = true ->
     bucket inp = Some bk ->
     bucketContact inp r = true ->
     let out := animate canvas inp pathPoints r in
     ball (snd out)
     = {| ballX := ballX (ball r) + velocityX (ball r);
          ballY := by_ bk - bheight bk - BALL_RADIUS;
          velocityX := 0; velocityY := 0;
          onGround := true; ballInBucket := true |}
     /\ bucketHit (view (snd out)) = true
     /\ forall n, ball (snd (frames n canvas inp pathPoints out)) = ball (snd out))
  /\ (forall (inp : Inputs) (pathPoints : list Point) (r : Run),
        ballInBucket (ball r) = true ->
        bucketRule inp r = r
        /\ groundRule inp r = r
        /\ pathRule pathPoints (ball r) = ball r
        /\ frictionRule inp (ball r) = ball r)
  /\ (forall (canvas : Canvas) (inp : Inputs) (pathPoints : list Point) (r : Run),
        has2d canvas = true ->
        ballInBucket (ball r) = true ->
        let out := animate canvas inp pathPoints r in
        ballInBucket (ball (snd out)) = true
        /\ (stopped (integrate (ball r)) = true ->
            fst out = Settled /\ ball (snd out) = halt (integrate (ball r)))
        /\ (stopped (integrate (ball r)) = false ->
            fst out = Scheduled /\ ball (snd out) = integrate (ball r)))
  /\ (forall (n : nat) (canvas : Canvas) (inp : Inputs) (pathPoints : list Point)
             (sr : Status * Run),
        ballInBucket (ball (snd sr)) = true ->
        ballInBucket (ball (snd (frames n canvas inp pathPoints sr))) = true).
Proof.
  split; [|split; [|split]].
  - intros canvas inp pathPoints r bk H Hb Hc out.
    assert (Hout : fst out = Settled
                   /\ ball (snd out)
                      = {| ballX := ballX (ball r) + velocityX (ball r);
                           ballY := by_ bk - bheight bk - BALL_RADIUS;
                           velocityX := 0; velocityY := 0;
                           onGround := true; ballInBucket := true |}
                   /\ bucketHit (view (snd out)) = true).
    { unfold out. rewrite (animate_unfold _ _ _ _ H).
      rewrite (contacts_capture inp pathPoints r bk Hb Hc).
      cbv zeta. cbn [ball view].
      change (stopped _) with true. cbn iota. cbn [fst snd ball view].
      match goal with
      | |- context [evaluatePredictions ?i ?f ?v] =>
          destruct (evaluatePredictions_frame i f v) as (_ & _ & _ & _ & E5 & _)
      end.
      repeat split.
      cbn [setIsAnimating bucketHit]. rewrite E5. reflexivity. }
    destruct Hout as (Hs & Hball & Hhit).
    split; [exact Hball|]. split; [exact Hhit|].
    intros n. rewrite frames_terminal; [reflexivity|].
    rewrite Hs. discriminate.
  - intros inp pathPoints r Hc. repeat split.
    + apply bucketRule_captured; exact Hc.
    + apply groundRule_captured; exact Hc.
    + apply pathRule_captured; exact Hc.
    + apply frictionRule_captured; exact Hc.
  - intros canvas inp pathPoints r H Hc out.
    split; [apply animate_latch; exact Hc|].
    unfold out. rewrite (animate_unfold _ _ _ _ H).
    rewrite contacts_captured by exact Hc.
    cbv zeta. cbn [ball view].
    split; intros Hs; rewrite Hs; split; reflexivity.
  - induction n as [|k IH]; intros canvas inp pathPoints sr Hc; cbn [frames].
    + exact Hc.
    + destruct (fst sr); try exact Hc.
      apply IH. apply animate_latch. exact Hc.
Qed.

(** ** The ground line *)

Lemma slopeNudge_ballY (pathPoints : list Point) (b : Ball) :
  ballY (slopeNudge pathPoints b) = ballY b.
Proof.
  unfold slopeNudge.
  destruct (_ && _); [|reflexivity].
  destruct (nth_error pathPoints (S _)); [|reflexivity].
  destruct (nth_error pathPoints _); [|reflexivity].
  destruct (negb _); reflexivity.
Qed.

(** The path rule never moves the ball down. *)
Lemma pathRule_ballY (pathPoints : list Point) (b : Ball) :
  ballY (pathRule pathPoints b) <= ballY b.
Proof.
  unfold pathRule. destruct (negb (ballInBucket b)); [|apply Qle_refl].
  destruct (getCollisionPoint _ _) as [c|]; [|apply Qle_refl].
  rewrite slopeNudge_ballY.
  destruct (Qgtb (ballY b) (py c - BALL_RADIUS)) eqn:E; [|apply Qle_refl].
  cbn [ballY]. apply Qgtb_gt in E. apply Qlt_le_weak. exact E.
Qed.

Lemma frictionRule_ballY (inp : Inputs) (b : Ball) :
  ballY (frictionRule inp b) = ballY b.
Proof.
  unfold frictionRule. destruct (negb _); reflexivity.
Qed.

Lemma pathRule_latch (pathPoints : list Point) (b : Ball) :
  ballInBucket (pathRule pathPoints b) = ballInBucket b.
Proof.
  unfold pathRule. destruct (negb (ballInBucket b)); [|reflexivity].
  destruct (getCollisionPoint _ _) as [c|]; [|reflexivity].
  unfold slopeNudge.
  destruct (_ && _).
  - destruct (nth_error pathPoints (S _)).
    + destruct (nth_error pathPoints _).
      * destruct (negb _); destruct (Qgtb _ _); reflexivity.
      * destruct (Qgtb _ _); reflexivity.
    + destruct (Qgtb _ _); reflexivity.
  - destruct (Qgtb _ _); reflexivity.
Qed.

Lemma frictionRule_latch (inp : Inputs) (b : Ball) :
  ballInBucket (frictionRule inp b) = ballInBucket b.
Proof.
  unfold frictionRule. destruct (negb _); reflexivity.
Qed.

Lemma groundRule_latch (inp : Inputs) (r : Run) :
  ballInBucket (ball (groundRule inp r)) = ballInBucket (ball r).
Proof.
  unfold groundRule. destruct (groundTriggered _); reflexivity.
Qed.

(** After the ground rule a ball that is not captured is on or above the
    ground line. *)
Lemma groundRule_ballY (inp : Inputs) (r : Run) :
  ballInBucket (ball r) = false ->
  ballY (ball (groundRule inp r)) <= GROUND_Y - BALL_RADIUS.
Proof.
  intros Hn. unfold groundRule.
  destruct (groundTriggered (ball r)) eqn:E; cbn [ball ballY].
  - apply Qle_refl.
  - unfold groundTriggered in E. rewrite Hn in E. cbn [negb andb] in E.
    assert (Hlt : ballY (ball r) + BALL_RADIUS < GROUND_Y).
    { apply Qnot_le_lt. intros Hle. apply Qgeb_ge in Hle. congruence. }
    lra.
Qed.

Lemma animate_ballY (canvas : Canvas) (inp : Inputs) (pathPoints : list Point) (r : Run) :
  has2d canvas = true ->
  ballY (ball (snd (animate canvas inp pathPoints r)))
  = ballY (ball (contacts inp pathPoints {| view := view r; ball := integrate (ball r) |}))
  /\ ballInBucket (ball (snd (animate canvas inp pathPoints r)))
     = ballInBucket
         (ball (contacts inp pathPoints {| view := view r; ball := integrate (ball r) |})).
Proof.
  intros H. rewrite (animate_unfold _ _ _ _ H). cbv zeta.
  destruct (stopped _); split; reflexivity.
Qed.

(** C8.  At the end of every frame in which the ground rule fires the
    ball's [y] is at most [GROUND_Y - BALL_RADIUS]; in fact this holds at the
    end of every frame that leaves the ball uncaptured, so once the ground
    has been touched the bottom edge of the ball never ends a frame below
    the ground line. *)
Theorem ground_clamp (canvas : Canvas) (inp : Inputs) (pathPoints : list Point) (r : Run) :
  has2d canvas = true ->
  (groundContact inp r = true ->
   ballY (ball (snd (animate canvas inp pathPoints r))) <= GROUND_Y - BALL_RADIUS)
  /\ (ballInBucket (ball (snd (animate canvas inp pathPoints r))) = false ->
      ballY (ball (snd (animate canvas inp pathPoints r))) <= GROUND_Y - BALL_RADIUS).
Proof.
  intros H.
  destruct (animate_ballY canvas inp pathPoints r H) as (Ey & Eb).
  rewrite Ey, Eb. clear Ey Eb.
  unfold contacts. cbn [ball].
  rewrite frictionRule_ballY, frictionRule_latch, pathRule_latch, groundRule_latch.
  set (r1 := bucketRule inp {| view := view r; ball := integrate (ball r) |}).
  assert (Main : ballInBucket (ball r1) = false ->
                 ballY (pathRule pathPoints (ball (groundRule inp r1)))
                 <= GROUND_Y - BALL_RADIUS).
  { intros Hn. eapply Qle_trans; [apply pathRule_ballY|].
    apply groundRule_ballY. exact Hn. }
  split.
  - intros Hg. apply Main. unfold groundContact in Hg. fold r1 in Hg.
    unfold groundTriggered in Hg. apply andb_true_iff in Hg.
    destruct Hg as (Hn & _). apply negb_true_iff in Hn. exact Hn.
  - exact Main.
Qed.

(** ** Free fall *)

(** What the contact rules and the friction leave of a contact-free frame:
    the integration step, the friction on [vx], and a cleared ground flag. *)
Lemma contactFree_contacts (inp : Inputs) (pathPoints : list Point) (r : Run) :
  contactFree inp pathPoints (ball r) = true ->
  ball (contacts inp pathPoints {| view := view r; ball := integrate (ball r) |})
  = {| ballX := ballX (ball r) + velocityX (ball r);
       ballY := ballY (ball r) + (velocityY (ball r) + GRAVITY);
       velocityX := velocityX (ball r) * friction inp;
       velocityY := velocityY (ball r) + GRAVITY;
       onGround := false;
       ballInBucket := false |}.
Proof.
  destruct r as [v [x y vx vy og ib]]. unfold contactFree. cbn [ball view].
  rewrite !andb_true_iff, !negb_true_iff.
  intros (((Hib & Hbk) & Hg) & Hp).
  cbn [ballInBucket] in Hib. subst ib.
  unfold integrate in *.
  cbn [ballX ballY velocityX velocityY onGround ballInBucket] in *.
  destruct (getCollisionPoint _ pathPoints) as [c|] eqn:Ec; [discriminate Hp|].
  unfold contacts, bucketRule. cbn [ball view ballInBucket ballX ballY negb].
  rewrite Hbk.
  destruct (bucket inp);
    unfold groundRule; cbn [ball view]; unfold groundTriggered in Hg |- *;
    cbn [ballInBucket ballY negb andb] in Hg |- *; rewrite Hg; cbn [ball];
    unfold pathRule; cbn [ballInBucket negb ballX ballY]; rewrite Ec;
    reflexivity.
Qed.

(** One contact-free frame without damping lowers the mechanical energy by
    [GRAVITY * GRAVITY / 2]. *)
Lemma fall_step_energy (x y vx vy f : Q) (og ib : bool) :
  f == 1 ->
  mechanicalEnergy {| ballX := x + vx; ballY := y + (vy + GRAVITY);
                      velocityX := vx * f; velocityY := vy + GRAVITY;
                      onGround := og; ballInBucket := ib |}
  == mechanicalEnergy {| ballX := x; ballY := y; velocityX := vx; velocityY := vy;
                         onGround := og; ballInBucket := ib |}
     - GRAVITY * GRAVITY / 2.
Proof.
  intros Hf. unfold mechanicalEnergy, calculateEnergy.
  cbn [totalEnergy velocityX velocityY ballY].
  rewrite Hf. unfold BALL_MASS, GRAVITY, GROUND_Y. field.
Qed.

Lemma fallFrames_energy (n : nat) (canvas : Canvas) (inp : Inputs)
    (pathPoints : list Point) :
  has2d canvas = true ->
  friction inp == 1 ->
  forall r0 r : Run,
    fallFrames n canvas inp pathPoints r0 = Some r ->
    initialEnergyRef (view r) = initialEnergyRef (view r0)
    /\ mechanicalEnergy (ball r)
       == mechanicalEnergy (ball r0) - inject_Z (Z.of_nat n) * (GRAVITY * GRAVITY / 2)
    /\ ((0 < n)%nat ->
        energyData (view r)
        = calculateEnergy (initialEnergyRef (view r0))
            (velocityX (ball r)) (velocityY (ball r)) (ballY (ball r))).
Proof.
  intros H Hf. induction n as [|k IH]; intros r0 r Hrun.
  - cbn in Hrun. injection Hrun as <-. repeat split.
    + cbn. ring.
    + intros Hlt. inversion Hlt.
  - cbn [fallFrames] in Hrun.
    destruct (contactFree inp pathPoints (ball r0)) eqn:Hfree; [|discriminate Hrun].
    destruct (animate_energy canvas inp pathPoints r0 H) as (A1 & A2).
    assert (Hball : ball (snd (animate canvas inp pathPoints r0))
                    = ball (contacts inp pathPoints
                              {| view := view r0; ball := integrate (ball r0) |})
                      \/ fst (animate canvas inp pathPoints r0) = Settled).
    { rewrite (animate_unfold _ _ _ _ H). cbv zeta. destruct (stopped _); auto. }
    destruct (animate canvas inp pathPoints r0) as [st r1] eqn:Ea.
    cbn [fst snd] in A1, A2, Hball.
    destruct st; try discriminate Hrun.
    destruct Hball as [Hball|Hball]; [|discriminate Hball].
    rewrite (contactFree_contacts inp pathPoints r0 Hfree) in Hball.
    destruct (IH r1 r Hrun) as (I1 & I2 & I3).
    split; [congruence|]. split.
    + rewrite I2, Hball.
      destruct (ball r0) as [x y vx vy og ib].
      cbn [ballX ballY velocityX velocityY].
      assert (E := fall_step_energy x y vx vy (friction inp) false false Hf).
      unfold mechanicalEnergy in E |- *. cbn [velocityX velocityY ballY] in E |- *.
      rewrite E. rewrite Nat2Z.inj_succ. unfold Z.succ. rewrite inject_Z_plus.
      change (inject_Z 1) with 1. ring.
    + intros _. destruct k as [|j].
      * cbn in Hrun. injection Hrun as <-. exact A2.
      * rewrite <- A1. apply I3. lia.
Qed.

(** C1, as the code has it.  In a run without damping ([friction = 1]),
    every frame in which no bucket, ground or path contact triggers lowers
    the total energy by [GRAVITY * GRAVITY / 2 = 0.045]: after [n] such
    frames from the start of the run the snapshot's total is the initial
    total minus [n * 0.045], and its loss is [n * 0.045]. *)
Theorem free_fall_energy (n : nat) (canvas : Canvas) (inp : Inputs) (v : View) (r : Run) :
  has2d canvas = true ->
  friction inp == 1 ->
  (0 < n)%nat ->
  fallFrames n canvas inp (fst (startRun canvas inp v)) (snd (startRun canvas inp v))
  = Some r ->
  totalEnergy (energyData (view r))
  == initialEnergyRef (view r) - inject_Z (Z.of_nat n) * (GRAVITY * GRAVITY / 2)
  /\ energyLoss (energyData (view r))
     == inject_Z (Z.of_nat n) * (GRAVITY * GRAVITY / 2)
  /\ initialEnergyRef (view r) = mechanicalEnergy (ball (snd (startRun canvas inp v))).
Proof.
  intros H Hf Hn Hrun.
  destruct (fallFrames_energy n canvas inp _ H Hf _ _ Hrun) as (E1 & E2 & E3).
  specialize (E3 Hn).
  assert (E0 : initialEnergyRef (view (snd (startRun canvas inp v)))
               = mechanicalEnergy (ball (snd (startRun canvas inp v)))) by reflexivity.
  assert (Et : totalEnergy (energyData (view r)) = mechanicalEnergy (ball r))
    by (rewrite E3; reflexivity).
  assert (El : energyLoss (energyData (view r))
               = initialEnergyRef (view r) - totalEnergy (energyData (view r)))
    by (rewrite E3, E1; reflexivity).
  split; [|split].
  - rewrite Et, E2, E1, E0. reflexivity.
  - rewrite El, Et, E2, E1, E0. ring.
  - rewrite E1. exact E0.
Qed.

Lemma free_fall_energy_witness :
  match fallFrames 3 demoCanvas (demoInputs ledgePath 1 None noPredictions)
          (fst (startRun demoCanvas (demoInputs ledgePath 1 None noPredictions) idleView))
          (snd (startRun demoCanvas (demoInputs ledgePath 1 None noPredictions) idleView))
  with
  | Some r => energyLoss (energyData (view r)) == 135 # 1000
  | None => False
  end.
Proof.
  destruct (fallFrames 3 _ _ _ _) as [r|] eqn:E.
  - destruct (free_fall_energy 3 demoCanvas (demoInputs ledgePath 1 None noPredictions)
                idleView r eq_refl (Qeq_refl 1) (Nat.lt_0_succ 2) E) as (_ & El & _).
    rewrite El. reflexivity.
  - vm_compute in E. discriminate E.
Defined.

(** C1 as stated fails: with [friction = 1] the first frame of this run
    meets no bucket, ground or path, and the total energy computed after it
    is 181.955 against an initial total of 182.  The gap, 0.045, is the
    integrator's own and grows by as much with every further frame. *)
Lemma free_fall_loses_energy :
  exists r,
    runSimulation (Some demoCanvas) (demoInputs ledgePath 1 None noPredictions) idleView
    = Launched (getPathPoints ledgePath) Scheduled r
    /\ contactFree (demoInputs ledgePath 1 None noPredictions) (getPathPoints ledgePath)
         (ball (snd (startRun demoCanvas (demoInputs ledgePath 1 None noPredictions)
                       idleView)))
       = true
    /\ initialEnergyRef (view r) == 182
    /\ totalEnergy (energyData (view r)) == 181955 # 1000
    /\ initialEnergyRef (view r) - totalEnergy (energyData (view r)) == 45 # 1000.
Proof.
  eexists. split; [vm_compute; reflexivity|]. vm_compute. repeat split.
Qed.

(** ** The properties at sample configurations *)

Lemma energy_snapshot_witness :
  energyLoss (calculateEnergy 182 2 (3 # 10) (503 # 10))
  == 182 - totalEnergy (calculateEnergy 182 2 (3 # 10) (503 # 10))
  /\ initialEnergyRef
       (view (snd (frames 2 demoCanvas ledgeInputs
                     (fst (startRun demoCanvas ledgeInputs idleView))
                     (animate demoCanvas ledgeInputs
                        (fst (startRun demoCanvas ledgeInputs idleView))
                        (snd (startRun demoCanvas ledgeInputs idleView))))))
     = mechanicalEnergy (ball (snd (startRun demoCanvas ledgeInputs idleView))).
Proof.
  split.
  - apply (proj1 energy_snapshot).
  - apply (proj2 energy_snapshot demoCanvas ledgeInputs idleView 2%nat eq_refl).
Defined.


Lemma settle_rule_witness :
  fst (animate demoCanvas ledgeInputs (getPathPoints ledgePath)
         (runOf (restingBall 100 635 (5 # 100) 0)))
  = Settled
  /\ fst (animate demoCanvas ledgeInputs (getPathPoints ledgePath)
            (runOf (restingBall 100 300 2 0)))
     <> Settled.
Proof.
  split.
  - apply (proj1 (settle_rule demoCanvas ledgeInputs (getPathPoints ledgePath)
                    (runOf (restingBall 100 635 (5 # 100) 0)) eq_refl)).
    split; vm_compute; reflexivity.
  - apply (proj2 (settle_rule demoCanvas ledgeInputs (getPathPoints ledgePath)
                    (runOf (restingBall 100 300 2 0)) eq_refl)).
    left. vm_compute. discriminate.
Defined.

Lemma capture_settles_witness :
  fst (animate demoCanvas bucketInputs (getPathPoints ledgePath)
         (runOf (restingBall 300 580 0 0)))
  = Settled
  /\ ballY (ball (snd (animate demoCanvas bucketInputs (getPathPoints ledgePath)
                         (runOf (restingBall 300 580 0 0)))))
     = GROUND_Y - BUCKET_HEIGHT - BALL_RADIUS.
Proof.
  destruct (capture_settles demoCanvas bucketInputs (getPathPoints ledgePath)
              (runOf (restingBall 300 580 0 0)) demoBucket eq_refl eq_refl eq_refl)
    as (Hs & Hb & _).
  split; [exact Hs|]. rewrite Hb. reflexivity.
Defined.

Lemma capture_latched_witness :
  ball (snd (animate demoCanvas bucketInputs (getPathPoints ledgePath)
               (runOf (restingBall 300 (5803 # 10) 0 (3 # 10)))))
  = {| ballX := 300 + 0; ballY := by_ demoBucket - bheight demoBucket - BALL_RADIUS;
       velocityX := 0; velocityY := 0; onGround := true; ballInBucket := true |}
  /\ groundRule bucketInputs (runOf capturedBall) = runOf capturedBall
  /\ ball (snd (animate demoCanvas bucketInputs (getPathPoints ledgePath)
                  (runOf capturedBall)))
     = integrate capturedBall.
Proof.
  split; [|split].
  - apply (proj1 capture_latched demoCanvas bucketInputs (getPathPoints ledgePath)
             (runOf (restingBall 300 (5803 # 10) 0 (3 # 10))) demoBucket);
      reflexivity.
  - apply (proj1 (proj2 capture_latched) bucketInputs (getPathPoints ledgePath)
             (runOf capturedBall)).
    reflexivity.
  - apply (proj2 (proj2 (proj1 (proj2 (proj2 capture_latched)) demoCanvas bucketInputs
                             (getPathPoints ledgePath) (runOf capturedBall)
                             eq_refl eq_refl))).
    reflexivity.
Defined.

Lemma ground_clamp_witness :
  ballY (ball (snd (animate demoCanvas ledgeInputs (getPathPoints ledgePath)
                      (runOf (restingBall 100 634 0 2)))))
  <= GROUND_Y - BALL_RADIUS.
Proof.
  apply (proj1 (ground_clamp demoCanvas ledgeInputs (getPathPoints ledgePath)
                  (runOf (restingBall 100 634 0 2)) eq_refl)).
  reflexivity.
Defined.

(** * Further properties of the scorer *)

Lemma nleb_fin (x y : Q) : nleb (Fin x) (Fin y) = true <-> x <= y.
Proof.
  unfold nleb. cbn [nltb neqb]. rewrite orb_true_iff, Qltb_lt, Qeq_bool_iff.
  split.
  - intros [H|H]; [apply Qlt_le_weak; exact H | rewrite H; apply Qle_refl].
  - intros H. apply Qle_lt_or_eq in H. exact H.
Qed.

Lemma correct_nonzero_actual (p a : Q) :
  ~ a == 0 ->
  isPredictionCorrect (Fin p) (Fin a)
  = nleb (Fin (Qabs ((p - a) / a) * 100)) (Fin TOLERANCE_PERCENTAGE).
Proof.
  intros Ha. unfold isPredictionCorrect.
  assert (E : Qeq_bool a 0 = false) by (apply Qeq_bool_false; exact Ha).
  simpl neqb. rewrite E. simpl. rewrite E. reflexivity.
Qed.

Lemma Qabs_nonzero (a : Q) : ~ a == 0 -> 0 < Qabs a.
Proof.
  intros Ha. apply Qabs_case; intros H; lra.
Qed.

(** The relative error, in percent, against the tolerance [t]. *)
Lemma relative_error_le (p a t : Q) :
  ~ a == 0 ->
  (Qabs ((p - a) / a) * 100 <= t <-> Qabs (p - a) * 100 <= t * Qabs a).
Proof.
  intros Ha.
  assert (Hpos : 0 < Qabs a) by (apply Qabs_nonzero; exact Ha).
  rewrite Qabs_Qdiv.
  set (u := Qabs (p - a)) in *. set (w := Qabs a) in *.
  assert (Eu : u == u / w * w) by (field; intros H; rewrite H in Hpos; inversion Hpos).
  split; intros H.
  - rewrite Eu at 1.
    setoid_replace (u / w * w * 100) with (u / w * 100 * w) by ring.
    apply Qmult_le_compat_r; [exact H | apply Qlt_le_weak; exact Hpos].
  - setoid_replace (u / w * 100) with (u * 100 / w)
      by (field; intros H0; rewrite H0 in Hpos; inversion Hpos).
    apply Qle_shift_div_r; assumption.
Qed.

(** On exact numbers the test for a non-zero actual value is
    [100 * |predicted - actual| <= 10 * |actual|]. *)
Lemma correct_exact (p a : Q) :
  ~ a == 0 ->
  (isPredictionCorrect (Fin p) (Fin a) = true <-> Qabs (p - a) * 100 <= 10 * Qabs a).
Proof.
  intros Ha. rewrite correct_nonzero_actual by exact Ha.
  rewrite nleb_fin. apply relative_error_le. exact Ha.
Qed.

(** X1.  On finite numbers a prediction is correct, for an actual value of
    0, exactly when its magnitude is below 0.1.  For a non-zero actual
    value it is correct when its relative error is at most 9.999999 percent
    and incorrect when its relative error is at least 10.000001 percent;
    between the two bounds the outcome of the source depends on the
    rounding of the quotient.  The exact prediction is always correct. *)
Theorem correct_cases (p a : Q) :
  (a == 0 -> (isPredictionCorrect (Fin p) (Fin a) = true <-> Qabs p < 1 # 10))
  /\ (~ a == 0 ->
      Qabs (p - a) * 100 <= (9999999 # 1000000) * Qabs a ->
      isPredictionCorrect (Fin p) (Fin a) = true)
  /\ (~ a == 0 ->
      (10000001 # 1000000) * Qabs a <= Qabs (p - a) * 100 ->
      isPredictionCorrect (Fin p) (Fin a) = false)
  /\ isPredictionCorrect (Fin a) (Fin a) = true.
Proof.
  split; [|split; [|split]].
  - intros Ha. unfold isPredictionCorrect. simpl neqb.
    apply Qeq_bool_iff in Ha. rewrite Ha. cbn [nabs nltb]. apply Qltb_lt.
  - intros Ha H. apply (correct_exact p a Ha).
    pose proof (Qabs_nonneg a). lra.
  - intros Ha H.
    destruct (isPredictionCorrect (Fin p) (Fin a)) eqn:E; [|reflexivity].
    apply (correct_exact p a Ha) in E.
    pose proof (Qabs_nonzero a Ha). lra.
  - destruct (Qeq_dec a 0) as [Ha|Ha].
    + unfold isPredictionCorrect. simpl neqb.
      pose proof Ha as Hb. apply Qeq_bool_iff in Hb. rewrite Hb.
      cbn [nabs nltb]. apply Qltb_lt. rewrite Ha. reflexivity.
    + apply (correct_exact a a Ha).
      setoid_replace (a - a) with 0 by ring.
      pose proof (Qabs_nonneg a). change (Qabs 0) with 0. lra.
Qed.

Lemma correct_cases_witness :
  (isPredictionCorrect (Fin (5 # 100)) (Fin 0) = true <-> Qabs (5 # 100) < 1 # 10)
  /\ isPredictionCorrect (Fin (109 # 10)) (Fin 10) = true
  /\ isPredictionCorrect (Fin (111 # 10)) (Fin 10) = false.
Proof.
  split; [|split].
  - apply (proj1 (correct_cases (5 # 100) 0)). reflexivity.
  - apply (proj1 (proj2 (correct_cases (109 # 10) 10))).
    + intro H; discriminate H.
    + vm_compute. discriminate.
  - apply (proj1 (proj2 (proj2 (correct_cases (111 # 10) 10)))).
    + intro H; discriminate H.
    + vm_compute. discriminate.
Defined.

Lemma nmax_zero_cases (x : Q) :
  (0 < x /\ nmax (Fin 0) (Fin x) = Fin x) \/ (x <= 0 /\ nmax (Fin 0) (Fin x) = Fin 0).
Proof.
  cbn [nmax nltb]. destruct (Qltb 0 x) eqn:E.
  - left. split; [apply Qltb_lt; exact E | reflexivity].
  - right. split; [apply Qltb_ge; exact E | reflexivity].
Qed.

(** X2.  For a non-zero actual value the correctness flag and the accuracy
    go together: a correct prediction has an accuracy of at least 90, and
    a prediction whose accuracy is above 90 is correct.  For an actual
    value of 0 they can part: a non-zero prediction of magnitude below 0.1
    is marked correct and has accuracy 0. *)
Theorem correct_vs_accuracy (p a : Q) :
  (~ a == 0 ->
   isPredictionCorrect (Fin p) (Fin a) = true ->
   exists q, calculatePredictionAccuracy (Fin p) (Fin a) = Fin q /\ 90 <= q)
  /\ (~ a == 0 ->
      forall q, calculatePredictionAccuracy (Fin p) (Fin a) = Fin q -> 90 < q ->
                isPredictionCorrect (Fin p) (Fin a) = true)
  /\ (a == 0 -> ~ p == 0 -> Qabs p < 1 # 10 ->
      isPredictionCorrect (Fin p) (Fin a) = true
      /\ calculatePredictionAccuracy (Fin p) (Fin a) = Fin 0).
Proof.
  split; [|split].
  - intros Ha.
    rewrite correct_nonzero_actual, accuracy_nonzero_actual by exact Ha.
    rewrite nleb_fin. unfold TOLERANCE_PERCENTAGE.
    set (x := Qabs ((p - a) / a) * 100).
    destruct (nmax_zero_cases (100 - x)) as [(Hx & ->)|(Hx & ->)]; intros H.
    + exists (100 - x). split; [reflexivity | lra].
    + lra.
  - intros Ha q.
    rewrite correct_nonzero_actual, accuracy_nonzero_actual by exact Ha.
    rewrite nleb_fin. unfold TOLERANCE_PERCENTAGE.
    set (x := Qabs ((p - a) / a) * 100).
    destruct (nmax_zero_cases (100 - x)) as [(Hx & ->)|(Hx & ->)];
      intros Hq H90; injection Hq as <-; lra.
  - intros Ha Hp Hsmall. unfold isPredictionCorrect, calculatePredictionAccuracy.
    simpl neqb. apply Qeq_bool_iff in Ha. apply Qeq_bool_false in Hp.
    rewrite Ha, Hp. split; [|reflexivity].
    cbn [nabs nltb]. apply Qltb_lt. exact Hsmall.
Qed.

Lemma correct_vs_accuracy_witness :
  (exists q, calculatePredictionAccuracy (Fin 11) (Fin 10) = Fin q /\ 90 <= q)
  /\ isPredictionCorrect (Fin (105 # 10)) (Fin 10) = true
  /\ isPredictionCorrect (Fin (5 # 100)) (Fin 0) = true
  /\ calculatePredictionAccuracy (Fin (5 # 100)) (Fin 0) = Fin 0.
Proof.
  split; [|split].
  - apply (proj1 (correct_vs_accuracy 11 10)).
    + intro H; discriminate H.
    + reflexivity.
  - refine (proj1 (proj2 (correct_vs_accuracy (105 # 10) 10)) _ _ eq_refl _).
    + intro H; discriminate H.
    + reflexivity.
  - apply (proj2 (proj2 (correct_vs_accuracy (5 # 100) 0))).
    + reflexivity.
    + intro H; discriminate H.
    + reflexivity.
Defined.

Lemma Qabs_zero_iff (x : Q) : Qabs x == 0 <-> x == 0.
Proof.
  split; intros H.
  - revert H. apply Qabs_case; intros H0 H; lra.
  - rewrite H. reflexivity.
Qed.

(** X3.  On finite numbers the accuracy is at most 100, and for a non-zero
    actual value it is 100 only for the exact prediction. *)
Theorem accuracy_at_most_100 (p a : Q) :
  (exists q, calculatePredictionAccuracy (Fin p) (Fin a) = Fin q /\ q <= 100)
  /\ (~ a == 0 ->
      (isNum (calculatePredictionAccuracy (Fin p) (Fin a)) 100 <-> p == a)).
Proof.
  split.
  - destruct (Qeq_bool a 0) eqn:Ea.
    + unfold calculatePredictionAccuracy. simpl neqb. rewrite Ea.
      destruct (Qeq_bool p 0); eexists; split; try reflexivity; lra.
    + apply Qeq_bool_false in Ea. rewrite accuracy_nonzero_actual by exact Ea.
      assert (Hx : 0 <= Qabs ((p - a) / a)) by apply Qabs_nonneg.
      destruct (nmax_zero_cases (100 - Qabs ((p - a) / a) * 100)) as [(H & ->)|(H & ->)];
        eexists; split; try reflexivity; lra.
  - intros Ha. rewrite accuracy_nonzero_actual by exact Ha.
    assert (Hx : 0 <= Qabs ((p - a) / a)) by apply Qabs_nonneg.
    assert (Hz : Qabs ((p - a) / a) == 0 <-> p == a).
    { rewrite Qabs_zero_iff. split; intros H.
      - assert (E : p - a == (p - a) / a * a) by (field; exact Ha).
        rewrite H in E. lra.
      - rewrite H. field. exact Ha. }
    destruct (nmax_zero_cases (100 - Qabs ((p - a) / a) * 100)) as [(H & ->)|(H & ->)];
      cbn [isNum]; rewrite <- Hz; split; intros H1; lra.
Qed.

Lemma accuracy_at_most_100_witness :
  isNum (calculatePredictionAccuracy (Fin 7) (Fin 7)) 100 <-> 7 == 7.
Proof.
  apply (proj2 (accuracy_at_most_100 7 7)). intro H; discriminate H.
Defined.

(** X4.  The results come in the fixed order of the four metrics, one for
    each entry that is not empty; the results dialog is opened exactly when
    at least one entry is populated, and is otherwise left as it was. *)
Theorem results_follow_table (inp : Inputs) (final : EnergyData) (v : View) :
  map metric (predictionResults (evaluatePredictions inp final v))
  = map (fun e => fst (fst e))
        (filter (fun e => truthy (snd (fst e)))
                (metricTable (initialEnergyRef v) (predictions inp) final))
  /\ showResultsModal (evaluatePredictions inp final v)
     = (if truthy (p_initialTotalEnergy (predictions inp))
           || truthy (p_finalTotalEnergy (predictions inp))
           || truthy (p_energyLoss (predictions inp))
           || truthy (p_efficiency (predictions inp))
        then true else showResultsModal v).
Proof.
  unfold evaluatePredictions, predictionResultsOf, metricTable, scoreEntry.
  cbn [filter fst snd].
  destruct (truthy (p_initialTotalEnergy (predictions inp)));
    destruct (truthy (p_finalTotalEnergy (predictions inp)));
    destruct (truthy (p_energyLoss (predictions inp)));
    destruct (truthy (p_efficiency (predictions inp)));
    split; reflexivity.
Qed.

(** The results a settled frame leaves in the state. *)
Lemma settled_results (canvas : Canvas) (inp : Inputs) (pathPoints : list Point) (r : Run) :
  has2d canvas = true ->
  fst (animate canvas inp pathPoints r) = Settled ->
  predictionResults (view (snd (animate canvas inp pathPoints r)))
  = predictionResultsOf (initialEnergyRef (view r)) (predictions inp)
      (calculateEnergy (initialEnergyRef (view r)) 0 0
         (ballY (ball (snd (animate canvas inp pathPoints r))))).
Proof.
  intros H. rewrite (animate_unfold _ _ _ _ H). cbv zeta.
  remember (contacts inp pathPoints {| view := view r; ball := integrate (ball r) |})
    as r2 eqn:E.
  assert (Href : initialEnergyRef (view r2) = initialEnergyRef (view r))
    by (rewrite E, contacts_ref; reflexivity).
  clear E.
  destruct (stopped (ball r2)); [|discriminate].
  intros _. cbn [snd view ball setIsAnimating predictionResults].
  rewrite evaluatePredictions_results. cbn. rewrite Href. reflexivity.
Qed.

Lemma efficiency_entry (ref : Q) (preds : PredictionData) (final : EnergyData)
    (r : PredictionResult) :
  In r (predictionResultsOf ref preds final) ->
  metric r = "Efficiency"%string ->
  actual r = nmul (ndiv (nsub (Fin ref) (Fin (energyLoss final))) (Fin ref)) (Fin 100).
Proof.
  rewrite predictionResultsOf_table. intros Hin Hm.
  apply in_flat_map in Hin. destruct Hin as (e & He & Hr).
  apply scoreEntry_In in Hr. destruct Hr as (_ & ->). cbn [metric actual] in *.
  unfold metricTable in He. cbn [In] in He.
  destruct He as [<-|[<-|[<-|[<-|[]]]]]; cbn [fst snd] in *;
    try discriminate Hm.
  reflexivity.
Qed.

(** X5.  A run starts with the energy of a ball at height 600 above the
    ground line: the initial total is [(vx^2 + vy^2) / 2 + 180], at least
    180 whatever the path and the speeds.  So the efficiency never divides
    by zero in a run: in a settled frame the actual value of the efficiency
    entry is the final total as a percentage of the initial total. *)
Theorem efficiency_of_run :
  (forall (canvas : Canvas) (inp : Inputs) (v : View),
     initialEnergyRef (view (snd (startRun canvas inp v)))
     == (1 # 2) * (velocityX (ball (snd (startRun canvas inp v)))
                   * velocityX (ball (snd (startRun canvas inp v)))
                   + velocityY (ball (snd (startRun canvas inp v)))
                     * velocityY (ball (snd (startRun canvas inp v))))
        + 180
     /\ 180 <= initialEnergyRef (view (snd (startRun canvas inp v))))
  /\ (forall (canvas : Canvas) (inp : Inputs) (pathPoints : list Point) (r : Run)
             (res : PredictionResult),
        has2d canvas = true ->
        0 < initialEnergyRef (view r) ->
        fst (animate canvas inp pathPoints r) = Settled ->
        In res (predictionResults (view (snd (animate canvas inp pathPoints r)))) ->
        metric res = "Efficiency"%string ->
        finalEnergyData (view (snd (animate canvas inp pathPoints r)))
        = Some (calculateEnergy (initialEnergyRef (view r)) 0 0
                  (ballY (ball (snd (animate canvas inp pathPoints r)))))
        /\ isNum (actual res)
                 (totalEnergy (calculateEnergy (initialEnergyRef (view r)) 0 0
                                 (ballY (ball (snd (animate canvas inp pathPoints r)))))
                  / initialEnergyRef (view r) * 100)).
Proof.
  split.
  - intros canvas inp v. unfold startRun.
    cbn [snd view ball setInitialEnergyRef initialEnergyRef velocityX velocityY].
    unfold calculateEnergy. cbn [totalEnergy].
    unfold BALL_MASS, GRAVITY, GROUND_Y.
    set (vx := match speedControlMode inp with
               | combined => initialVelocity inp
               | separate => horizontalSpeed inp
               end).
    set (vy := match speedControlMode inp with
               | combined => 0
               | separate => verticalSpeed inp
               end).
    assert (Hx : 0 <= vx * vx) by nra.
    assert (Hy : 0 <= vy * vy) by nra.
    split; [ring | lra].
  - intros canvas inp pathPoints r res H Hpos Hs Hin Hm.
    split.
    + revert Hs. rewrite (animate_unfold _ _ _ _ H). cbv zeta.
      remember (contacts inp pathPoints {| view := view r; ball := integrate (ball r) |})
        as r2 eqn:E.
      assert (Href : initialEnergyRef (view r2) = initialEnergyRef (view r))
        by (rewrite E, contacts_ref; reflexivity).
      clear E.
      destruct (stopped (ball r2)); [|discriminate].
      intros _. cbn [snd view ball setIsAnimating finalEnergyData].
      match goal with
      | |- context [evaluatePredictions ?i ?f ?v] =>
          destruct (evaluatePredictions_frame i f v) as (_ & _ & E3 & _)
      end.
      rewrite E3. cbn. rewrite Href. reflexivity.
    + rewrite (settled_results _ _ _ _ H Hs) in Hin.
      rewrite (efficiency_entry _ _ _ _ Hin Hm).
      set (y := ballY (ball (snd (animate canvas inp pathPoints r)))).
      set (ref := initialEnergyRef (view r)) in *.
      assert (Hne : Qeq_bool ref 0 = false) by (apply Qeq_bool_false; lra).
      cbn [nsub ndiv]. rewrite Hne. cbn [nmul isNum].
      unfold calculateEnergy. cbn [energyLoss totalEnergy].
      field. lra.
Qed.

Lemma efficiency_of_run_witness :
  match predictionResults
          (view (snd (animate demoCanvas efficiencyInputs (getPathPoints ledgePath)
                        (runOf (restingBall 100 635 (5 # 100) 0)))))
  with
  | [res] =>
      isNum (actual res)
            (totalEnergy
               (calculateEnergy 182 0 0
                  (ballY (ball (snd (animate demoCanvas efficiencyInputs
                                       (getPathPoints ledgePath)
                                       (runOf (restingBall 100 635 (5 # 100) 0)))))))
             / 182 * 100)
  | _ => False
  end.
Proof.
  destruct (predictionResults _) as [|res [|res' rest]] eqn:E;
    try (vm_compute in E; discriminate E).
  apply (proj2 efficiency_of_run demoCanvas efficiencyInputs (getPathPoints ledgePath)
           (runOf (restingBall 100 635 (5 # 100) 0)) res eq_refl).
  - reflexivity.
  - vm_compute. reflexivity.
  - rewrite E. left. reflexivity.
  - vm_compute in E. injection E as <-. reflexivity.
Defined.

(** * Further properties of the geometry resolver *)

Lemma sum_squares_nonneg (a b : Q) : 0 <= a * a + b * b.
Proof.
  assert (0 <= a * a) by nra. assert (0 <= b * b) by nra. lra.
Qed.

Lemma lerp_start (p1 p2 : Point) (steps : nat) : samePoint (lerp p1 p2 steps 0) p1.
Proof.
  unfold samePoint, lerp. cbn [px py Z.of_nat]. unfold Qdiv.
  change (inject_Z 0) with 0. split; ring.
Qed.

Lemma segmentPoints_head (segment : PathSegment) (p1 p2 : Point) (tl : list Point) :
  seg_points segment = p1 :: p2 :: tl ->
  exists q more, segmentPoints segment = q :: more /\ samePoint q p1.
Proof.
  intros Hp. unfold segmentPoints. rewrite Hp.
  destruct (seg_type segment); cbn [pairs flat_map fst snd]; unfold subdivide;
    cbn [seq map app]; eexists; eexists; (split; [reflexivity | apply lerp_start]).
Qed.

Lemma segmentPoints_short (segment : PathSegment) :
  (List.length (seg_points segment) < 2)%nat -> segmentPoints segment = [].
Proof.
  intros H. unfold segmentPoints.
  destruct (seg_points segment) as [|a [|b l]]; cbn in H; try lia;
    destruct (seg_type segment); reflexivity.
Qed.

Lemma getPathPoints_head (segment : PathSegment) (rest : list PathSegment)
    (p1 p2 : Point) (tl : list Point) :
  seg_points segment = p1 :: p2 :: tl ->
  exists q more, getPathPoints (segment :: rest) = q :: more /\ samePoint q p1.
Proof.
  intros Hp.
  destruct (segmentPoints_head segment p1 p2 tl Hp) as (q & more & E & Hq).
  exists q, (more ++ getPathPoints rest). split; [|exact Hq].
  unfold getPathPoints. cbn [flat_map]. rewrite E. reflexivity.
Qed.

(** X8.  Sampling keeps the order of the path: the samples of a path are
    those of its first segment followed by those of the rest.  A segment
    with fewer than two points contributes no sample, and a path that
    begins with a segment of at least two points has a first sample, which
    is the first control point of that segment. *)
Theorem path_samples_start (segment : PathSegment) (rest : list PathSegment) :
  getPathPoints (segment :: rest) = segmentPoints segment ++ getPathPoints rest
  /\ ((List.length (seg_points segment) < 2)%nat ->
      getPathPoints (segment :: rest) = getPathPoints rest)
  /\ (forall p1 p2 tl,
        seg_points segment = p1 :: p2 :: tl ->
        exists q more, getPathPoints (segment :: rest) = q :: more /\ samePoint q p1).
Proof.
  split; [reflexivity|]. split.
  - intros H. unfold getPathPoints. cbn [flat_map].
    rewrite (segmentPoints_short segment H). reflexivity.
  - intros p1 p2 tl Hp. apply (getPathPoints_head segment rest p1 p2 tl Hp).
Qed.

Lemma path_samples_start_witness :
  getPathPoints ({| seg_type := line; seg_points := [pt 100 100] |} :: ledgePath)
  = getPathPoints ledgePath
  /\ exists q more, getPathPoints ledgePath = q :: more /\ samePoint q (pt 100 600).
Proof.
  split.
  - apply (proj1 (proj2 (path_samples_start
                           {| seg_type := line; seg_points := [pt 100 100] |} ledgePath))).
    cbn. lia.
  - apply (proj2 (proj2 (path_samples_start
                           {| seg_type := line; seg_points := [pt 100 600; pt 200 600] |}
                           [])) (pt 100 600) (pt 200 600) []).
    reflexivity.
Defined.

(** X9.  A run starts the ball at height 50, airborne and uncaptured, with
    the speeds of the chosen speed mode.  Its [x] is that of the first
    control point of a path that begins with a segment of at least two
    points, except that a first [x] of 0 counts as missing: the ball then
    starts at the middle of the canvas, as it does on an empty sampled
    path. *)
Theorem ball_start (canvas : Canvas) (inp : Inputs) (v : View) :
  ballY (ball (snd (startRun canvas inp v))) = 50
  /\ onGround (ball (snd (startRun canvas inp v))) = false
  /\ ballInBucket (ball (snd (startRun canvas inp v))) = false
  /\ (getPathPoints (path inp) = [] ->
      ballX (ball (snd (startRun canvas inp v))) = cwidth canvas / 2)
  /\ (forall segment rest p1 p2 tl,
        path inp = segment :: rest ->
        seg_points segment = p1 :: p2 :: tl ->
        (~ px p1 == 0 -> ballX (ball (snd (startRun canvas inp v))) == px p1)
        /\ (px p1 == 0 -> ballX (ball (snd (startRun canvas inp v))) = cwidth canvas / 2)).
Proof.
  unfold startRun. cbn [snd ball ballX ballY onGround ballInBucket].
  split; [reflexivity|]. split; [reflexivity|]. split; [reflexivity|]. split.
  - intros ->. reflexivity.
  - intros segment rest p1 p2 tl Hpath Hp. rewrite Hpath.
    destruct (getPathPoints_head segment rest p1 p2 tl Hp) as (q & more & E & Hq & _).
    rewrite E. split.
    + intros Hne. assert (Hq0 : Qeq_bool (px q) 0 = false).
      { apply Qeq_bool_false. rewrite Hq. exact Hne. }
      rewrite Hq0. exact Hq.
    + intros Hz. assert (Hq0 : Qeq_bool (px q) 0 = true).
      { apply Qeq_bool_iff. rewrite Hq. exact Hz. }
      rewrite Hq0. reflexivity.
Qed.

Lemma ball_start_witness :
  ballX (ball (snd (startRun demoCanvas ledgeInputs idleView))) == 100
  /\ ballX (ball (snd (startRun demoCanvas
                         (demoInputs
                            [ {| seg_type := line; seg_points := [pt 0 300; pt 200 600] |} ]
                            (98 # 100) None noPredictions)
                         idleView)))
     = cwidth demoCanvas / 2.
Proof.
  split.
  - apply (proj1 (proj2 (proj2 (proj2 (proj2 (ball_start demoCanvas ledgeInputs idleView))))
                   {| seg_type := line; seg_points := [pt 100 600; pt 200 600] |} []
                   (pt 100 600) (pt 200 600) [] eq_refl eq_refl)).
    intro H; discriminate H.
  - apply (proj2 (proj2 (proj2 (proj2 (proj2
             (ball_start demoCanvas
                (demoInputs
                   [ {| seg_type := line; seg_points := [pt 0 300; pt 200 600] |} ]
                   (98 # 100) None noPredictions)
                idleView))))
             {| seg_type := line; seg_points := [pt 0 300; pt 200 600] |} []
             (pt 0 300) (pt 200 600) [] eq_refl eq_refl)).
    reflexivity.
Defined.

(** ** The closest point of a sub-segment *)

Lemma square_nonneg (x : Q) : 0 <= x * x.
Proof. nra. Qed.

Lemma square_zero (x : Q) : x * x == 0 -> x == 0.
Proof.
  intros H. destruct (Qmult_integral _ _ H); assumption.
Qed.

(** The squared distance from the ball to the point at parameter [s], as a
    polynomial in [s]. *)
Lemma sqDist_pointAt (b p1 p2 : Point) (s : Q) :
  sqDist b (pointAt p1 p2 s)
  == sqDist b p1
     - 2 * s * ((px b - px p1) * (px p2 - px p1) + (py b - py p1) * (py p2 - py p1))
     + s * s * ((px p2 - px p1) * (px p2 - px p1) + (py p2 - py p1) * (py p2 - py p1)).
Proof.
  unfold sqDist, pointAt. cbn [px py]. ring.
Qed.

Lemma pointAt_0 (p1 p2 : Point) : samePoint p1 (pointAt p1 p2 0).
Proof.
  unfold samePoint, pointAt. cbn [px py]. split; ring.
Qed.

Lemma pointAt_1 (p1 p2 : Point) : samePoint p2 (pointAt p1 p2 1).
Proof.
  unfold samePoint, pointAt. cbn [px py]. split; ring.
Qed.

Lemma sqDist_samePoint (b c d : Point) : samePoint c d -> sqDist b c == sqDist b d.
Proof.
  intros (Hx & Hy). unfold sqDist. rewrite Hx, Hy. reflexivity.
Qed.

(** The three cases of [closestOnPair], with the parameter it settles on. *)
Lemma closestOnPair_cases (b p1 p2 : Point) :
  let dot := (px b - px p1) * (px p2 - px p1) + (py b - py p1) * (py p2 - py p1) in
  let lenSq := (px p2 - px p1) * (px p2 - px p1) + (py p2 - py p1) * (py p2 - py p1) in
  (lenSq == 0 /\ closestOnPair b p1 p2 = {| px := px p1; py := py p1 |})
  \/ (0 < lenSq /\ dot < 0 /\ closestOnPair b p1 p2 = {| px := px p1; py := py p1 |})
  \/ (0 < lenSq /\ lenSq < dot /\ closestOnPair b p1 p2 = {| px := px p2; py := py p2 |})
  \/ (0 < lenSq /\ 0 <= dot <= lenSq
      /\ closestOnPair b p1 p2 = pointAt p1 p2 (dot / lenSq)).
Proof.
  intros dot lenSq. unfold closestOnPair. fold dot. fold lenSq.
  assert (Hnn : 0 <= lenSq) by apply sum_squares_nonneg.
  destruct (Qeq_bool lenSq 0) eqn:E0; cbn [negb].
  - left. split; [apply Qeq_bool_iff; exact E0 | reflexivity].
  - right. apply Qeq_bool_false in E0.
    assert (Hpos : 0 < lenSq) by lra.
    assert (Ed : dot == dot / lenSq * lenSq) by (field; exact E0).
    destruct (Qltb (dot / lenSq) 0) eqn:E1.
    + left. apply Qltb_lt in E1. repeat split; try assumption. nra.
    + right. apply Qltb_ge in E1. destruct (Qgtb (dot / lenSq) 1) eqn:E2.
      * left. apply Qgtb_gt in E2. repeat split; try assumption. nra.
      * right. unfold Qgtb in E2. apply negb_false_iff, Qle_bool_iff in E2.
        repeat split; try assumption; nra.
Qed.

(** X10.  The contact candidate of a sub-segment lies on the sub-segment,
    between its two points, and no point of the sub-segment is closer to
    the ball. *)
Theorem closest_point_on_pair (b p1 p2 : Point) :
  (exists t, 0 <= t <= 1 /\ samePoint (closestOnPair b p1 p2) (pointAt p1 p2 t))
  /\ (forall s, 0 <= s <= 1 ->
                sqDist b (closestOnPair b p1 p2) <= sqDist b (pointAt p1 p2 s)).
Proof.
  pose proof (closestOnPair_cases b p1 p2) as Hc. cbv zeta in Hc.
  set (dot := (px b - px p1) * (px p2 - px p1) + (py b - py p1) * (py p2 - py p1)) in *.
  set (lenSq := (px p2 - px p1) * (px p2 - px p1) + (py p2 - py p1) * (py p2 - py p1)) in *.
  assert (Hat : forall s, sqDist b (pointAt p1 p2 s)
                          == sqDist b p1 - 2 * s * dot + s * s * lenSq)
    by (intros s; apply sqDist_pointAt).
  assert (Hp1 : sqDist b {| px := px p1; py := py p1 |} == sqDist b p1) by reflexivity.
  assert (Hp2 : sqDist b {| px := px p2; py := py p2 |} == sqDist b p1 - 2 * dot + lenSq).
  { unfold sqDist, dot, lenSq. cbn [px py]. ring. }
  destruct Hc as [(Hz & ->)|[(Hpos & Hd & ->)|[(Hpos & Hd & ->)|(Hpos & Hd & ->)]]].
  - split.
    + exists 0. split; [lra | unfold samePoint, pointAt; cbn [px py]; split; ring].
    + intros s Hs. rewrite Hp1, Hat.
      assert (Hx : 0 <= (px p2 - px p1) * (px p2 - px p1)) by apply square_nonneg.
      assert (Hy : 0 <= (py p2 - py p1) * (py p2 - py p1)) by apply square_nonneg.
      assert (Cx : px p2 - px p1 == 0) by (apply square_zero; unfold lenSq in Hz; lra).
      assert (Cy : py p2 - py p1 == 0) by (apply square_zero; unfold lenSq in Hz; lra).
      assert (Hdot : dot == 0) by (unfold dot; rewrite Cx, Cy; ring).
      rewrite Hdot, Hz. lra.
  - split.
    + exists 0. split; [lra | unfold samePoint, pointAt; cbn [px py]; split; ring].
    + intros s Hs. rewrite Hp1, Hat. nra.
  - split.
    + exists 1. split; [lra | unfold samePoint, pointAt; cbn [px py]; split; ring].
    + intros s Hs. rewrite Hp2, Hat.
      assert (E : sqDist b p1 - 2 * s * dot + s * s * lenSq
                  - (sqDist b p1 - 2 * dot + lenSq)
                  == (1 - s) * (2 * (dot - lenSq) + lenSq * (1 - s))) by ring.
      assert (0 <= (1 - s) * (2 * (dot - lenSq) + lenSq * (1 - s))).
      { apply Qmult_le_0_compat; [lra|]. nra. }
      lra.
  - assert (Ed : dot == dot / lenSq * lenSq) by (field; lra).
    assert (Ht : 0 <= dot / lenSq <= 1).
    { split; [apply Qle_shift_div_l | apply Qle_shift_div_r]; lra. }
    split.
    + exists (dot / lenSq). split; [exact Ht | split; reflexivity].
    + intros s Hs. rewrite !Hat.
      set (t := dot / lenSq) in *.
      assert (E : sqDist b p1 - 2 * s * dot + s * s * lenSq
                  - (sqDist b p1 - 2 * t * dot + t * t * lenSq)
                  == lenSq * ((s - t) * (s - t))).
      { rewrite Ed at 1 2. ring. }
      assert (0 <= lenSq * ((s - t) * (s - t))).
      { apply Qmult_le_0_compat; [lra | apply square_nonneg]. }
      lra.
Qed.

Lemma closest_point_on_pair_witness :
  sqDist (pt 150 590) (closestOnPair (pt 150 590) (pt 100 600) (pt 200 600))
  <= sqDist (pt 150 590) (pointAt (pt 100 600) (pt 200 600) (1 # 4)).
Proof.
  apply (proj2 (closest_point_on_pair (pt 150 590) (pt 100 600) (pt 200 600))).
  split; discriminate.
Defined.

(** ** The path scan *)

Lemma withinReach_iff (b c : Point) :
  withinReach b c = true <-> sqDist b c < 324.
Proof.
  unfold withinReach. rewrite Qltb_lt. unfold sqDist, BALL_RADIUS.
  setoid_replace ((15 + 3) * (15 + 3)) with 324 by reflexivity. reflexivity.
Qed.

Lemma firstContact_none (b : Point) (prs : list (Point * Point)) :
  firstContact b prs = None
  <-> forall p1 p2, In (p1, p2) prs -> withinReach b (closestOnPair b p1 p2) = false.
Proof.
  induction prs as [|[q1 q2] rest IH]; cbn [firstContact].
  - split; [intros _ p1 p2 [] | reflexivity].
  - destruct (withinReach b (closestOnPair b q1 q2)) eqn:E.
    + split; [discriminate|]. intros H.
      rewrite (H q1 q2 (or_introl eq_refl)) in E. discriminate E.
    + rewrite IH. split.
      * intros H p1 p2 [Heq|Hin]; [injection Heq as <- <-; exact E | apply H; exact Hin].
      * intros H p1 p2 Hin. apply H. right. exact Hin.
Qed.

Lemma firstContact_some (b : Point) (prs : list (Point * Point)) (c : Point) :
  firstContact b prs = Some c ->
  exists pre p1 p2 post,
    prs = pre ++ (p1, p2) :: post
    /\ c = closestOnPair b p1 p2
    /\ withinReach b c = true
    /\ forall q1 q2, In (q1, q2) pre -> withinReach b (closestOnPair b q1 q2) = false.
Proof.
  induction prs as [|[q1 q2] rest IH]; cbn [firstContact]; [discriminate|].
  destruct (withinReach b (closestOnPair b q1 q2)) eqn:E.
  - intros H. injection H as <-. exists [], q1, q2, rest.
    repeat split; [exact E | intros ? ? []].
  - intros H. destruct (IH H) as (pre & p1 & p2 & post & -> & Hc & Hr & Hpre).
    exists ((q1, q2) :: pre), p1, p2, post. repeat split; try assumption.
    intros a1 a2 [Heq|Hin]; [injection Heq as <- <-; exact E | apply Hpre; exact Hin].
Qed.

(** X11.  The path scan stops at the first sub-segment in reach: a contact
    point is the closest point of a sub-segment, is less than 18 units
    ([BALL_RADIUS + 3]) from the ball, and every earlier sub-segment is out
    of reach, even when a later one is nearer.  There is no contact exactly
    when every sub-segment is out of reach, in particular when the sampled
    path has fewer than two points. *)
Theorem collision_first_match (b : Point) (pathPoints : list Point) :
  (forall c,
     getCollisionPoint b pathPoints = Some c ->
     sqDist b c < 324
     /\ exists pre p1 p2 post,
          pairs pathPoints = pre ++ (p1, p2) :: post
          /\ c = closestOnPair b p1 p2
          /\ forall q1 q2, In (q1, q2) pre -> 324 <= sqDist b (closestOnPair b q1 q2))
  /\ (getCollisionPoint b pathPoints = None
      <-> forall p1 p2, In (p1, p2) (pairs pathPoints) ->
                        324 <= sqDist b (closestOnPair b p1 p2))
  /\ ((List.length pathPoints < 2)%nat -> getCollisionPoint b pathPoints = None).
Proof.
  assert (Hfar : forall c, withinReach b c = false <-> 324 <= sqDist b c).
  { intros c. rewrite <- not_true_iff_false, withinReach_iff.
    split; [apply Qnot_lt_le | apply Qle_not_lt]. }
  unfold getCollisionPoint. split; [|split].
  - intros c H. destruct (firstContact_some b _ c H) as (pre & p1 & p2 & post & E & Hc & Hr & Hpre).
    split; [apply withinReach_iff; exact Hr|].
    exists pre, p1, p2, post. repeat split; try assumption.
    intros q1 q2 Hin. apply Hfar. apply Hpre. exact Hin.
  - rewrite firstContact_none. split; intros H p1 p2 Hin; apply Hfar; apply H; exact Hin.
  - intros H. destruct pathPoints as [|a [|a' l]]; cbn in H; try lia; reflexivity.
Qed.

Lemma collision_first_match_witness :
  getCollisionPoint (pt 150 590) [pt 100 600] = None
  /\ sqDist (pt 150 590) (closestOnPair (pt 150 590) (pt 100 600) (pt 200 600)) < 324.
Proof.
  split.
  - apply (proj2 (proj2 (collision_first_match (pt 150 590) [pt 100 600]))). cbn. lia.
  - apply (proj1 (collision_first_match (pt 150 590) [pt 100 600; pt 200 600])
             (closestOnPair (pt 150 590) (pt 100 600) (pt 200 600))).
    reflexivity.
Defined.

(** ** The nearest sampled point *)

Lemma nearestFrom_spec (x y : Q) (pts done : list Point) (minDist : option Q) (idx : nat) :
  scanned x y done minDist idx ->
  done ++ pts <> [] ->
  exists p,
    nth_error (done ++ pts) (nearestFrom pts (List.length done) x y minDist idx) = Some p
    /\ (forall j q, nth_error (done ++ pts) j = Some q -> distTo x y p <= distTo x y q)
    /\ (forall j q,
          (j < nearestFrom pts (List.length done) x y minDist idx)%nat ->
          nth_error (done ++ pts) j = Some q -> distTo x y p < distTo x y q).
Proof.
  revert done minDist idx.
  induction pts as [|p rest IH]; intros done minDist idx Hs Hne; cbn [nearestFrom].
  - rewrite app_nil_r in *. destruct minDist as [m|]; cbn in Hs.
    + destruct Hs as (p & Hp & -> & Hmin & Hfirst). exists p. auto.
    + contradiction.
  - assert (Hlen : List.length (done ++ [p]) = S (List.length done))
      by (rewrite length_app; cbn; lia).
    assert (Happ : done ++ p :: rest = (done ++ [p]) ++ rest)
      by (rewrite <- app_assoc; reflexivity).
    assert (Hlast : nth_error (done ++ [p]) (List.length done) = Some p).
    { rewrite nth_error_app2 by lia. rewrite Nat.sub_diag. reflexivity. }
    assert (Hsplit : forall j q, nth_error (done ++ [p]) j = Some q ->
                                 nth_error done j = Some q \/ q = p).
    { intros j q Hj. destruct (Nat.lt_ge_cases j (List.length done)) as [Hlt|Hge].
      - left. rewrite nth_error_app1 in Hj by exact Hlt. exact Hj.
      - right. rewrite nth_error_app2 in Hj by exact Hge.
        destruct (j - List.length done)%nat as [|k]; cbn in Hj;
          [congruence | destruct k; discriminate Hj]. }
    rewrite Happ, <- Hlen.
    change ((px p - x) * (px p - x) + (py p - y) * (py p - y)) with (distTo x y p).
    destruct minDist as [m|]; cbn in Hs.
    + destruct Hs as (p0 & Hp0 & -> & Hmin & Hfirst).
      assert (Hidx : (idx < List.length done)%nat)
        by (apply nth_error_Some; rewrite Hp0; discriminate).
      destruct (Qltb (distTo x y p) (distTo x y p0)) eqn:E.
      * apply Qltb_lt in E. apply IH.
        -- cbn. exists p. repeat split; try assumption.
           ++ intros j q Hj. destruct (Hsplit j q Hj) as [Hd| ->]; [|apply Qle_refl].
              apply Qlt_le_weak. eapply Qlt_le_trans; [exact E | apply (Hmin j q Hd)].
           ++ intros j q Hlt Hj. rewrite nth_error_app1 in Hj by exact Hlt.
              eapply Qlt_le_trans; [exact E | apply (Hmin j q Hj)].
        -- destruct done; discriminate.
      * apply Qltb_ge in E. apply IH.
        -- cbn. exists p0. repeat split.
           ++ rewrite nth_error_app1 by exact Hidx. exact Hp0.
           ++ intros j q Hj. destruct (Hsplit j q Hj) as [Hd| ->];
                [apply (Hmin j q Hd) | exact E].
           ++ intros j q Hlt Hj. rewrite nth_error_app1 in Hj by lia.
              apply (Hfirst j q Hlt Hj).
        -- destruct done; discriminate.
    + subst done. apply IH.
      * cbn. exists p. repeat split.
        -- intros j q Hj. destruct j as [|[|k]]; cbn in Hj; try discriminate Hj.
           injection Hj as <-. apply Qle_refl.
        -- intros j q Hlt. inversion Hlt.
      * discriminate.
Qed.


(** X12.  On a sampled path that is not empty, the index found by the scan
    for the nearest sample is an index of the path, no sample is closer to
    the ball than the one at that index, and every earlier sample is
    strictly farther: ties go to the first. *)
Theorem nearest_index_minimal (pathPoints : list Point) (x y : Q) :
  pathPoints <> [] ->
  exists p,
    nth_error pathPoints (nearestIndex pathPoints x y) = Some p
    /\ (nearestIndex pathPoints x y < List.length pathPoints)%nat
    /\ (forall j q, nth_error pathPoints j = Some q ->
                    sqDist p {| px := x; py := y |} <= sqDist q {| px := x; py := y |})
    /\ (forall j q, (j < nearestIndex pathPoints x y)%nat ->
                    nth_error pathPoints j = Some q ->
                    sqDist p {| px := x; py := y |} < sqDist q {| px := x; py := y |}).
Proof.
  intros Hne. unfold nearestIndex.
  destruct (nearestFrom_spec x y pathPoints [] None 0%nat eq_refl Hne)
    as (p & Hp & Hmin & Hfirst).
  cbn [List.length app] in Hp, Hmin, Hfirst.
  exists p. repeat split; try assumption.
  apply nth_error_Some. rewrite Hp. discriminate.
Qed.

Lemma nearest_index_minimal_witness :
  exists p,
    nth_error [pt 100 600; pt 150 600; pt 200 600]
              (nearestIndex [pt 100 600; pt 150 600; pt 200 600] 160 585)
    = Some p
    /\ (nearestIndex [pt 100 600; pt 150 600; pt 200 600] 160 585 < 3)%nat
    /\ (forall j q, nth_error [pt 100 600; pt 150 600; pt 200 600] j = Some q ->
                    sqDist p {| px := 160; py := 585 |}
                    <= sqDist q {| px := 160; py := 585 |})
    /\ (forall j q, (j < nearestIndex [pt 100 600; pt 150 600; pt 200 600] 160 585)%nat ->
                    nth_error [pt 100 600; pt 150 600; pt 200 600] j = Some q ->
                    sqDist p {| px := 160; py := 585 |}
                    < sqDist q {| px := 160; py := 585 |}).
Proof.
  apply (nearest_index_minimal [pt 100 600; pt 150 600; pt 200 600] 160 585).
  discriminate.
Defined.

(** * Further properties of the integrator *)

Lemma bucketRule_ballX (inp : Inputs) (r : Run) :
  ballX (ball (bucketRule inp r)) = ballX (ball r).
Proof.
  unfold bucketRule. destruct (bucket inp); [|reflexivity].
  destruct (negb _); [|reflexivity].
  destruct (checkBucketHit _ _ _); reflexivity.
Qed.

Lemma groundRule_ballX (inp : Inputs) (r : Run) :
  ballX (ball (groundRule inp r)) = ballX (ball r).
Proof.
  unfold groundRule. destruct (groundTriggered _); reflexivity.
Qed.

Lemma slopeNudge_keeps (pathPoints : list Point) (b : Ball) :
  ballX (slopeNudge pathPoints b) = ballX b
  /\ velocityY (slopeNudge pathPoints b) = velocityY b
  /\ onGround (slopeNudge pathPoints b) = onGround b.
Proof.
  unfold slopeNudge.
  destruct (_ && _); [|auto].
  destruct (nth_error pathPoints (S _)); [|auto].
  destruct (nth_error pathPoints _); [|auto].
  destruct (negb _); auto.
Qed.

Lemma pathRule_ballX (pathPoints : list Point) (b : Ball) :
  ballX (pathRule pathPoints b) = ballX b.
Proof.
  unfold pathRule. destruct (negb _); [|reflexivity].
  destruct (getCollisionPoint _ _); [|reflexivity].
  rewrite (proj1 (slopeNudge_keeps _ _)).
  destruct (Qgtb _ _); reflexivity.
Qed.

Lemma frictionRule_keeps (inp : Inputs) (b : Ball) :
  ballX (frictionRule inp b) = ballX b
  /\ velocityY (frictionRule inp b) = velocityY b
  /\ onGround (frictionRule inp b) = onGround b.
Proof.
  unfold frictionRule. destruct (negb _); auto.
Qed.

(** The ball a frame with a drawing context ends with: the one the contact
    rules leave, with its velocity zeroed when the frame settles. *)
Lemma animate_ball (canvas : Canvas) (inp : Inputs) (pathPoints : list Point) (r : Run) :
  has2d canvas = true ->
  let b2 := ball (contacts inp pathPoints {| view := view r; ball := integrate (ball r) |}) in
  (fst (animate canvas inp pathPoints r) = Settled
   /\ stopped b2 = true
   /\ ball (snd (animate canvas inp pathPoints r)) = halt b2)
  \/ (fst (animate canvas inp pathPoints r) = Scheduled
      /\ stopped b2 = false
      /\ ball (snd (animate canvas inp pathPoints r)) = b2).
Proof.
  intros H. cbv zeta. rewrite (animate_unfold _ _ _ _ H). cbv zeta.
  destruct (stopped _); [left | right]; repeat split.
Qed.

(** X13.  No contact rule moves the ball sideways: whatever happens in a
    frame, capture included, the ball ends it at [x + vx]. *)
Theorem horizontal_step (canvas : Canvas) (inp : Inputs) (pathPoints : list Point) (r : Run) :
  has2d canvas = true ->
  ballX (ball (snd (animate canvas inp pathPoints r)))
  = ballX (ball r) + velocityX (ball r).
Proof.
  intros H.
  assert (E : ballX (ball (contacts inp pathPoints
                             {| view := view r; ball := integrate (ball r) |}))
              = ballX (ball r) + velocityX (ball r)).
  { unfold contacts. cbn [ball].
    rewrite (proj1 (frictionRule_keeps _ _)), pathRule_ballX, groundRule_ballX,
      bucketRule_ballX.
    reflexivity. }
  destruct (animate_ball canvas inp pathPoints r H) as [(_ & _ & ->)|(_ & _ & ->)];
    [cbn [halt ballX] | ]; exact E.
Qed.

Lemma horizontal_step_witness :
  ballX (ball (snd (animate demoCanvas bucketInputs (getPathPoints ledgePath)
                      (runOf (restingBall 300 580 7 0)))))
  = 300 + 7.
Proof.
  apply (horizontal_step demoCanvas bucketInputs (getPathPoints ledgePath)
           (runOf (restingBall 300 580 7 0))).
  reflexivity.
Defined.

(** ** The frame of a ground contact *)

Lemma bucketRule_uncaptured (inp : Inputs) (r : Run) :
  ballInBucket (ball (bucketRule inp r)) = false ->
  view (bucketRule inp r) = view r
  /\ ballX (ball (bucketRule inp r)) = ballX (ball r)
  /\ ballY (ball (bucketRule inp r)) = ballY (ball r)
  /\ velocityX (ball (bucketRule inp r)) = velocityX (ball r)
  /\ velocityY (ball (bucketRule inp r)) = velocityY (ball r)
  /\ onGround (ball (bucketRule inp r)) = onGround (ball r).
Proof.
  unfold bucketRule. destruct (bucket inp); [|repeat split].
  destruct (negb _); [|repeat split].
  destruct (checkBucketHit _ _ _); [discriminate | repeat split].
Qed.

Lemma groundContact_ball (inp : Inputs) (r : Run) :
  groundContact inp r = true ->
  beforePathRule inp r
  = {| ballX := ballX (ball r) + velocityX (ball r);
       ballY := GROUND_Y - BALL_RADIUS;
       velocityX := velocityX (ball r) * friction inp;
       velocityY := 0;
       onGround := true;
       ballInBucket := false |}.
Proof.
  unfold groundContact, beforePathRule. intros Hg.
  unfold groundRule. rewrite Hg. cbn [ball].
  unfold groundTriggered in Hg. apply andb_true_iff in Hg.
  destruct Hg as (Hn & _). apply negb_true_iff in Hn.
  destruct (bucketRule_uncaptured inp _ Hn) as (_ & Ex & _ & Evx & _).
  rewrite Ex, Evx, Hn. reflexivity.
Qed.

Lemma pathRule_velocityY_zero (pathPoints : list Point) (b : Ball) :
  velocityY b = 0 -> velocityY (pathRule pathPoints b) = 0.
Proof.
  intros H. unfold pathRule. destruct (negb _); [|exact H].
  destruct (getCollisionPoint _ _); [|exact H].
  rewrite (proj1 (proj2 (slopeNudge_keeps _ _))).
  destruct (Qgtb _ _); [reflexivity | exact H].
Qed.

(** X14.  A frame in which the ground rule fires ends with no vertical
    velocity.  If the path scan then finds no contact, the ball ends the
    frame on the ground line with its ground flag cleared, and friction has
    been applied twice: [vx] has become [vx * friction * friction]; the
    frame settles exactly when the magnitude of that value is below 0.1. *)
Theorem ground_frame (canvas : Canvas) (inp : Inputs) (pathPoints : list Point) (r : Run) :
  has2d canvas = true ->
  groundContact inp r = true ->
  velocityY (ball (snd (animate canvas inp pathPoints r))) = 0
  /\ (getCollisionPoint {| px := ballX (ball r) + velocityX (ball r);
                           py := GROUND_Y - BALL_RADIUS |} pathPoints = None ->
      ballY (ball (snd (animate canvas inp pathPoints r))) = GROUND_Y - BALL_RADIUS
      /\ onGround (ball (snd (animate canvas inp pathPoints r))) = false
      /\ (fst (animate canvas inp pathPoints r) = Scheduled ->
          velocityX (ball (snd (animate canvas inp pathPoints r)))
          = velocityX (ball r) * friction inp * friction inp)
      /\ (fst (animate canvas inp pathPoints r) = Settled
          <-> Qabs (velocityX (ball r) * friction inp * friction inp) < 1 # 10)).
Proof.
  intros H Hg.
  pose proof (groundContact_ball inp r Hg) as Hb. unfold beforePathRule in Hb.
  pose proof (animate_ball canvas inp pathPoints r H) as Ha. cbv zeta in Ha.
  unfold contacts in Ha. cbn [ball] in Ha. rewrite Hb in Ha.
  split.
  - assert (E : velocityY (frictionRule inp (pathRule pathPoints
                  {| ballX := ballX (ball r) + velocityX (ball r);
                     ballY := GROUND_Y - BALL_RADIUS;
                     velocityX := velocityX (ball r) * friction inp;
                     velocityY := 0; onGround := true; ballInBucket := false |})) = 0).
    { rewrite (proj1 (proj2 (frictionRule_keeps _ _))).
      apply pathRule_velocityY_zero. reflexivity. }
    destruct Ha as [(_ & _ & ->)|(_ & _ & ->)]; [reflexivity | exact E].
  - intros Hnone.
    unfold pathRule in Ha. cbn [ballInBucket negb ballX ballY] in Ha.
    rewrite Hnone in Ha. unfold frictionRule in Ha.
    cbn [ballInBucket negb ballX ballY velocityX velocityY onGround] in Ha.
    unfold stopped in Ha. cbn [velocityX velocityY] in Ha.
    change (Qltb (Qabs 0) (1 # 10)) with true in Ha. rewrite andb_true_r in Ha.
    destruct Ha as [(Es & Hs & ->)|(Es & Hs & ->)]; rewrite Es;
      cbn [halt ballX ballY velocityX velocityY onGround ballInBucket];
      repeat split; try discriminate; try reflexivity.
    + intros _. apply Qltb_lt. exact Hs.
    + intros Hlt. apply Qltb_lt in Hlt. rewrite Hlt in Hs. discriminate Hs.
Qed.

Lemma ground_frame_witness :
  velocityY (ball (snd (animate demoCanvas ledgeInputs (getPathPoints ledgePath)
                          (runOf (restingBall 100 634 3 2)))))
  = 0
  /\ (fst (animate demoCanvas ledgeInputs (getPathPoints ledgePath)
             (runOf (restingBall 100 634 3 2)))
      = Scheduled ->
      velocityX (ball (snd (animate demoCanvas ledgeInputs (getPathPoints ledgePath)
                              (runOf (restingBall 100 634 3 2)))))
      = 3 * (98 # 100) * (98 # 100)).
Proof.
  destruct (ground_frame demoCanvas ledgeInputs (getPathPoints ledgePath)
              (runOf (restingBall 100 634 3 2)) eq_refl eq_refl) as (Hv & Hrest).
  split; [exact Hv|].
  apply (Hrest eq_refl).
Defined.

(** ** The frame of a path contact *)

(** X15.  When the path scan of a frame finds a contact point for an
    uncaptured ball, the ball ends the frame at or above the contact height
    minus its radius.  A ball that was lower is lifted to exactly that
    height, loses its vertical velocity and is flagged grounded; a ball
    that was at or above it keeps its height and its ground flag. *)
Theorem path_contact_rest (canvas : Canvas) (inp : Inputs) (pathPoints : list Point)
    (r : Run) (c : Point) :
  has2d canvas = true ->
  ballInBucket (beforePathRule inp r) = false ->
  getCollisionPoint {| px := ballX (beforePathRule inp r);
                       py := ballY (beforePathRule inp r) |} pathPoints = Some c ->
  ballY (ball (snd (animate canvas inp pathPoints r))) <= py c - BALL_RADIUS
  /\ (py c - BALL_RADIUS < ballY (beforePathRule inp r) ->
      ballY (ball (snd (animate canvas inp pathPoints r))) = py c - BALL_RADIUS
      /\ velocityY (ball (snd (animate canvas inp pathPoints r))) = 0
      /\ onGround (ball (snd (animate canvas inp pathPoints r))) = true)
  /\ (ballY (beforePathRule inp r) <= py c - BALL_RADIUS ->
      ballY (ball (snd (animate canvas inp pathPoints r))) = ballY (beforePathRule inp r)
      /\ onGround (ball (snd (animate canvas inp pathPoints r)))
         = onGround (beforePathRule inp r)).
Proof.
  intros H Hn Hc.
  set (b := beforePathRule inp r) in *.
  assert (Hp : ballY (pathRule pathPoints b) <= py c - BALL_RADIUS
               /\ (py c - BALL_RADIUS < ballY b ->
                   ballY (pathRule pathPoints b) = py c - BALL_RADIUS
                   /\ velocityY (pathRule pathPoints b) = 0
                   /\ onGround (pathRule pathPoints b) = true)
               /\ (ballY b <= py c - BALL_RADIUS ->
                   ballY (pathRule pathPoints b) = ballY b
                   /\ onGround (pathRule pathPoints b) = onGround b)).
  { unfold pathRule. rewrite Hc.
    destruct (negb (ballInBucket b)) eqn:En; [|rewrite Hn in En; discriminate En].
    match goal with
    | |- context [slopeNudge ?pp ?bb] => destruct (slopeNudge_keeps pp bb) as (_ & Ev & Eg)
    end.
    rewrite slopeNudge_ballY, Ev, Eg.
    destruct (Qgtb (ballY b) (py c - BALL_RADIUS)) eqn:E;
      cbn [ballY velocityY onGround].
    - apply Qgtb_gt in E. split; [apply Qle_refl|]. split.
      + intros _. repeat split.
      + intros Hle. apply Qle_not_lt in Hle. contradiction.
    - unfold Qgtb in E. apply negb_false_iff, Qle_bool_iff in E.
      split; [exact E|]. split.
      + intros Hlt. apply Qlt_not_le in Hlt. contradiction.
      + intros _. split; reflexivity. }
  assert (Eq : ball (contacts inp pathPoints {| view := view r; ball := integrate (ball r) |})
               = frictionRule inp (pathRule pathPoints b)) by reflexivity.
  destruct (frictionRule_keeps inp (pathRule pathPoints b)) as (_ & Fv & Fg).
  pose proof (frictionRule_ballY inp (pathRule pathPoints b)) as Fy.
  destruct Hp as (P1 & P2 & P3).
  destruct (animate_ball canvas inp pathPoints r H) as [(_ & _ & ->)|(_ & _ & ->)];
    rewrite Eq; cbn [halt ballY velocityY onGround]; rewrite ?Fy, ?Fv, ?Fg;
    (split; [exact P1|]); split.
  - intros Hlt. destruct (P2 Hlt) as (A1 & A2 & A3). repeat split; assumption.
  - exact P3.
  - exact P2.
  - exact P3.
Qed.

Lemma path_contact_rest_witness :
  ballY (ball (snd (animate demoCanvas ledgeInputs (getPathPoints ledgePath)
                      (runOf (restingBall 150 590 0 0)))))
  <= (12000 # 20) - BALL_RADIUS.
Proof.
  apply (path_contact_rest demoCanvas ledgeInputs (getPathPoints ledgePath)
           (runOf (restingBall 150 590 0 0)) {| px := 2700 # 20; py := 12000 # 20 |}
           eq_refl eq_refl).
  vm_compute. reflexivity.
Defined.

(** ** The hit flags *)

Lemma bucketRule_flags (inp : Inputs) (r : Run) :
  flagsFollowLatch inp r -> flagsFollowLatch inp (bucketRule inp r).
Proof.
  unfold flagsFollowLatch, bucketRule. intros (Hh & Hs).
  destruct (bucket inp) as [bk|] eqn:Eb; [|split; assumption].
  destruct (ballInBucket (ball r)) eqn:Ei; cbn [negb];
    [rewrite Ei; split; assumption|].
  destruct (checkBucketHit _ _ _); cbn [view ball ballInBucket].
  - cbn [setShowBucketResult markBucket setBucketHit bucketHit bucketState].
    rewrite Hs. cbn [option_map]. split; reflexivity.
  - split; assumption.
Qed.

Lemma groundRule_flags (inp : Inputs) (r : Run) :
  flagsFollowLatch inp r -> flagsFollowLatch inp (groundRule inp r).
Proof.
  unfold flagsFollowLatch, groundRule. intros (Hh & Hs).
  destruct (groundTriggered (ball r)); [|split; assumption].
  cbn [view ball ballInBucket]. destruct (bucket inp); split; assumption.
Qed.

Lemma animate_flags (canvas : Canvas) (inp : Inputs) (pathPoints : list Point) (r : Run) :
  flagsFollowLatch inp r ->
  flagsFollowLatch inp (snd (animate canvas inp pathPoints r)).
Proof.
  intros Hr. destruct (has2d canvas) eqn:H.
  - rewrite (animate_unfold _ _ _ _ H). cbv zeta.
    assert (Hc : flagsFollowLatch inp
                   (contacts inp pathPoints {| view := view r; ball := integrate (ball r) |})).
    { assert (H1 : flagsFollowLatch inp {| view := view r; ball := integrate (ball r) |})
        by exact Hr.
      apply bucketRule_flags, groundRule_flags in H1.
      unfold flagsFollowLatch, contacts in *. cbn [view ball].
      rewrite frictionRule_latch, pathRule_latch. exact H1. }
    set (r2 := contacts _ _ _) in *. clearbody r2.
    destruct Hc as (Hh & Hs).
    destruct (stopped (ball r2)); unfold flagsFollowLatch; cbn [snd view ball].
    + match goal with
      | |- context [evaluatePredictions ?i ?f ?v] =>
          destruct (evaluatePredictions_frame i f v) as (_ & _ & _ & _ & E5 & E6)
      end.
      cbn [setIsAnimating bucketHit bucketState halt ballInBucket].
      rewrite E5, E6. split; assumption.
    + split; assumption.
  - unfold animate. rewrite H. exact Hr.
Qed.

Lemma animate_no_bucket (canvas : Canvas) (inp : Inputs) (pathPoints : list Point) (r : Run) :
  bucket inp = None ->
  ballInBucket (ball (snd (animate canvas inp pathPoints r))) = ballInBucket (ball r).
Proof.
  intros Hb. destruct (has2d canvas) eqn:H.
  - destruct (animate_ballY canvas inp pathPoints r H) as (_ & ->).
    unfold contacts. cbn [ball].
    rewrite frictionRule_latch, pathRule_latch, groundRule_latch.
    unfold bucketRule. rewrite Hb. reflexivity.
  - unfold animate. rewrite H. reflexivity.
Qed.

(** X16.  Throughout a run the hit flags tell whether the ball has been
    captured: after the first frame and any number of further frames,
    [bucketHit] equals the latch of the ball, and the bucket of the state is
    the bucket of the run with its [isHit] set to the latch.  In a run
    without a bucket the ball is never captured. *)
Theorem hit_flags_follow_latch (n : nat) (canvas : Canvas) (inp : Inputs) (v : View) :
  bucketState v = bucket inp ->
  flagsFollowLatch inp
    (snd (frames n canvas inp (fst (startRun canvas inp v))
            (animate canvas inp (fst (startRun canvas inp v))
               (snd (startRun canvas inp v)))))
  /\ (bucket inp = None ->
      ballInBucket
        (ball (snd (frames n canvas inp (fst (startRun canvas inp v))
                      (animate canvas inp (fst (startRun canvas inp v))
                         (snd (startRun canvas inp v))))))
      = false).
Proof.
  intros Hv.
  set (pathPoints := fst (startRun canvas inp v)).
  assert (H0 : flagsFollowLatch inp (snd (startRun canvas inp v))).
  { unfold flagsFollowLatch, startRun. cbn [snd view ball ballInBucket].
    destruct (bucket inp) as [bk|] eqn:Eb; cbn; rewrite Hv; split; reflexivity. }
  assert (Hframes : forall k sr,
             flagsFollowLatch inp (snd sr) ->
             flagsFollowLatch inp (snd (frames k canvas inp pathPoints sr))).
  { induction k as [|k IH]; intros sr Hsr; cbn [frames]; [exact Hsr|].
    destruct (fst sr); try exact Hsr. apply IH, animate_flags, Hsr. }
  assert (Hnone : bucket inp = None ->
                  forall k sr, ballInBucket (ball (snd sr)) = false ->
                               ballInBucket (ball (snd (frames k canvas inp pathPoints sr)))
                               = false).
  { intros Hb. induction k as [|k IH]; intros sr Hsr; cbn [frames]; [exact Hsr|].
    destruct (fst sr); try exact Hsr.
    apply IH. rewrite animate_no_bucket by exact Hb. exact Hsr. }
  split.
  - apply Hframes, animate_flags, H0.
  - intros Hb. apply (Hnone Hb). rewrite animate_no_bucket by exact Hb. reflexivity.
Qed.

Lemma hit_flags_follow_latch_witness :
  flagsFollowLatch bucketInputs
    (snd (frames 2 demoCanvas bucketInputs
            (fst (startRun demoCanvas bucketInputs bucketIdleView))
            (animate demoCanvas bucketInputs
               (fst (startRun demoCanvas bucketInputs bucketIdleView))
               (snd (startRun demoCanvas bucketInputs bucketIdleView))))).
Proof.
  apply (hit_flags_follow_latch 2 demoCanvas bucketInputs bucketIdleView).
  reflexivity.
Defined.

(** ** Stopping by hand *)

Lemma contacts_running (inp : Inputs) (pathPoints : list Point) (r : Run) :
  running (view r) -> running (view (contacts inp pathPoints r)).
Proof.
  unfold contacts. cbn [view]. intros Hr.
  assert (H1 : running (view (bucketRule inp r))).
  { unfold bucketRule. destruct (bucket inp); [|exact Hr].
    destruct (negb _); [|exact Hr].
    destruct (checkBucketHit _ _ _); exact Hr. }
  unfold groundRule. destruct (groundTriggered _); [|exact H1].
  cbn [view]. destruct (bucket inp); exact H1.
Qed.

Lemma animate_running (canvas : Canvas) (inp : Inputs) (pathPoints : list Point) (r : Run) :
  running (view r) ->
  fst (animate canvas inp pathPoints r) = Scheduled ->
  running (view (snd (animate canvas inp pathPoints r))).
Proof.
  intros Hr. unfold animate. destruct (has2d canvas); [|discriminate].
  cbn [negb isFinite orb].
  pose proof (contacts_running inp pathPoints
                {| view := view r; ball := integrate (ball r) |} Hr) as Hc.
  destruct (stopped _); [discriminate|]. intros _. exact Hc.
Qed.

Lemma frames_running (n : nat) (canvas : Canvas) (inp : Inputs) (pathPoints : list Point)
    (sr : Status * Run) :
  (fst sr = Scheduled -> running (view (snd sr))) ->
  fst (frames n canvas inp pathPoints sr) = Scheduled ->
  running (view (snd (frames n canvas inp pathPoints sr))).
Proof.
  revert sr. induction n as [|k IH]; intros sr Hsr; cbn [frames]; [exact Hsr|].
  destruct (fst sr) eqn:E; try (intros Hs; rewrite E in Hs; discriminate Hs).
  apply IH. apply animate_running. apply Hsr. reflexivity.
Qed.

(** X17.  Stopping a run by hand before it has settled scores nothing:
    while frames are still being requested the state holds no final
    snapshot, so [stopSimulation] only clears the animating flag and the
    results stay empty.  Stopping after a frame has settled scores the final
    snapshot again and leaves the same results. *)
Theorem stop_scores_only_settled :
  (forall (n : nat) (canvas : Canvas) (inp : Inputs) (v : View),
     fst (frames n canvas inp (fst (startRun canvas inp v))
            (animate canvas inp (fst (startRun canvas inp v))
               (snd (startRun canvas inp v))))
     = Scheduled ->
     stopSimulation inp
       (view (snd (frames n canvas inp (fst (startRun canvas inp v))
                     (animate canvas inp (fst (startRun canvas inp v))
                        (snd (startRun canvas inp v))))))
     = setIsAnimating false
         (view (snd (frames n canvas inp (fst (startRun canvas inp v))
                       (animate canvas inp (fst (startRun canvas inp v))
                          (snd (startRun canvas inp v))))))
     /\ predictionResults
          (stopSimulation inp
             (view (snd (frames n canvas inp (fst (startRun canvas inp v))
                           (animate canvas inp (fst (startRun canvas inp v))
                              (snd (startRun canvas inp v)))))))
        = [])
  /\ (forall (canvas : Canvas) (inp : Inputs) (pathPoints : list Point) (r : Run),
        has2d canvas = true ->
        fst (animate canvas inp pathPoints r) = Settled ->
        predictionResults
          (stopSimulation inp (view (snd (animate canvas inp pathPoints r))))
        = predictionResults (view (snd (animate canvas inp pathPoints r)))
        /\ isAnimating
             (stopSimulation inp (view (snd (animate canvas inp pathPoints r))))
           = false).
Proof.
  split.
  - intros n canvas inp v Hs.
    assert (Hrun : running
                     (view (snd (frames n canvas inp (fst (startRun canvas inp v))
                                   (animate canvas inp (fst (startRun canvas inp v))
                                      (snd (startRun canvas inp v))))))).
    { apply frames_running; [|exact Hs].
      apply animate_running.
      unfold running, startRun. cbn [snd view].
      destruct (bucket inp); repeat split. }
    destruct Hrun as (_ & Hf & Hp & _).
    unfold stopSimulation. rewrite Hf. split; [reflexivity|]. exact Hp.
  - intros canvas inp pathPoints r H Hs.
    revert Hs. rewrite (animate_unfold _ _ _ _ H). cbv zeta.
    set (r2 := contacts _ _ _). clearbody r2.
    destruct (stopped (ball r2)); [|discriminate]. intros _.
    cbn [snd view].
    set (fe := calculateEnergy (initialEnergyRef (view r2)) 0 0 (ballY (ball r2))).
    set (v1 := setFinalEnergyData (Some fe) (setEnergyData fe (view r2))).
    destruct (evaluatePredictions_frame inp fe v1) as (E1 & _ & E3 & _).
    assert (Ef : finalEnergyData (setIsAnimating false (evaluatePredictions inp fe v1))
                 = Some fe) by (cbn [setIsAnimating finalEnergyData]; rewrite E3; reflexivity).
    unfold stopSimulation. rewrite Ef.
    destruct (evaluatePredictions_frame inp fe
                (setIsAnimating false
                   (setIsAnimating false (evaluatePredictions inp fe v1))))
      as (_ & _ & _ & E4 & _).
    split; [|rewrite E4; reflexivity].
    rewrite !evaluatePredictions_results.
    cbn [setIsAnimating initialEnergyRef predictionResults].
    rewrite evaluatePredictions_results, E1. reflexivity.
Qed.

Lemma stop_scores_only_settled_witness :
  predictionResults
    (stopSimulation ledgeInputs
       (view (snd (frames 1 demoCanvas ledgeInputs
                     (fst (startRun demoCanvas ledgeInputs idleView))
                     (animate demoCanvas ledgeInputs
                        (fst (startRun demoCanvas ledgeInputs idleView))
                        (snd (startRun demoCanvas ledgeInputs idleView)))))))
  = []
  /\ isAnimating
       (stopSimulation efficiencyInputs
          (view (snd (animate demoCanvas efficiencyInputs (getPathPoints ledgePath)
                        (runOf (restingBall 100 635 (5 # 100) 0))))))
     = false.
Proof.
  split.
  - apply (proj1 stop_scores_only_settled 1%nat demoCanvas ledgeInputs idleView).
    vm_compute. reflexivity.
  - apply (proj2 stop_scores_only_settled demoCanvas efficiencyInputs
             (getPathPoints ledgePath) (runOf (restingBall 100 635 (5 # 100) 0)) eq_refl).
    vm_compute. reflexivity.
Defined.

(** ** The final snapshot *)

Lemma contacts_ballY_bound (inp : Inputs) (pathPoints : list Point) (r : Run) :
  ballInBucket (ball (contacts inp pathPoints r)) = false ->
  ballY (ball (contacts inp pathPoints r)) <= GROUND_Y - BALL_RADIUS.
Proof.
  unfold contacts. cbn [ball].
  rewrite frictionRule_ballY, frictionRule_latch, pathRule_latch, groundRule_latch.
  intros Hn. eapply Qle_trans; [apply pathRule_ballY|].
  apply groundRule_ballY. exact Hn.
Qed.

(** X18.  The final snapshot of a settled frame has no kinetic energy: its
    total is the potential energy [GRAVITY * (GROUND_Y - y)] of the resting
    ball.  For a ball that has not been captured this is at least
    [GRAVITY * BALL_RADIUS = 4.5], because heights are those of the ball's
    centre; so the reported loss is at most the initial total minus 4.5. *)
Theorem settled_snapshot (canvas : Canvas) (inp : Inputs) (pathPoints : list Point)
    (r : Run) :
  has2d canvas = true ->
  fst (animate canvas inp pathPoints r) = Settled ->
  exists fe,
    finalEnergyData (view (snd (animate canvas inp pathPoints r))) = Some fe
    /\ energyData (view (snd (animate canvas inp pathPoints r))) = fe
    /\ kineticEnergy fe == 0
    /\ totalEnergy fe
       == GRAVITY * (GROUND_Y - ballY (ball (snd (animate canvas inp pathPoints r))))
    /\ (ballInBucket (ball (snd (animate canvas inp pathPoints r))) = false ->
        GRAVITY * BALL_RADIUS <= totalEnergy fe
        /\ energyLoss fe <= initialEnergyRef (view r) - GRAVITY * BALL_RADIUS).
Proof.
  intros H. rewrite (animate_unfold _ _ _ _ H). cbv zeta.
  pose proof (contacts_ballY_bound inp pathPoints
                {| view := view r; ball := integrate (ball r) |}) as Hy.
  remember (contacts inp pathPoints {| view := view r; ball := integrate (ball r) |})
    as r2 eqn:E.
  assert (Href : initialEnergyRef (view r2) = initialEnergyRef (view r))
    by (rewrite E, contacts_ref; reflexivity).
  clear E.
  destruct (stopped (ball r2)); [|discriminate]. intros _.
  exists (calculateEnergy (initialEnergyRef (view r2)) 0 0 (ballY (ball r2))).
  cbn [snd view ball].
  match goal with
  | |- context [evaluatePredictions ?i ?f ?v] =>
      destruct (evaluatePredictions_frame i f v) as (_ & E2 & E3 & _)
  end.
  split; [cbn [setIsAnimating finalEnergyData]; rewrite E3; reflexivity|].
  split; [cbn [setIsAnimating energyData]; rewrite E2; reflexivity|].
  unfold calculateEnergy.
  cbn [kineticEnergy totalEnergy energyLoss halt ballY ballInBucket].
  unfold BALL_MASS. split; [ring|]. split; [ring|].
  intros Hn. specialize (Hy Hn). rewrite Href.
  unfold GRAVITY, GROUND_Y, BALL_RADIUS in *. split; lra.
Qed.

Lemma settled_snapshot_witness :
  exists fe,
    finalEnergyData
      (view (snd (animate demoCanvas ledgeInputs (getPathPoints ledgePath)
                    (runOf (restingBall 100 635 (5 # 100) 0)))))
    = Some fe
    /\ energyData
         (view (snd (animate demoCanvas ledgeInputs (getPathPoints ledgePath)
                       (runOf (restingBall 100 635 (5 # 100) 0)))))
       = fe
    /\ kineticEnergy fe == 0
    /\ totalEnergy fe
       == GRAVITY
          * (GROUND_Y
             - ballY (ball (snd (animate demoCanvas ledgeInputs (getPathPoints ledgePath)
                                   (runOf (restingBall 100 635 (5 # 100) 0))))))
    /\ (ballInBucket
          (ball (snd (animate demoCanvas ledgeInputs (getPathPoints ledgePath)
                        (runOf (restingBall 100 635 (5 # 100) 0)))))
        = false ->
        GRAVITY * BALL_RADIUS <= totalEnergy fe
        /\ energyLoss fe
           <= initialEnergyRef (view (runOf (restingBall 100 635 (5 # 100) 0)))
              - GRAVITY * BALL_RADIUS).
Proof.
  apply (settled_snapshot demoCanvas ledgeInputs (getPathPoints ledgePath)
           (runOf (restingBall 100 635 (5 # 100) 0)) eq_refl).
  vm_compute. reflexivity.
Defined.

(** ** The trajectory between contacts *)

Lemma inject_Z_succ (k : nat) : inject_Z (Z.of_nat (S k)) == inject_Z (Z.of_nat k) + 1.
Proof.
  rewrite Nat2Z.inj_succ. unfold Z.succ. rewrite inject_Z_plus. reflexivity.
Qed.

Lemma Qpower_succ (f : Q) (k : nat) : f ^ Z.of_nat (S k) == f ^ Z.of_nat k * f.
Proof.
  rewrite Nat2Z.inj_succ. unfold Z.succ.
  rewrite Qpower_plus' by lia. reflexivity.
Qed.

(** X19.  Over [n] consecutive contact-free frames the ball follows the
    discrete parabola of the integrator: [vy] grows by [GRAVITY] per frame,
    [y] by the new [vy] each frame, so [y = y0 + n vy0 + GRAVITY n (n+1) / 2],
    and [vx] is damped by the friction once per frame, [vx = vx0 friction^n].
    These are the exact values of the sums and products the frames
    accumulate; the doubles of the source follow them within the rounding
    the [n] additions and multiplications add up to. *)
Theorem free_fall_trajectory (n : nat) (canvas : Canvas) (inp : Inputs)
    (pathPoints : list Point) (r0 r : Run) :
  has2d canvas = true ->
  fallFrames n canvas inp pathPoints r0 = Some r ->
  velocityY (ball r) == velocityY (ball r0) + inject_Z (Z.of_nat n) * GRAVITY
  /\ ballY (ball r)
     == ballY (ball r0) + inject_Z (Z.of_nat n) * velocityY (ball r0)
        + GRAVITY * (inject_Z (Z.of_nat n) * (inject_Z (Z.of_nat n) + 1)) / 2
  /\ velocityX (ball r) == velocityX (ball r0) * friction inp ^ Z.of_nat n
  /\ onGround (ball r) = (match n with O => onGround (ball r0) | S _ => false end).
Proof.
  intros H. revert r0. induction n as [|k IH]; intros r0 Hrun.
  - cbn in Hrun. injection Hrun as <-. cbn [Z.of_nat Qpower].
    change (inject_Z 0) with 0. repeat split; try ring. field.
  - cbn [fallFrames] in Hrun.
    destruct (contactFree inp pathPoints (ball r0)) eqn:Hfree; [|discriminate Hrun].
    pose proof (animate_ball canvas inp pathPoints r0 H) as Ha. cbv zeta in Ha.
    rewrite (contactFree_contacts inp pathPoints r0 Hfree) in Ha.
    destruct (animate canvas inp pathPoints r0) as [st r1].
    cbn [fst snd] in Ha.
    destruct Ha as [(-> & _)|(-> & _ & Hb)]; [discriminate Hrun|].
    destruct (IH r1 Hrun) as (I1 & I2 & I3 & I4).
    rewrite Hb in I1, I2, I3, I4.
    cbn [velocityX velocityY ballY onGround] in I1, I2, I3, I4.
    rewrite I1, I2, I3, inject_Z_succ, Qpower_succ.
    split; [ring|]. split; [field|]. split; [ring|].
    rewrite I4. destruct k; reflexivity.
Qed.

Lemma free_fall_trajectory_witness :
  match fallFrames 3 demoCanvas ledgeInputs (getPathPoints ledgePath)
          (runOf (restingBall 100 50 2 0))
  with
  | Some r =>
      ballY (ball r)
      == 50 + inject_Z (Z.of_nat 3) * 0
         + GRAVITY * (inject_Z (Z.of_nat 3) * (inject_Z (Z.of_nat 3) + 1)) / 2
  | None => False
  end.
Proof.
  destruct (fallFrames 3 _ _ _ _) as [r|] eqn:E.
  - apply (free_fall_trajectory 3 demoCanvas ledgeInputs (getPathPoints ledgePath)
             (runOf (restingBall 100 50 2 0)) r eq_refl E).
  - vm_compute in E. discriminate E.
Defined.

(** ** Rolling on the ground *)

Lemma pairs_In (l : list Point) (p1 p2 : Point) :
  In (p1, p2) (pairs l) -> In p1 l /\ In p2 l.
Proof.
  induction l as [|a l IH]; [intros []|].
  destruct l as [|b l']; [intros []|].
  change (pairs (a :: b :: l')) with ((a, b) :: pairs (b :: l')).
  intros [Heq|Hin].
  - injection Heq as <- <-. split; [left; reflexivity | right; left; reflexivity].
  - destruct (IH Hin) as (H1 & H2). split; right; assumption.
Qed.

Lemma closestOnPair_height (b p1 p2 : Point) (h : Q) :
  py p1 <= h -> py p2 <= h -> py (closestOnPair b p1 p2) <= h.
Proof.
  intros H1 H2.
  destruct (closestOnPair_cases b p1 p2)
    as [(_ & ->)|[(_ & _ & ->)|[(_ & _ & ->)|(Hpos & Hd & ->)]]];
    cbn [py pointAt]; try assumption.
  set (dot := (px b - px p1) * (px p2 - px p1) + (py b - py p1) * (py p2 - py p1)) in *.
  set (lenSq := (px p2 - px p1) * (px p2 - px p1) + (py p2 - py p1) * (py p2 - py p1)) in *.
  assert (Ht : 0 <= dot / lenSq <= 1).
  { split; [apply Qle_shift_div_l | apply Qle_shift_div_r]; lra. }
  set (t := dot / lenSq) in *. nra.
Qed.

Lemma low_path_no_contact (pathPoints : list Point) (x : Q) :
  clearOfGround pathPoints ->
  getCollisionPoint {| px := x; py := GROUND_Y - BALL_RADIUS |} pathPoints = None.
Proof.
  intros Hlow. unfold getCollisionPoint. apply firstContact_none.
  intros p1 p2 Hin. apply pairs_In in Hin. destruct Hin as (H1 & H2).
  unfold clearOfGround in Hlow. rewrite Forall_forall in Hlow.
  pose proof (closestOnPair_height {| px := x; py := GROUND_Y - BALL_RADIUS |} p1 p2 _
                (Hlow p1 H1) (Hlow p2 H2)) as Hc.
  set (c := closestOnPair _ p1 p2) in *.
  apply not_true_iff_false. rewrite withinReach_iff. apply Qle_not_lt.
  unfold sqDist. cbn [px py].
  unfold GROUND_Y, BALL_RADIUS in *.
  assert (Hx : 0 <= (x - px c) * (x - px c)) by apply square_nonneg.
  assert (Hd : 18 <= 650 - 15 - py c) by lra.
  assert (Hy : 324 <= (650 - 15 - py c) * (650 - 15 - py c)) by nra.
  lra.
Qed.

(** The frame of a ball that rests on the ground, clear of the path and
    with any bucket standing on the ground line. *)
Lemma grounded_contacts (inp : Inputs) (pathPoints : list Point) (r : Run) :
  bucketOnGround inp ->
  clearOfGround pathPoints ->
  grounded (ball r) ->
  ball (contacts inp pathPoints {| view := view r; ball := integrate (ball r) |})
  = {| ballX := ballX (ball r) + velocityX (ball r);
       ballY := GROUND_Y - BALL_RADIUS;
       velocityX := velocityX (ball r) * friction inp * friction inp;
       velocityY := 0;
       onGround := false;
       ballInBucket := false |}.
Proof.
  intros Hbk Hlow (Hy & Hv & Hn).
  destruct r as [v [x y vx vy og ib]]. cbn [ball ballY velocityY ballInBucket] in *.
  subst y vy ib.
  assert (Hmiss : checkBucketHit (bucket inp) (x + vx)
                    (GROUND_Y - BALL_RADIUS + (0 + GRAVITY)) = false).
  { unfold checkBucketHit. destruct (bucket inp) as [bk|] eqn:Eb; [|reflexivity].
    rewrite (Hbk bk Eb).
    replace (Qle_bool (GROUND_Y - BALL_RADIUS + (0 + GRAVITY) + BALL_RADIUS) GROUND_Y)
      with false by reflexivity.
    apply andb_false_r. }
  unfold contacts, bucketRule, integrate.
  cbn [ball view ballX ballY velocityX velocityY onGround ballInBucket negb].
  rewrite Hmiss.
  assert (Hg : groundTriggered
                 {| ballX := x + vx; ballY := GROUND_Y - BALL_RADIUS + (0 + GRAVITY);
                    velocityX := vx; velocityY := 0 + GRAVITY;
                    onGround := og; ballInBucket := false |} = true) by reflexivity.
  destruct (bucket inp); unfold groundRule; cbn [ball view]; rewrite Hg; cbn [ball];
    unfold pathRule; cbn [ballInBucket negb ballX ballY];
    rewrite (low_path_no_contact pathPoints (x + vx) Hlow); reflexivity.
Qed.

(** X20.  A ball at rest on the ground line is never captured when the
    bucket stands on the ground line and the path stays clear of the
    ground: the bucket test wants the bottom of the ball at or above the
    ground line, and the integration step has already pushed it
    [GRAVITY] below.  Frame after frame the ball stays on the ground line,
    uncaptured, with no vertical velocity. *)
Theorem grounded_never_captured (n : nat) (canvas : Canvas) (inp : Inputs)
    (pathPoints : list Point) (r : Run) :
  has2d canvas = true ->
  bucketOnGround inp ->
  clearOfGround pathPoints ->
  grounded (ball r) ->
  bucketContact inp r = false
  /\ grounded (ball (snd (frames n canvas inp pathPoints (Scheduled, r)))).
Proof.
  intros H Hbk Hlow Hg. split.
  - destruct Hg as (Hy & Hv & Hn). unfold bucketContact, checkBucketHit.
    destruct (bucket inp) as [bk|] eqn:Eb; [|apply andb_false_r].
    rewrite (Hbk bk Eb). unfold integrate. cbn [ballX ballY].
    rewrite Hy, Hv.
    replace (Qle_bool (GROUND_Y - BALL_RADIUS + (0 + GRAVITY) + BALL_RADIUS) GROUND_Y)
      with false by reflexivity.
    rewrite !andb_false_r. reflexivity.
  - revert r Hg. induction n as [|k IH]; intros r Hg; cbn [frames fst snd]; [exact Hg|].
    pose proof (animate_ball canvas inp pathPoints r H) as Ha. cbv zeta in Ha.
    rewrite (grounded_contacts inp pathPoints r Hbk Hlow Hg) in Ha.
    destruct (animate canvas inp pathPoints r) as [st r1]. cbn [fst snd] in Ha.
    destruct Ha as [(-> & _ & Hb)|(-> & _ & Hb)].
    + rewrite frames_terminal by (cbn; discriminate). cbn [snd]. rewrite Hb.
      repeat split.
    + apply IH. rewrite Hb. repeat split.
Qed.

Lemma ledge_clear_of_ground : clearOfGround (getPathPoints ledgePath).
Proof.
  unfold clearOfGround. apply Forall_forall. intros q Hq.
  vm_compute in Hq.
  repeat (destruct Hq as [<-|Hq]; [vm_compute; discriminate|]).
  contradiction.
Qed.

Lemma demoBucket_on_ground : bucketOnGround bucketInputs.
Proof.
  intros bk Hb. injection Hb as <-. reflexivity.
Qed.

Lemma grounded_never_captured_witness :
  bucketContact bucketInputs (runOf (restingBall 290 (GROUND_Y - BALL_RADIUS) 3 0)) = false
  /\ grounded
       (ball (snd (frames 2 demoCanvas bucketInputs (getPathPoints ledgePath)
                     (Scheduled, runOf (restingBall 290 (GROUND_Y - BALL_RADIUS) 3 0))))).
Proof.
  apply (grounded_never_captured 2 demoCanvas bucketInputs (getPathPoints ledgePath)
           (runOf (restingBall 290 (GROUND_Y - BALL_RADIUS) 3 0)) eq_refl
           demoBucket_on_ground ledge_clear_of_ground).
  repeat split.
Defined.

(** ** Coming to rest *)

(** Powers of a damping factor: [q^n (1 + n (1 - q)) <= 1]. *)
Lemma power_decay (q : Q) (n : nat) :
  0 <= q <= 1 ->
  0 <= q ^ Z.of_nat n
  /\ q ^ Z.of_nat n * (1 + inject_Z (Z.of_nat n) * (1 - q)) <= 1.
Proof.
  intros Hq. induction n as [|k (IH0 & IH1)].
  - cbn [Z.of_nat Qpower]. change (inject_Z 0) with 0. split; lra.
  - rewrite Qpower_succ, inject_Z_succ.
    assert (Hk : 0 <= inject_Z (Z.of_nat k))
      by (change 0 with (inject_Z 0); rewrite <- Zle_Qle; lia).
    set (p := q ^ Z.of_nat k) in *. set (N := inject_Z (Z.of_nat k)) in *.
    split; [apply Qmult_le_0_compat; lra|].
    assert (Hu : 0 <= (N + 1) * ((1 - q) * (1 - q))).
    { apply Qmult_le_0_compat; [lra | apply square_nonneg]. }
    assert (Hstep : q * (1 + (N + 1) * (1 - q)) <= 1 + N * (1 - q)).
    { setoid_replace (q * (1 + (N + 1) * (1 - q)))
        with (1 + N * (1 - q) - (N + 1) * ((1 - q) * (1 - q))) by ring.
      lra. }
    assert (Hm : p * (q * (1 + (N + 1) * (1 - q))) <= p * (1 + N * (1 - q))).
    { rewrite !(Qmult_comm p). apply Qmult_le_compat_r; assumption. }
    setoid_replace (p * q * (1 + (N + 1) * (1 - q)))
      with (p * (q * (1 + (N + 1) * (1 - q)))) by ring.
    lra.
Qed.

(** A damped quantity falls below any positive threshold. *)
Lemma geometric_small (q c eps : Q) :
  0 <= q < 1 -> 0 <= c -> 0 < eps ->
  exists n, (1 <= n)%nat /\ c * q ^ Z.of_nat n < eps.
Proof.
  intros (Hq0 & Hq1) Hc He.
  set (u := 1 - q). assert (Hu : 0 < u) by (unfold u; lra).
  set (z := Qceiling (c / (eps * u))).
  assert (Hprod : 0 < eps * u) by (apply Qmult_lt_0_compat; assumption).
  assert (Hz : c / (eps * u) <= inject_Z z) by apply Qle_ceiling.
  assert (Hz0 : (0 <= z)%Z).
  { rewrite Zle_Qle. eapply Qle_trans; [|exact Hz].
    apply Qle_shift_div_l; [exact Hprod|].
    change (inject_Z 0) with 0. rewrite Qmult_0_l. exact Hc. }
  exists (S (Z.to_nat z)). split; [lia|].
  destruct (power_decay q (S (Z.to_nat z)) (conj Hq0 (Qlt_le_weak _ _ Hq1))) as (Hp0 & Hp1).
  fold u in Hp1. rewrite inject_Z_succ in Hp1. rewrite Z2Nat.id in Hp1 by exact Hz0.
  set (p := q ^ Z.of_nat (S (Z.to_nat z))) in *. set (N := inject_Z z) in *.
  assert (Hc1 : c <= N * (eps * u)).
  { assert (E : c == c / (eps * u) * (eps * u)) by (field; lra).
    rewrite E at 1. apply Qmult_le_compat_r; [exact Hz | lra]. }
  assert (Hw : 0 < 1 + (N + 1) * u).
  { assert (0 <= N) by (change 0 with (inject_Z 0); unfold N; rewrite <- Zle_Qle; exact Hz0).
    assert (0 <= (N + 1) * u) by (apply Qmult_le_0_compat; lra). lra. }
  assert (Hcp : c * (p * (1 + (N + 1) * u)) <= c * 1).
  { rewrite !(Qmult_comm c). apply Qmult_le_compat_r; assumption. }
  assert (Hlt : c * p * (1 + (N + 1) * u) < eps * (1 + (N + 1) * u)).
  { setoid_replace (c * p * (1 + (N + 1) * u)) with (c * (p * (1 + (N + 1) * u))) by ring.
    setoid_replace (eps * (1 + (N + 1) * u)) with (N * (eps * u) + (eps + eps * u)) by ring.
    assert (0 < eps + eps * u) by lra. lra. }
  destruct (Qlt_le_dec (c * p) eps) as [Hdone|Hge]; [exact Hdone|].
  exfalso.
  assert (eps * (1 + (N + 1) * u) <= c * p * (1 + (N + 1) * u)).
  { apply Qmult_le_compat_r; [exact Hge | lra]. }
  lra.
Qed.

Lemma roll_frames (n : nat) (canvas : Canvas) (inp : Inputs) (pathPoints : list Point) :
  has2d canvas = true ->
  bucketOnGround inp ->
  clearOfGround pathPoints ->
  0 <= friction inp ->
  forall r : Run,
    grounded (ball r) ->
    Qabs (velocityX (ball r)) * (friction inp * friction inp) ^ Z.of_nat (S n) < 1 # 10 ->
    fst (frames (S n) canvas inp pathPoints (Scheduled, r)) = Settled.
Proof.
  intros H Hbk Hlow Hf.
  assert (Hq : 0 <= friction inp * friction inp) by apply square_nonneg.
  assert (Habs : forall vx, Qabs (vx * friction inp * friction inp)
                            == Qabs vx * (friction inp * friction inp)).
  { intros vx. rewrite <- Qmult_assoc, Qabs_Qmult.
    rewrite (Qabs_pos (friction inp * friction inp)) by exact Hq. reflexivity. }
  induction n as [|k IH]; intros r Hg Hsmall; cbn [frames fst snd].
  - pose proof (animate_ball canvas inp pathPoints r H) as Ha. cbv zeta in Ha.
    rewrite (grounded_contacts inp pathPoints r Hbk Hlow Hg) in Ha.
    destruct Ha as [(-> & _)|(_ & Hs & _)]; [reflexivity|].
    exfalso. unfold stopped in Hs. cbn [velocityX velocityY] in Hs.
    change (Qltb (Qabs 0) (1 # 10)) with true in Hs. rewrite andb_true_r in Hs.
    apply Qltb_ge in Hs. rewrite Habs in Hs.
    change (Z.of_nat 1) with 1%Z in Hsmall. rewrite Qpower_1_r in Hsmall. lra.
  - pose proof (animate_ball canvas inp pathPoints r H) as Ha. cbv zeta in Ha.
    rewrite (grounded_contacts inp pathPoints r Hbk Hlow Hg) in Ha.
    destruct (animate canvas inp pathPoints r) as [st r1]. cbn [fst snd] in Ha.
    destruct Ha as [(-> & _)|(-> & _ & Hb)].
    + cbn [fst]. reflexivity.
    + cbn [fst]. apply (IH r1).
      * rewrite Hb. repeat split.
      * rewrite Hb. cbn [velocityX]. rewrite Habs.
        rewrite (Qpower_succ _ (S k)) in Hsmall.
        setoid_replace (Qabs (velocityX (ball r)) * (friction inp * friction inp)
                        * (friction inp * friction inp) ^ Z.of_nat (S k))
          with (Qabs (velocityX (ball r))
                * ((friction inp * friction inp) ^ Z.of_nat (S k)
                   * (friction inp * friction inp))) by ring.
        exact Hsmall.
Qed.

(** X21.  A ball rolling on the ground comes to rest: with a friction
    coefficient in [0, 1), a bucket (if any) standing on the ground line and
    a path that stays clear of the ground, a run whose ball is at rest on
    the ground line settles after finitely many frames. *)
Theorem ground_roll_settles (canvas : Canvas) (inp : Inputs) (pathPoints : list Point)
    (r : Run) :
  has2d canvas = true ->
  bucketOnGround inp ->
  clearOfGround pathPoints ->
  0 <= friction inp < 1 ->
  grounded (ball r) ->
  exists n, fst (frames n canvas inp pathPoints (Scheduled, r)) = Settled.
Proof.
  intros H Hbk Hlow (Hf0 & Hf1) Hg.
  assert (Hq : 0 <= friction inp * friction inp < 1) by (split; nra).
  destruct (geometric_small (friction inp * friction inp) (Qabs (velocityX (ball r)))
              (1 # 10) Hq (Qabs_nonneg _) ltac:(reflexivity)) as (n & Hn & Hsmall).
  destruct n as [|m]; [lia|].
  exists (S m). apply roll_frames; assumption.
Qed.

Lemma ground_roll_settles_witness :
  exists n,
    fst (frames n demoCanvas bucketInputs (getPathPoints ledgePath)
           (Scheduled, runOf (restingBall 290 (GROUND_Y - BALL_RADIUS) 3 0)))
    = Settled.
Proof.
  apply (ground_roll_settles demoCanvas bucketInputs (getPathPoints ledgePath)
           (runOf (restingBall 290 (GROUND_Y - BALL_RADIUS) 3 0)) eq_refl
           demoBucket_on_ground ledge_clear_of_ground).
  - split; [discriminate | reflexivity].
  - repeat split.
Defined.

(** * Properties of the page *)

Lemma bucketShape_standard (v v' : View) :
  bucketShape v' = bucketShape v -> bucketStandard v -> bucketStandard v'.
Proof.
  unfold bucketShape, bucketStandard. intros Hs Hv bk Hbk. rewrite Hbk in Hs.
  destruct (bucketState v) as [b0|]; [|discriminate Hs].
  cbn in Hs. injection Hs as Hx Hy Hw Hh.
  destruct (Hv b0 eq_refl) as (H1 & H2 & H3).
  unfold standardBucket. repeat split; congruence.
Qed.

Lemma bucketShape_some (v v' : View) :
  bucketShape v' = bucketShape v -> bucketState v <> None -> bucketState v' <> None.
Proof.
  unfold bucketShape. intros Hs Hv Hn. rewrite Hn in Hs.
  destruct (bucketState v); [discriminate Hs | contradiction].
Qed.

Lemma markBucket_shape (hit : bool) (v : View) : bucketShape (markBucket hit v) = bucketShape v.
Proof.
  unfold bucketShape, markBucket. cbn [bucketState].
  destruct (bucketState v); reflexivity.
Qed.

Lemma evaluatePredictions_shape (inp : Inputs) (final : EnergyData) (v : View) :
  bucketShape (evaluatePredictions inp final v) = bucketShape v.
Proof.
  unfold bucketShape.
  destruct (evaluatePredictions_frame inp final v) as (_ & _ & _ & _ & _ & ->).
  reflexivity.
Qed.

Lemma contacts_shape (inp : Inputs) (pathPoints : list Point) (r : Run) :
  bucketShape (view (contacts inp pathPoints r)) = bucketShape (view r).
Proof.
  unfold contacts. cbn [view].
  assert (H1 : bucketShape (view (bucketRule inp r)) = bucketShape (view r)).
  { unfold bucketRule. destruct (bucket inp); [|reflexivity].
    destruct (negb _); [|reflexivity].
    destruct (checkBucketHit _ _ _); [|reflexivity].
    cbn [view]. apply (markBucket_shape true (setBucketHit true (view r))). }
  rewrite <- H1. unfold groundRule. destruct (groundTriggered _); [|reflexivity].
  cbn [view]. destruct (bucket inp); reflexivity.
Qed.

Lemma animate_shape (canvas : Canvas) (inp : Inputs) (pathPoints : list Point) (r : Run) :
  bucketShape (view (snd (animate canvas inp pathPoints r))) = bucketShape (view r).
Proof.
  unfold animate. destruct (has2d canvas); [|reflexivity].
  cbn [negb isFinite orb].
  pose proof (contacts_shape inp pathPoints {| view := view r; ball := integrate (ball r) |})
    as Hc.
  destruct (stopped _); cbn [snd view].
  - change (bucketShape (setIsAnimating false ?v)) with (bucketShape v).
    rewrite evaluatePredictions_shape. exact Hc.
  - exact Hc.
Qed.

Lemma frames_shape (n : nat) (canvas : Canvas) (inp : Inputs) (pathPoints : list Point)
    (sr : Status * Run) :
  bucketShape (view (snd (frames n canvas inp pathPoints sr))) = bucketShape (view (snd sr)).
Proof.
  revert sr. induction n as [|k IH]; intros sr; cbn [frames]; [reflexivity|].
  destruct (fst sr); try reflexivity.
  rewrite IH. apply animate_shape.
Qed.

Lemma startRun_shape (canvas : Canvas) (inp : Inputs) (v : View) :
  bucketShape (view (snd (startRun canvas inp v))) = bucketShape v.
Proof.
  unfold startRun. cbn [snd view].
  change (bucketShape (setInitialEnergyRef ?q ?w)) with (bucketShape w).
  destruct (bucket inp); [rewrite markBucket_shape|]; reflexivity.
Qed.

Lemma stopSimulation_keeps (inp : Inputs) (v : View) :
  bucketShape (stopSimulation inp v) = bucketShape v
  /\ bucketHit (stopSimulation inp v) = bucketHit v.
Proof.
  unfold stopSimulation. destruct (finalEnergyData v) as [fe|]; [|split; reflexivity].
  split.
  - rewrite evaluatePredictions_shape. reflexivity.
  - destruct (evaluatePredictions_frame inp fe (setIsAnimating false v))
      as (_ & _ & _ & _ & -> & _).
    reflexivity.
Qed.

Lemma frames_flags (n : nat) (canvas : Canvas) (inp : Inputs) (pathPoints : list Point)
    (sr : Status * Run) :
  flagsFollowLatch inp (snd sr) ->
  flagsFollowLatch inp (snd (frames n canvas inp pathPoints sr)).
Proof.
  revert sr. induction n as [|k IH]; intros sr Hsr; cbn [frames]; [exact Hsr|].
  destruct (fst sr); try exact Hsr. apply IH, animate_flags, Hsr.
Qed.

Lemma frames_no_bucket (n : nat) (canvas : Canvas) (inp : Inputs) (pathPoints : list Point)
    (sr : Status * Run) :
  bucket inp = None ->
  ballInBucket (ball (snd sr)) = false ->
  ballInBucket (ball (snd (frames n canvas inp pathPoints sr))) = false.
Proof.
  intros Hb. revert sr. induction n as [|k IH]; intros sr Hsr; cbn [frames]; [exact Hsr|].
  destruct (fst sr); try exact Hsr.
  apply IH. rewrite animate_no_bucket by exact Hb. exact Hsr.
Qed.

Lemma startRun_flags (canvas : Canvas) (inp : Inputs) (v : View) :
  bucketState v = bucket inp -> flagsFollowLatch inp (snd (startRun canvas inp v)).
Proof.
  intros Hv. unfold flagsFollowLatch, startRun. cbn [snd view ball ballInBucket].
  destruct (bucket inp) as [bk|] eqn:Eb; cbn; rewrite Hv; split; reflexivity.
Qed.

(** The hit flag of a run in progress is set only when there is a bucket. *)
Lemma run_hit_has_bucket (n : nat) (canvas : Canvas) (inp : Inputs) (v : View) :
  bucketState v = bucket inp ->
  bucketHit
    (view (snd (frames n canvas inp (fst (startRun canvas inp v))
                  (animate canvas inp (fst (startRun canvas inp v))
                     (snd (startRun canvas inp v))))))
  = true ->
  bucket inp <> None.
Proof.
  intros Hv Hhit Hnone.
  pose proof (frames_flags n canvas inp (fst (startRun canvas inp v)) _
                (animate_flags canvas inp (fst (startRun canvas inp v)) _
                   (startRun_flags canvas inp v Hv))) as (Hf & _).
  rewrite Hf in Hhit.
  rewrite frames_no_bucket in Hhit; [discriminate Hhit | exact Hnone |].
  rewrite animate_no_bucket by exact Hnone. reflexivity.
Qed.

Lemma runOn_invariant (cr : option Canvas) (n : nat) (p : Page) :
  pageInvariant p -> pageInvariant (runOn cr n p).
Proof.
  intros Hinv. unfold runOn.
  destruct cr as [canvas|]; [|exact Hinv].
  unfold runSimulation.
  destruct (path (render p)) eqn:Ep; [exact Hinv|].
  rewrite (surjective_pairing (startRun canvas (render p) (pview p))).
  rewrite (surjective_pairing (animate canvas (render p) _ _)).
  rewrite <- (surjective_pairing (animate canvas (render p) _ _)).
  destruct Hinv as (Hpath & Hstd & Hhit).
  unfold pageInvariant, withView. cbn [editor pview].
  assert (Hs : bucketShape
                 (view (snd (frames n canvas (render p)
                               (fst (startRun canvas (render p) (pview p)))
                               (animate canvas (render p)
                                  (fst (startRun canvas (render p) (pview p)))
                                  (snd (startRun canvas (render p) (pview p)))))))
               = bucketShape (pview p)).
  { rewrite frames_shape, animate_shape, startRun_shape. reflexivity. }
  split; [exact Hpath|]. split.
  - apply (bucketShape_standard _ _ Hs Hstd).
  - intros Hh. apply (bucketShape_some _ _ Hs).
    apply (run_hit_has_bucket n canvas (render p) (pview p) eq_refl Hh).
Qed.

Lemma placed_bucket_standard (x : Q) (v : View) :
  bucketStandard
    (setBucket (Some {| bx := x; by_ := GROUND_Y; bwidth := BUCKET_WIDTH;
                        bheight := BUCKET_HEIGHT; isHit := false |}) v).
Proof.
  intros bk Hb. cbn in Hb. injection Hb as <-. repeat split.
Qed.

(** X22.  Whatever sequence of clicks, buttons, runs and stops has led to
    a page, every segment of its path has at least two points, its bucket,
    if it has one, stands on the ground line and is 80 wide and 60 high, and
    its hit flag is set only while there is a bucket. *)
Theorem reachable_pages (p : Page) : reachable p -> pageInvariant p.
Proof.
  induction 1 as [|cr e p Hp IH|p Hp IH|p Hp IH|p Hp IH|p Hp IH|f s p Hp IH
                  |p Hp IH|p Hp IH|cr n p Hp IH|s mode p Hp IH].
  - split; [constructor|]. split; [intros bk Hb; discriminate Hb | intros Hh; discriminate Hh].
  - unfold handleCanvasClick.
    destruct (isAnimating (pview p)); [exact IH|].
    destruct cr as [[canvas rect]|]; [|exact IH].
    destruct (bucketPlacementMode p).
    + destruct (Qgeb _ _); [|exact IH].
      destruct IH as (Hpath & Hstd & Hhit).
      split; [exact Hpath|]. split; [apply placed_bucket_standard|].
      intros _. cbn. discriminate.
    + exact IH.
  - destruct IH as (Hpath & Hstd & Hhit). unfold completeSegmentOn.
    split; [|split; assumption].
    cbn [withEditor editor]. apply completeSegment_wellFormed. exact Hpath.
  - split; [constructor|]. split; [intros bk Hb; discriminate Hb | intros Hh; discriminate Hh].
  - destruct IH as (Hpath & Hstd & Hhit). unfold placeBucket, pageInvariant.
    cbn [withPlacement withView editor pview].
    split; [exact Hpath|]. split.
    + apply (bucketShape_standard (pview p)); [|exact Hstd].
      destruct (bucketState (pview p)); [rewrite markBucket_shape|]; reflexivity.
    + destruct (bucketState (pview p)); intros Hh; discriminate Hh.
  - destruct IH as (Hpath & Hstd & Hhit).
    split; [exact Hpath|]. split; [intros bk Hb; discriminate Hb | intros Hh; discriminate Hh].
  - exact IH.
  - exact IH.
  - destruct IH as (Hpath & Hstd & Hhit). unfold stopSimulationOn, pageInvariant.
    cbn [withView editor pview].
    destruct (stopSimulation_keeps (render p) (pview p)) as (Hs & Hb).
    split; [exact Hpath|]. split.
    + apply (bucketShape_standard _ _ Hs Hstd).
    + rewrite Hb. intros Hh. apply (bucketShape_some _ _ Hs). apply Hhit. exact Hh.
  - apply runOn_invariant. exact IH.
  - exact IH.
Qed.

Lemma reachable_pages_witness :
  pageInvariant
    (handleCanvasClick (Some (demoCanvas, demoRect)) groundClick (placeBucket initialPage)).
Proof.
  apply (reachable_pages
           (handleCanvasClick (Some (demoCanvas, demoRect)) groundClick
              (placeBucket initialPage))).
  apply reach_click, reach_place, reach_initial.
Defined.

(** X23.  For a bucket as the page places it, the ball is inside exactly
    when its centre is within 40 units of the bucket's [x] and its height is
    between 575 and 635: from the bottom of the ball touching the rim down
    to the ball touching the ground line. *)
Theorem standard_bucket_band (bk : Bucket) (x y : Q) :
  standardBucket bk ->
  (checkBucketHit (Some bk) x y = true
   <-> (bx bk - 40 <= x <= bx bk + 40 /\ 575 <= y <= 635)).
Proof.
  intros (Hy & Hw & Hh). unfold checkBucketHit. rewrite Hy, Hw, Hh.
  rewrite !andb_true_iff, !Qgeb_ge, !Qle_bool_iff.
  unfold GROUND_Y, BUCKET_WIDTH, BUCKET_HEIGHT, BALL_RADIUS.
  assert (E : 80 / 2 == 40) by reflexivity.
  split.
  - intros (((H1 & H2) & H3) & H4). rewrite E in H1, H2. repeat split; lra.
  - intros ((H1 & H2) & (H3 & H4)). rewrite E. repeat split; lra.
Qed.

Lemma standard_bucket_band_witness :
  checkBucketHit (Some demoBucket) 310 600 = true
  <-> (bx demoBucket - 40 <= 310 <= bx demoBucket + 40 /\ 575 <= 600 <= 635).
Proof.
  apply (standard_bucket_band demoBucket 310 600). repeat split.
Defined.

(** ** Drawing a path *)

Lemma click_draws (canvas : Canvas) (rect : Rect) (e : ClickEvent) (p : Page) :
  isAnimating (pview p) = false ->
  bucketPlacementMode p = false ->
  handleCanvasClick (Some (canvas, rect)) e p
  = withEditor {| ed_path := ed_path (editor p);
                  currentPoints := currentPoints (editor p) ++ [canvasPoint canvas rect e];
                  drawMode := drawMode (editor p) |} p.
Proof.
  intros Ha Hb. unfold handleCanvasClick. rewrite Ha, Hb. reflexivity.
Qed.

Lemma clicks_draw (canvas : Canvas) (rect : Rect) (events : list ClickEvent) (p : Page) :
  isAnimating (pview p) = false ->
  bucketPlacementMode p = false ->
  clicks canvas rect events p
  = withEditor {| ed_path := ed_path (editor p);
                  currentPoints := currentPoints (editor p)
                                   ++ map (canvasPoint canvas rect) events;
                  drawMode := drawMode (editor p) |} p.
Proof.
  unfold clicks. revert p. induction events as [|e rest IH]; intros p Ha Hb.
  - cbn [fold_left map]. rewrite app_nil_r. destruct p as [[pa cp dm] v b pp sp st].
    reflexivity.
  - cbn [fold_left map]. rewrite (click_draws canvas rect e p Ha Hb).
    rewrite IH by assumption.
    cbn [withEditor editor ed_path currentPoints drawMode pview bucketPlacementMode
         pagePredictions showPredictions settings].
    rewrite <- app_assoc. reflexivity.
Qed.

(** X24.  Outside a run and outside bucket placement, clicking on the
    canvas and then completing the segment appends to the path one segment
    of the current draw mode whose points are the pending points followed
    by the clicked points, in order, provided these are at least two; the
    pending points are then empty, and nothing else on the page changes.
    With fewer than two points the completion changes nothing. *)
Theorem draw_segment (canvas : Canvas) (rect : Rect) (events : list ClickEvent) (p : Page) :
  isAnimating (pview p) = false ->
  bucketPlacementMode p = false ->
  ((2 <= List.length (currentPoints (editor p)) + List.length events)%nat ->
   completeSegmentOn (clicks canvas rect events p)
   = withEditor
       {| ed_path := ed_path (editor p)
                     ++ [ {| seg_type := drawMode (editor p);
                             seg_points := currentPoints (editor p)
                                           ++ map (canvasPoint canvas rect) events |} ];
          currentPoints := [];
          drawMode := drawMode (editor p) |} p)
  /\ ((List.length (currentPoints (editor p)) + List.length events < 2)%nat ->
      completeSegmentOn (clicks canvas rect events p) = clicks canvas rect events p).
Proof.
  intros Ha Hb. rewrite (clicks_draw canvas rect events p Ha Hb).
  unfold completeSegmentOn, completeSegment.
  cbn [withEditor editor ed_path currentPoints drawMode pview bucketPlacementMode
       pagePredictions showPredictions settings].
  rewrite length_app, length_map.
  split; intros Hlen.
  - apply Nat.leb_le in Hlen. rewrite Hlen. reflexivity.
  - apply Nat.leb_gt in Hlen. rewrite Hlen. reflexivity.
Qed.

Lemma draw_segment_witness :
  completeSegmentOn (clicks demoCanvas demoRect skyClicks initialPage)
  = withEditor
      {| ed_path := [ {| seg_type := line;
                         seg_points := map (canvasPoint demoCanvas demoRect) skyClicks |} ];
         currentPoints := [];
         drawMode := line |} initialPage.
Proof.
  apply (proj1 (draw_segment demoCanvas demoRect skyClicks initialPage eq_refl eq_refl)).
  cbn. lia.
Defined.

(** X25.  The handlers that refuse to act: a click during a run changes
    nothing; a click in bucket placement mode never adds a point to the
    path, and places a bucket only at or below 20 units above the ground
    line; and after "clear all" the path is empty, so the run button does
    nothing, whatever number of frames is waited for. *)
Theorem handlers_refuse :
  (forall cr e p, isAnimating (pview p) = true -> handleCanvasClick cr e p = p)
  /\ (forall canvas rect e p,
        isAnimating (pview p) = false ->
        bucketPlacementMode p = true ->
        editor (handleCanvasClick (Some (canvas, rect)) e p) = editor p
        /\ (py (canvasPoint canvas rect e) < GROUND_Y - 20 ->
            handleCanvasClick (Some (canvas, rect)) e p = p)
        /\ (GROUND_Y - 20 <= py (canvasPoint canvas rect e) ->
            bucketState (pview (handleCanvasClick (Some (canvas, rect)) e p))
            = Some {| bx := px (canvasPoint canvas rect e); by_ := GROUND_Y;
                      bwidth := BUCKET_WIDTH; bheight := BUCKET_HEIGHT; isHit := false |}
            /\ bucketPlacementMode (handleCanvasClick (Some (canvas, rect)) e p) = false))
  /\ (forall cr n p, runOn cr n (clearAll p) = clearAll p).
Proof.
  split; [|split].
  - intros cr e p Ha. unfold handleCanvasClick. rewrite Ha. reflexivity.
  - intros canvas rect e p Ha Hb. unfold handleCanvasClick. rewrite Ha, Hb.
    change ((clientY e - rtop rect) * (cheight canvas / rheight rect))
      with (py (canvasPoint canvas rect e)).
    change ((clientX e - rleft rect) * (cwidth canvas / rwidth rect))
      with (px (canvasPoint canvas rect e)).
    destruct (Qgeb (py (canvasPoint canvas rect e)) (GROUND_Y - 20)) eqn:E.
    + apply Qgeb_ge in E. split; [reflexivity|]. split.
      * intros Hlt. apply Qlt_not_le in Hlt. contradiction.
      * intros _. split; reflexivity.
    + split; [reflexivity|]. split; [reflexivity|].
      intros Hge. apply Qgeb_ge in Hge. rewrite Hge in E. discriminate E.
  - intros cr n p. unfold runOn. destruct cr as [canvas|]; [|reflexivity].
    unfold runSimulation, clearAll, withView. cbn. reflexivity.
Qed.

Lemma handlers_refuse_witness :
  handleCanvasClick (Some (demoCanvas, demoRect)) groundClick
    (withView (setIsAnimating true (pview initialPage)) initialPage)
  = withView (setIsAnimating true (pview initialPage)) initialPage
  /\ editor (handleCanvasClick (Some (demoCanvas, demoRect)) groundClick
               (placeBucket initialPage))
     = editor (placeBucket initialPage).
Proof.
  split.
  - apply (proj1 handlers_refuse). reflexivity.
  - apply (proj1 (proj2 handlers_refuse) demoCanvas demoRect groundClick
             (placeBucket initialPage) eq_refl eq_refl).
Defined.
